(** * Social-text: the canvas text renderer and the history endpoint

    A shallow embedding of [ImageGenerator] (font auto-fit, [wrapText],
    [measureWrapped], [drawText], [generateImage], [normalizeFontFamily])
    and of the [POST] handler of the history route; then of the code around
    them: the browser-side store [SnapStorage], the favourite toggle of the
    history panel, the earlier renderer of [lib/image-generator.ts] and the
    font-size search of the editor page.

    Conventions of the embedding:
    - a JavaScript string is a [string]; one [ascii] stands for one character
      (code point), so [for (const ch of word)] is recursion on the string;
    - a JavaScript number that holds a pixel measure is a rational [Q]
      (exact arithmetic, no rounding); the integer options ([width],
      [height], [padding], [fontSize]) are [Z];
    - [ctx.measureText(s).width] under [ctx.font = `${fontSize}px ${family}`]
      is an arbitrary function [measureText fontSize family s], a section
      variable: nothing is assumed about the fonts of the canvas. *)

From Stdlib Require Import ZArith QArith Qminmax Lia Lqa List Bool Ascii String.
From Stdlib Require Import DecimalString Permutation Sorted.
Import ListNotations.

Set Warnings "-register-all".
#[local] Set Warnings "-abstract-large-number".


Open Scope string_scope.
Open Scope Z_scope.

(** ** JavaScript string helpers *)

Module Js.

(** The characters removed by [String.prototype.trim] and matched by the
    regular expression class [\s], among the characters below 256. *)
Definition isWhiteSpace (c : ascii) : bool :=
  let n := nat_of_ascii c in
  (Nat.eqb n 9 || Nat.eqb n 10 || Nat.eqb n 11 || Nat.eqb n 12 ||
   Nat.eqb n 13 || Nat.eqb n 32 || Nat.eqb n 160)%bool.

Fixpoint trimStart (s : string) : string :=
  match s with
  | EmptyString => EmptyString
  | String c s' => if isWhiteSpace c then trimStart s' else s
  end.

Fixpoint trimEnd (s : string) : string :=
  match s with
  | EmptyString => EmptyString
  | String c s' =>
      match trimEnd s' with
      | EmptyString => if isWhiteSpace c then EmptyString else String c EmptyString
      | t => String c t
      end
  end.

(** [s.trim()] *)
Definition trim (s : string) : string := trimEnd (trimStart s).

(** [s.split(sep)] for a one-character separator: never the empty array. *)
Fixpoint split (sep : ascii) (s : string) : list string :=
  match s with
  | EmptyString => [EmptyString]
  | String c s' =>
      if Ascii.eqb c sep then EmptyString :: split sep s'
      else match split sep s' with
           | [] => [String c EmptyString]
           | w :: ws => String c w :: ws
           end
  end.

(** Truthiness of a string: [if (s)]. *)
Definition truthy (s : string) : bool := negb (String.eqb s "").

(** [a > b] and [a < b] on numbers. *)
Definition gtb (a b : Q) : bool := negb (Qle_bool a b).
Definition ltb (a b : Q) : bool := negb (Qle_bool b a).

Definition newline : ascii := "010"%char.
Definition space : ascii := " "%char.

(** [arr.push(x)] *)
Definition push {A : Type} (arr : list A) (x : A) : list A := (arr ++ [x])%list.

End Js.

(** ** Global regular-expression replacement, as [normalizeFontFamily] uses it *)

Module Regex.

(** [s.replace(re, repl)] for a regular expression [re] with the [g] flag:
    scan from the left; where [re] matches at the current position, emit
    [repl] and resume after the match, otherwise copy one character.
    [matchLen s] is the length of the match of [re] anchored at the start of
    [s].  None of the expressions below matches the empty string. *)
Fixpoint gsubFrom (matchLen : string -> option nat) (repl : string)
    (skip : nat) (s : string) : string :=
  match s with
  | EmptyString => EmptyString
  | String c s' =>
      match skip with
      | S k => gsubFrom matchLen repl k s'
      | O =>
          match matchLen s with
          | Some (S n) => repl ++ gsubFrom matchLen repl n s'
          | _ => String c (gsubFrom matchLen repl 0 s')
          end
      end
  end.

Definition gsub (matchLen : string -> option nat) (repl s : string) : string :=
  gsubFrom matchLen repl 0 s.

Fixpoint dropStr (n : nat) (s : string) : string :=
  match n, s with
  | O, _ => s
  | S k, String _ s' => dropStr k s'
  | S _, EmptyString => EmptyString
  end.

(** Length of the longest prefix matched by [\s*]. *)
Fixpoint wsLen (s : string) : nat :=
  match s with
  | String c s' => if Js.isWhiteSpace c then S (wsLen s') else O
  | EmptyString => O
  end.

(** Length of the longest prefix matched by [,*]. *)
Fixpoint commaLen (s : string) : nat :=
  match s with
  | String c s' => if Ascii.eqb c ","%char then S (commaLen s') else O
  | EmptyString => O
  end.

(** Position of the first [)], where [[^)]*\)] ends. *)
Fixpoint closeIdx (s : string) : option nat :=
  match s with
  | EmptyString => None
  | String c s' => if Ascii.eqb c ")"%char then Some O else option_map S (closeIdx s')
  end.

(** A literal pattern, such as [/var\(--font-fira-code\)/]. *)
Definition litMatch (pat s : string) : option nat :=
  if String.prefix pat s then Some (String.length pat) else None.

(** [/var\([^)]*\)\s*,?/] *)
Definition varMatch (s : string) : option nat :=
  if String.prefix "var(" s then
    match closeIdx (dropStr 4 s) with
    | None => None
    | Some n =>
        let after := dropStr (4 + n + 1) s in
        let w := wsLen after in
        let c := match dropStr w after with
                 | String ch _ => if Ascii.eqb ch ","%char then 1%nat else 0%nat
                 | EmptyString => 0%nat
                 end in
        Some (4 + n + 1 + w + c)%nat
    end
  else None.

(** [/\s*,\s*,+/] *)
Definition commaMatch (s : string) : option nat :=
  let w1 := wsLen s in
  match dropStr w1 s with
  | String ch r =>
      if Ascii.eqb ch ","%char then
        let w2 := wsLen r in
        let k := commaLen (dropStr w2 r) in
        if Nat.eqb k 0 then None else Some (w1 + 1 + w2 + k)%nat
      else None
  | EmptyString => None
  end.

(** [re.test(s)] for a literal [re]: [s] has [pat] as a substring. *)
Fixpoint includes (pat s : string) : bool :=
  (String.prefix pat s ||
   match s with
   | EmptyString => false
   | String _ s' => includes pat s'
   end)%bool.

End Regex.

(** ** Font-family normalization *)

Definition dquote : ascii := "034"%char.

(** The literal ["name"], with its double quotes. *)
Definition quoted (name : string) : string := String dquote (name ++ String dquote "").

Inductive KnownFont := JetBrainsMono | FiraCode | SourceCodePro.

Definition tokenBody (k : KnownFont) : string :=
  match k with
  | JetBrainsMono => "--font-jetbrains-mono"
  | FiraCode => "--font-fira-code"
  | SourceCodePro => "--font-source-code-pro"
  end.

Definition familyName (k : KnownFont) : string :=
  match k with
  | JetBrainsMono => "JetBrains Mono"
  | FiraCode => "Fira Code"
  | SourceCodePro => "Source Code Pro"
  end.

(** The raw token [var(--font-...)]. *)
Definition token (k : KnownFont) : string := "var(" ++ tokenBody k ++ ")".

Definition substituteKnown (k : KnownFont) (s : string) : string :=
  Regex.gsub (Regex.litMatch (token k)) (quoted (familyName k)) s.

(** [/monospace|serif|sans-serif/.test(s)] *)
Definition hasGeneric (s : string) : bool :=
  (Regex.includes "monospace" s || Regex.includes "serif" s
   || Regex.includes "sans-serif" s)%bool.

(** [normalizeFontFamily] up to and including [.trim()]. *)
Definition normalizeCore (fontFamily : string) : string :=
  let n1 := substituteKnown JetBrainsMono fontFamily in
  let n2 := substituteKnown FiraCode n1 in
  let n3 := substituteKnown SourceCodePro n2 in
  let n4 := Regex.gsub Regex.varMatch "" n3 in
  Js.trim (Regex.gsub Regex.commaMatch ", " n4).

Definition normalizeFontFamily (fontFamily : string) : string :=
  let normalized := normalizeCore fontFamily in
  if negb (hasGeneric normalized) then normalized ++ ", monospace" else normalized.

(** ** The renderer *)

Definition PARA_BREAK : string := "__PARA_BREAK__".

Record WrapResult := mkWrap { lines : list string; paragraphCount : nat }.

Section Renderer.

(** [measureText fontSize fontFamily s] is [ctx.measureText(s).width] once
    [ctx.font] has been set to [`${fontSize}px ${fontFamily}`]. *)
Variable measureText : Z -> string -> string -> Q.

Section Wrap.

Variable maxWidth : Q.
Variable fontSize : Z.
Variable fontFamily : string.

(** [const measure = (s: string) => ctx.measureText(s).width] *)
Definition measure (s : string) : Q := measureText fontSize fontFamily s.

(** The mutable variables of one paragraph of [wrapText]: the shared array
    [allLines] and the local [currentLine].  (The accumulator [totalHeight]
    of [wrapText] is written but never read, and is left out.) *)
Record wrapState := mkState { allLines : list string; currentLine : string }.

(** [pushLine]: the guard reads the last element of [allLines]; on the empty
    array that element is [undefined], which differs from the empty string. *)
Definition pushLine (st : wrapState) : wrapState :=
  let cur := currentLine st in
  let al := allLines st in
  if (negb (Nat.eqb (String.length cur) 0)
      || Nat.eqb (List.length al) 0
      || negb (String.eqb (List.last al "x") ""))%bool
  then mkState (Js.push al cur) ""
  else mkState al "".

(** The [for (const ch of word)] loop of [splitLongWord], on [allLines] and
    the local [chunk]. *)
Fixpoint splitChars (word : string) (al : list string) (chunk : string)
  : list string * string :=
  match word with
  | EmptyString => (al, chunk)
  | String ch rest =>
      let next := chunk ++ String ch "" in
      if Js.gtb (measure next) maxWidth then
        if Nat.eqb (String.length chunk) 0
        then splitChars rest (Js.push al (String ch "")) chunk
        else splitChars rest (Js.push al chunk) (String ch "")
      else splitChars rest al next
  end.

Definition splitLongWord (word : string) (st : wrapState) : wrapState :=
  let '(al, chunk) := splitChars word (allLines st) "" in
  let st1 := mkState al (currentLine st) in
  if Js.truthy chunk then
    if Js.truthy (currentLine st1) then
      let candidate :=
        currentLine st1 ++ (if Js.truthy (currentLine st1) then " " else "") ++ chunk in
      if Qle_bool (measure candidate) maxWidth
      then mkState al candidate
      else mkState (allLines (pushLine st1)) chunk
    else mkState al chunk
  else st1.

(** One iteration of [for (const word of words)]. *)
Definition wordStep (st : wrapState) (word : string) : wrapState :=
  let tentative :=
    currentLine st ++ (if Js.truthy (currentLine st) then " " else "") ++ word in
  if Qle_bool (measure tentative) maxWidth
  then mkState (allLines st) tentative
  else
    let st1 := if Js.truthy (currentLine st) then pushLine st else st in
    if Qle_bool (measure word) maxWidth
    then mkState (allLines st1) word
    else splitLongWord word st1.

(** The body of [paragraphs.forEach((paragraph, idx) => ...)]. *)
Definition wrapParagraph (al : list string) (idx : nat) (paragraph : string)
  : list string :=
  let al1 := if Nat.ltb 0 idx then Js.push al PARA_BREAK else al in
  if String.eqb (Js.trim paragraph) "" then Js.push al1 ""
  else
    let words := Js.split Js.space paragraph in
    let st := fold_left wordStep words (mkState al1 "") in
    if Js.truthy (currentLine st) then allLines (pushLine st) else allLines st.

Fixpoint forEachParagraph (ps : list string) (idx : nat) (al : list string)
  : list string :=
  match ps with
  | [] => al
  | p :: ps' => forEachParagraph ps' (S idx) (wrapParagraph al idx p)
  end.

Definition wrapText (text : string) : WrapResult :=
  let paragraphs := Js.split Js.newline text in
  mkWrap (forEachParagraph paragraphs 0 []) (List.length paragraphs).

End Wrap.

Local Open Scope Q_scope.

(** [fontSize * 1.6] *)
Definition lineHeightOf (fontSize : Z) : Q := inject_Z fontSize * (16 # 10).

Section Measure.

Variable maxWidth : Q.
Variable fontSize : Z.
Variable fontFamily : string.

(** One iteration of the word loop of [measureWrapped], on
    [(totalHeight, current)]. *)
Definition measureStep (st : Q * string) (word : string) : Q * string :=
  let '(totalHeight, current) := st in
  let tentative := current ++ (if Js.truthy current then " " else "") ++ word in
  if Qle_bool (measure fontSize fontFamily tentative) maxWidth
  then (totalHeight, tentative)
  else (totalHeight + lineHeightOf fontSize, word).

(** The body of [paragraphs.forEach((p, idx) => ...)] of [measureWrapped]. *)
Definition measureParagraph (totalHeight : Q) (idx : nat) (p : string) : Q :=
  let lineHeight := lineHeightOf fontSize in
  let t1 := if Nat.ltb 0 idx then totalHeight + lineHeight * (5 # 10) else totalHeight in
  if String.eqb (Js.trim p) "" then t1 + lineHeight
  else
    let '(t2, current) := fold_left measureStep (Js.split Js.space p) (t1, "") in
    if Js.truthy current then t2 + lineHeight else t2.

Fixpoint measureEach (ps : list string) (idx : nat) (totalHeight : Q) : Q :=
  match ps with
  | [] => totalHeight
  | p :: ps' => measureEach ps' (S idx) (measureParagraph totalHeight idx p)
  end.

(** [measureWrapped(text, maxWidth, fontSize, fontFamily).totalHeight] *)
Definition measureWrapped (text : string) : Q :=
  measureEach (Js.split Js.newline text) 0 0.

End Measure.

(** A call [ctx.fillText(text, x, y)]. *)
Record FillText := mkFill { fillLine : string; fillX : Q; fillY : Q }.

Inductive TextAlign := AlignLeft | AlignCenter.

(** What [drawText] does to the canvas: the [fillText] calls in order, and
    the final value of the cursor [currentY]. *)
Record Drawn := mkDrawn { calls : list FillText; currentY : Q }.

(** The callback of [wrapped.lines.forEach] in [drawText]. *)
Definition drawLine (x maxWidth lineHeight : Q) (align : TextAlign)
    (d : Drawn) (line : string) : Drawn :=
  if String.eqb line PARA_BREAK then mkDrawn (calls d) (currentY d + lineHeight * (5 # 10))
  else
    let fx := match align with
              | AlignCenter => x + maxWidth / 2
              | AlignLeft => x
              end in
    mkDrawn (Js.push (calls d) (mkFill line fx (currentY d))) (currentY d + lineHeight).

(** [drawText(text, x, y, maxWidth, options)]; [textAlign] is
    [options.textAlign], absent ([None]) for the default ["left"]. *)
Definition drawText (text : string) (x y maxWidth : Q) (fontSize : Z)
    (fontFamily : string) (textAlign : option TextAlign) : Drawn :=
  let align := match textAlign with Some a => a | None => AlignLeft end in
  let lineHeight := lineHeightOf fontSize in
  let wrapped := wrapText maxWidth fontSize fontFamily text in
  fold_left (drawLine x maxWidth lineHeight align) (lines wrapped) (mkDrawn [] y).

Inductive ImageFormat := Png | Jpeg | Webp.

Record ImageOptions := mkOptions {
  format : ImageFormat;
  quality : Q;
  width : Z;
  height : Z;
  scale : Q;
  backgroundColor : string;
  textColor : string;
  fontFamily : string;
  fontSize : Z;
  padding : Z;
  borderRadius : Z;
  autoFit : bool;
  cardColor : string
}.

Definition defaultImageOptions : ImageOptions :=
  {| format := Png;
     quality := 1;
     width := 1080%Z;
     height := 1080%Z;
     scale := 3;
     backgroundColor := "#F3EBDD";
     textColor := "#2A2926";
     fontFamily :=
       quoted "SF Mono" ++ ", " ++ quoted "Monaco" ++ ", " ++ quoted "Inconsolata"
       ++ ", " ++ quoted "Roboto Mono" ++ ", " ++ quoted "Courier New" ++ ", monospace";
     fontSize := 16%Z;
     padding := 40%Z;
     borderRadius := 20%Z;
     autoFit := true;
     cardColor := "#EFE3CF" |}.

(** [text.split("\n").reduce((a, b) => (b.length > a.length ? b : a), "")] *)
Definition sampleLineOf (text : string) : string :=
  fold_left (fun a b => if Nat.ltb (String.length a) (String.length b) then b else a)
            (Js.split Js.newline text) "".

Section AutoFit.

Variable family : string.
Variable sampleLine : string.
Variable targetWidth : Z.
Variable requested : Z.

(** [this.ctx.measureText(sampleLine).width] under the font size [fs]. *)
Definition sampleWidth (fs : Z) : Q := measureText fs family sampleLine.

(** The shrink loop.  [fuel] bounds the number of evaluations of the loop
    condition; [None] means the bound was too small. *)
Fixpoint shrinkLoop (fuel : nat) (workingFontSize : Z) : option Z :=
  match fuel with
  | O => None
  | S k =>
      if ((10 <? workingFontSize)%Z
          && Js.gtb (sampleWidth workingFontSize) (inject_Z targetWidth))%bool
      then shrinkLoop k (workingFontSize - 1)%Z
      else Some workingFontSize
  end.

(** The grow loop, with its two [break]s. *)
Fixpoint growLoop (fuel : nat) (workingFontSize : Z) : option Z :=
  match fuel with
  | O => None
  | S k =>
      if Js.ltb (sampleWidth workingFontSize) (inject_Z targetWidth * (9 # 10)) then
        let grown := (workingFontSize + 1)%Z in
        if Js.gtb (sampleWidth grown) (inject_Z targetWidth) then Some (grown - 1)%Z
        else if (requested * 3 <? grown)%Z then Some grown
        else growLoop k grown
      else Some workingFontSize
  end.

(** Both loops, with enough fuel for each (see [autoFitSize_total]). *)
Definition autoFitSize : option Z :=
  match shrinkLoop (S (Z.to_nat (requested - 10)%Z)) requested with
  | None => None
  | Some shrunk => growLoop (S (S (Z.to_nat (requested * 3 - shrunk)%Z))) shrunk
  end.

End AutoFit.

(** The layout that [generateImage] computes and draws. *)
Record Rendered := mkRendered {
  workingFontSize : Z;
  wrapped : WrapResult;
  textHeight : Q;
  dynamicHeight : Q;
  canvasWidth : Q;
  canvasHeight : Q;
  cardHeight : Q;
  totalTextHeight : Q;
  startY : Q;
  drawn : Drawn
}.

(** [generateImage(text, options)], [opts] being the options merged onto the
    defaults.  [None] only if a loop ran out of fuel.  The fills of the
    background, the card and the three dots, and the encoding of the canvas,
    do not depend on the text layout and are left out. *)
Definition generateImage (text : string) (opts : ImageOptions) : option Rendered :=
  let normalizedFontFamily := normalizeFontFamily (fontFamily opts) in
  let targetWidth := (width opts - 96 - padding opts * 2)%Z in
  let fitted :=
    if autoFit opts
    then autoFitSize normalizedFontFamily (sampleLineOf text) targetWidth (fontSize opts)
    else Some (fontSize opts) in
  match fitted with
  | None => None
  | Some working =>
      let lineHeight := lineHeightOf working in
      let cardX := 48%Z in
      let cardY := 48%Z in
      let cardWidth := (width opts - 96)%Z in
      let maxTextWidth := inject_Z (cardWidth - padding opts * 2) in
      let w := wrapText maxTextWidth working normalizedFontFamily text in
      let paragraphSeparatorExtra :=
        inject_Z (Z.max 0 (Z.of_nat (paragraphCount w) - 1)%Z) * lineHeight * (5 # 10) in
      let tHeight :=
        inject_Z (Z.of_nat (List.length (lines w))) * lineHeight + paragraphSeparatorExtra in
      let dynHeight :=
        Qmax (inject_Z (height opts)) (tHeight + inject_Z (padding opts * 2) + 160) in
      let cHeight := dynHeight - 96 in
      let total := measureWrapped maxTextWidth working normalizedFontFamily text in
      let sY := inject_Z cardY + (cHeight - total) / 2 in
      let d := drawText text (inject_Z (cardX + padding opts))
                 (Qmax (inject_Z (cardY + 80)) sY) maxTextWidth
                 working normalizedFontFamily (Some AlignCenter) in
      Some (mkRendered working w tHeight dynHeight
              (inject_Z (width opts) * scale opts) (dynHeight * scale opts)
              cHeight total sY d)
  end.

End Renderer.

(** A canvas with a monospace font: every character is [0.6 * fontSize]
    pixels wide, whatever the family.  Used to run the renderer on concrete
    inputs. *)
Definition monoMeasure (fontSize : Z) (family s : string) : Q :=
  inject_Z (fontSize * Z.of_nat (String.length s)) * (6 # 10).

(** [n] copies of the character [c]. *)
Fixpoint repeatChar (c : ascii) (n : nat) : string :=
  match n with
  | O => EmptyString
  | S k => String c (repeatChar c k)
  end.

(** ** The history endpoint *)

Module History.

(** A JavaScript number: [JSON.parse] yields finite values and, on overflow,
    the infinities. *)
Inductive JsNumber := Finite (q : Q) | PosInfinity | NegInfinity | NaN.

Inductive Json :=
| JNull
| JBool (b : bool)
| JNumber (n : JsNumber)
| JString (s : string)
| JArray (items : list Json)
| JObject (fields : list (string * Json)).

(** A JavaScript value read from a property: [None] is [undefined]. *)
Definition Value := option Json.

(** For a key given twice, [JSON.parse] keeps the last value. *)
Fixpoint assocLast (key : string) (fields : list (string * Json)) : Value :=
  match fields with
  | [] => None
  | (k, v) :: rest =>
      match assocLast key rest with
      | Some v' => Some v'
      | None => if String.eqb k key then Some v else None
      end
  end.

(** [(body ?? {}).key] for the keys the handler destructures; none of them is
    a property of a primitive or of an array. *)
Definition getField (body : Json) (key : string) : Value :=
  match body with
  | JObject fields => assocLast key fields
  | _ => None
  end.

Definition truthy (v : Value) : bool :=
  match v with
  | None => false
  | Some JNull => false
  | Some (JBool b) => b
  | Some (JNumber (Finite q)) => negb (Qeq_bool q 0)
  | Some (JNumber NaN) => false
  | Some (JNumber _) => true
  | Some (JString s) => negb (String.eqb s "")
  | Some (JArray _) => true
  | Some (JObject _) => true
  end.

Definition isString (v : Value) : bool :=
  match v with Some (JString _) => true | _ => false end.

Definition isArray (v : Value) : bool :=
  match v with Some (JArray _) => true | _ => false end.

(** [typeof id !== 'string' || id.length === 0] *)
Definition badId (id : Value) : bool :=
  match id with
  | Some (JString s) => Nat.eqb (String.length s) 0
  | _ => true
  end.

(** [typeof text !== 'string' || text.length === 0 || text.length > 10000] *)
Definition badText (text : Value) : bool :=
  match text with
  | Some (JString s) =>
      (Nat.eqb (String.length s) 0 || (10000 <? Z.of_nat (String.length s))%Z)%bool
  | _ => true
  end.

(** [typeof timestamp !== 'number' || timestamp <= 0 || !Number.isFinite(timestamp)] *)
Definition badTimestamp (timestamp : Value) : bool :=
  match timestamp with
  | Some (JNumber (Finite q)) => Qle_bool q 0
  | _ => true
  end.

(** [typeof t !== 'string' || t.length > 40] *)
Definition badTag (t : Json) : bool :=
  match t with
  | JString s => Nat.ltb 40 (String.length s)
  | _ => true
  end.

(** [!Array.isArray(tags) || tags.some(badTag)] *)
Definition badTags (tags : Value) : bool :=
  match tags with
  | Some (JArray items) => existsb badTag items
  | _ => true
  end.

Record Response := mkResponse { status : Z; ok : bool; error : option string }.

Definition reject (msg : string) : Response := mkResponse 400 false (Some msg).
Definition accepted : Response := mkResponse 200 true None.

(** The object written to the file for an accepted payload. *)
Definition storedEntry (body : Json) : Json :=
  let title := getField body "title" in
  let tags := getField body "tags" in
  JObject
    [ ("id", match getField body "id" with Some v => v | None => JNull end);
      ("text", match getField body "text" with Some v => v | None => JNull end);
      ("timestamp", match getField body "timestamp" with Some v => v | None => JNull end);
      ("title", match title with
                | Some v => if truthy title then v else JString ""
                | None => JString ""
                end);
      ("tags", match tags with
               | Some (JArray items) => JArray items
               | _ => JArray []
               end) ].

(** [POST] of the validating route, on the parsed request body and the
    [snaps] array of the file; it returns the response and the new array.
    (A body that is not JSON, or an unreadable file, raises inside the [try]
    and is answered 500 without a write; both are outside this model.) *)
Definition POST (body : Json) (snaps : list Json) : Response * list Json :=
  let id := getField body "id" in
  let text := getField body "text" in
  let timestamp := getField body "timestamp" in
  let title := getField body "title" in
  let tags := getField body "tags" in
  if (badId id || badText text || badTimestamp timestamp)%bool
  then (reject "Invalid payload", snaps)
  else if (truthy title && negb (isString title))%bool
  then (reject "Invalid title", snaps)
  else if (truthy tags && badTags tags)%bool
  then (reject "Invalid tags", snaps)
  else (accepted, firstn 100 (storedEntry body :: snaps)).

(** [POST] of the route in [app/api/history/route.ts], which stores the body
    as it comes. *)
Definition POST_unvalidated (body : Json) (snaps : list Json) : Response * list Json :=
  (accepted, firstn 100 (body :: snaps)).

End History.

(** * Specifications *)

(** What the wrap bound allows for a line of text or a blank-line entry: it
    is blank, it fits, or it is a single character wider than the target
    width. *)
Definition literalWithinBound (measureText : Z -> string -> string -> Q)
    (maxWidth : Q) (fontSize : Z) (fontFamily : string) (l : string) : Prop :=
  l = "" \/
  (measure measureText fontSize fontFamily l <= maxWidth)%Q \/
  (String.length l = 1%nat /\ (maxWidth < measure measureText fontSize fontFamily l)%Q).

(** What the wrap bound allows for an entry of the wrap result: a
    paragraph-break marker, or a line within the bound. *)
Definition lineWithinBound (measureText : Z -> string -> string -> Q)
    (maxWidth : Q) (fontSize : Z) (fontFamily : string) (l : string) : Prop :=
  l = PARA_BREAK \/ literalWithinBound measureText maxWidth fontSize fontFamily l.

(** What [currentLine] and [chunk] may hold between two steps of [wrapText]. *)
Definition pendingOk (measureText : Z -> string -> string -> Q)
    (maxWidth : Q) (fontSize : Z) (fontFamily : string) (l : string) : Prop :=
  l = "" \/ (measure measureText fontSize fontFamily l <= maxWidth)%Q \/
  String.length l = 1%nat.

(** The entries that one paragraph contributes to the wrap result: the body of
    the [forEach] callback run on an empty [allLines] at index 0. *)
Definition paragraphBlock (measureText : Z -> string -> string -> Q)
    (maxWidth : Q) (fontSize : Z) (fontFamily : string) (paragraph : string)
  : list string :=
  wrapParagraph measureText maxWidth fontSize fontFamily [] 0 paragraph.

(** Blocks of entries with one paragraph-break marker between consecutive
    blocks and none before the first. *)
Definition joinParagraphs (blocks : list (list string)) : list string :=
  match blocks with
  | [] => []
  | b :: bs => (b ++ flat_map (fun b' => PARA_BREAK :: b') bs)%list
  end.

(** Splitting a wrap result at the entries equal to the marker, the way
    [drawText] recognises them. *)
Fixpoint splitAtBreaks (ls : list string) : list (list string) :=
  match ls with
  | [] => [[]]
  | l :: rest =>
      if String.eqb l PARA_BREAK then [] :: splitAtBreaks rest
      else match splitAtBreaks rest with
           | [] => [[l]]
           | b :: bs => (l :: b) :: bs
           end
  end.

(** Paragraph preservation as the specification words it, splitting at the
    entries that equal the marker. *)
Definition paragraphsPreserved (measureText : Z -> string -> string -> Q)
    (maxWidth : Q) (fontSize : Z) (fontFamily : string) (text : string) : Prop :=
  let paragraphs := Js.split Js.newline text in
  let r := wrapText measureText maxWidth fontSize fontFamily text in
  (exists blocks,
      List.length blocks = List.length paragraphs
      /\ Forall (fun b => b <> []) blocks
      /\ lines r = joinParagraphs blocks)
  /\ paragraphCount r = List.length paragraphs
  /\ List.length (splitAtBreaks (lines r)) = List.length paragraphs.

(** The vertical advance of [drawText] over a list of entries: one line
    height per entry, half a line height per entry equal to the marker. *)
Definition drawAdvance (lineHeight : Q) (ls : list string) : Q :=
  fold_right
    (fun l acc =>
       ((if String.eqb l PARA_BREAK then lineHeight * (5 # 10) else lineHeight) + acc)%Q)
    0%Q ls.

(** The entries of a wrap result that [drawText] paints. *)
Definition paintedLines (ls : list string) : list string :=
  filter (fun l => negb (String.eqb l PARA_BREAK)) ls.

(** The text block height as the specification gives it: the entries other
    than break markers as full lines, plus half a line per paragraph gap. *)
Definition specTextHeight (w : WrapResult) (lineHeight : Q) : Q :=
  (inject_Z (Z.of_nat (List.length (paintedLines (lines w)))) * lineHeight
   + (inject_Z (Z.of_nat (paragraphCount w)) - 1) * lineHeight * (5 # 10))%Q.

(** Two paragraphs ["a"] and ["b"]. *)
Definition twoParagraphs : string := String "a" (String Js.newline (String "b" "")).

(** [{ ...opts, fontSize: n }] *)
Definition withFontSize (opts : ImageOptions) (n : Z) : ImageOptions :=
  {| format := format opts; quality := quality opts; width := width opts;
     height := height opts; scale := scale opts;
     backgroundColor := backgroundColor opts; textColor := textColor opts;
     fontFamily := fontFamily opts; fontSize := n; padding := padding opts;
     borderRadius := borderRadius opts; autoFit := autoFit opts;
     cardColor := cardColor opts |}.

(** [opts.width - 96 - opts.padding * 2], the target of the font-size search
    and the wrap width. *)
Definition textWidthOf (opts : ImageOptions) : Z := width opts - 96 - padding opts * 2.

(** A tags array as the specification wants it: strings of at most 40
    characters. *)
Definition tagsOk (items : list History.Json) : Prop :=
  Forall (fun t => exists s, t = History.JString s /\ (String.length s <= 40)%nat) items.

(** The three required fields, as the specification gives them. *)
Definition requiredFieldsOk (body : History.Json) : Prop :=
  (exists s, History.getField body "id" = Some (History.JString s) /\ s <> "")
  /\ (exists s, History.getField body "text" = Some (History.JString s)
                /\ 1 <= Z.of_nat (String.length s) <= 10000)
  /\ (exists q, History.getField body "timestamp" = Some (History.JNumber (History.Finite q))
                /\ (0 < q)%Q).

(** A payload the specification accepts: [title] and [tags] are checked
    whenever they are present. *)
Definition payloadAsSpecified (body : History.Json) : Prop :=
  requiredFieldsOk body
  /\ (forall v, History.getField body "title" = Some v -> exists s, v = History.JString s)
  /\ (forall v, History.getField body "tags" = Some v ->
                exists items, v = History.JArray items /\ tagsOk items).

(** A payload the handler accepts: [title] and [tags] are checked whenever
    they are truthy. *)
Definition payloadAccepted (body : History.Json) : Prop :=
  requiredFieldsOk body
  /\ (forall v, History.getField body "title" = Some v -> History.truthy (Some v) = true ->
                exists s, v = History.JString s)
  /\ (forall v, History.getField body "tags" = Some v -> History.truthy (Some v) = true ->
                exists items, v = History.JArray items /\ tagsOk items).

(** [{id: "a", text: "b", timestamp: 1, title: false}] *)
Definition falseTitlePayload : History.Json :=
  History.JObject
    [ ("id", History.JString "a"); ("text", History.JString "b");
      ("timestamp", History.JNumber (History.Finite 1));
      ("title", History.JBool false) ].

(** [s] mentions the character [c]. *)
Fixpoint hasChar (c : ascii) (s : string) : bool :=
  match s with
  | EmptyString => false
  | String d s' => (Ascii.eqb d c || hasChar c s')%bool
  end.

(** A font stack written as plain text interleaved with flat [var(...)]
    tokens: [renderItems [(b1, p1); ...]] is [var(b1)p1 var(b2)p2 ...]
    (without the blanks). *)
Fixpoint renderItems (items : list (string * string)) : string :=
  match items with
  | [] => EmptyString
  | (b, p) :: rest => "var(" ++ b ++ ")" ++ p ++ renderItems rest
  end.

Definition renderStack (p0 : string) (items : list (string * string)) : string :=
  p0 ++ renderItems items.

(** The parentheses of the stack are those of its tokens: no token body holds
    a parenthesis and no plain part an opening one. *)
Definition flatItems (items : list (string * string)) : Prop :=
  Forall (fun it => hasChar "(" (fst it) = false /\ hasChar ")" (fst it) = false
                    /\ hasChar "(" (snd it) = false) items.

Definition flatStack (p0 : string) (items : list (string * string)) : Prop :=
  hasChar "(" p0 = false /\ flatItems items.

(** [m] occurs in [s]. *)
Definition Contains (m s : string) : Prop := exists a b, s = a ++ m ++ b.

(** The effect of substituting the token of [k] on the items of a stack: the
    plain text produced in front, and the items left. *)
Fixpoint substItems (k : KnownFont) (items : list (string * string))
  : string * list (string * string) :=
  match items with
  | [] => (EmptyString, [])
  | (b, p) :: rest =>
      let '(q, its) := substItems k rest in
      if String.eqb b (tokenBody k) then (quoted (familyName k) ++ p ++ q, its)
      else (EmptyString, (b, p ++ q) :: its)
  end.

(** What [\s*,?] removes at the start of [s]. *)
Definition dropSep (s : string) : string :=
  match Js.trimStart s with
  | String c r => if Ascii.eqb c ","%char then r else String c r
  | EmptyString => EmptyString
  end.

(** The last character of a non-empty string is not white space. *)
Fixpoint endsNonWs (s : string) : bool :=
  match s with
  | EmptyString => false
  | String c EmptyString => negb (Js.isWhiteSpace c)
  | String _ s' => endsNonWs s'
  end.

(** A substring that the comma collapse and the trim leave intact: it starts
    and ends with a character that is neither white space nor a comma, and
    holds no comma. *)
Definition protected (m : string) : Prop :=
  (exists c r, m = String c r /\ Js.isWhiteSpace c = false /\ c <> ","%char)
  /\ endsNonWs m = true
  /\ hasChar "," m = false.

(** A matcher that only matches at the start of a [var(...)] token. *)
Definition anchored (m : string -> option nat) : Prop :=
  forall u, m u <> None -> exists z, u = "var(" ++ z.

(** The text that follows a plain part in a stack: nothing, or a token. *)
Definition tokenAhead (t : string) : Prop := t = "" \/ exists z, t = String "v" z.

(** [m] occurs in a plain part of the stack. *)
Definition plainHas (m p0 : string) (items : list (string * string)) : Prop :=
  Contains m p0 \/ Exists (fun it => Contains m (snd it)) items.

(** Length of what [\s*,?] matches at the start of [s]. *)
Definition sepLen (s : string) : nat :=
  (Regex.wsLen s
   + match Regex.dropStr (Regex.wsLen s) s with
     | String ch _ => if Ascii.eqb ch ","%char then 1 else 0
     | EmptyString => 0
     end)%nat.

(** The stack once its tokens and their separators are removed. *)
Fixpoint strippedItems (items : list (string * string)) : string :=
  match items with
  | [] => EmptyString
  | (_, p) :: rest => dropSep p ++ strippedItems rest
  end.

(** ** Further specifications of the renderer *)

(** [s] without its space characters. *)
Fixpoint nonSpaces (s : string) : string :=
  match s with
  | EmptyString => EmptyString
  | String c s' => if Ascii.eqb c Js.space then nonSpaces s' else String c (nonSpaces s')
  end.

(** [s] without its leading space characters. *)
Fixpoint dropLeadingSpaces (s : string) : string :=
  match s with
  | EmptyString => EmptyString
  | String c s' => if Ascii.eqb c Js.space then dropLeadingSpaces s' else s
  end.

(** The entries of a wrap result put end to end. *)
Definition concatLines (ls : list string) : string := String.concat "" ls.

(** Successive [fillText] calls are at least [gap] apart, top to bottom. *)
Fixpoint spacedBy (gap : Q) (cs : list FillText) : Prop :=
  match cs with
  | [] => True
  | c :: rest =>
      match rest with
      | [] => True
      | c' :: _ => (fillY c + gap <= fillY c')%Q
      end /\ spacedBy gap rest
  end.

(** The [fillText] calls of [drawText] over the entries [ls], the cursor
    being at [y]. *)
Fixpoint paintFrom (fx lineHeight : Q) (ls : list string) (y : Q) : list FillText :=
  match ls with
  | [] => []
  | l :: rest =>
      if String.eqb l PARA_BREAK then paintFrom fx lineHeight rest (y + lineHeight * (5 # 10))%Q
      else mkFill l fx y :: paintFrom fx lineHeight rest (y + lineHeight)%Q
  end.

(** ** The history route over a sequence of requests *)

(** The [snaps] array of the file after the [POST]s of [bodies], in order. *)
Definition postAll (bodies : list History.Json) (snaps : list History.Json)
  : list History.Json :=
  fold_left (fun stored body => snd (History.POST body stored)) bodies snaps.

(** The answer of the validating route to [body] is [{ ok: true }]. *)
Definition answeredOk (body : History.Json) : bool :=
  History.ok (fst (History.POST body [])).

(** ** The browser-side store of [lib/storage.ts] *)

Module Storage.

(** [SavedSnap]; an optional field that is absent is [None].  [timestamp]
    holds integers ([Date.now()]). *)
Record SavedSnap := mkSnap {
  id : string;
  text : string;
  timestamp : Z;
  title : option string;
  tags : option (list string)
}.

Definition MAX_SNAPS : nat := 100.

(** What [localStorage] holds under [STORAGE_KEY]: nothing (or the empty
    string), a string that [JSON.parse] rejects, or the serialization of an
    array of snaps, which is all the class ever writes. *)
Inductive Cell := Absent | Corrupt | Stored (snaps : list SavedSnap).

(** [SnapStorage.getSnaps()] *)
Definition getSnaps (c : Cell) : list SavedSnap :=
  match c with
  | Stored snaps => snaps
  | Absent | Corrupt => []
  end.

(** [n.toString()] for an integer [n] (below 10^21 in absolute value, where
    JavaScript prints all the digits). *)
Definition numberToString (n : Z) : string := NilZero.string_of_int (Z.to_int n).

(** [generateTitle(text)] *)
Definition generateTitle (text : string) : string :=
  let firstLine := Js.trim (hd "" (Js.split Js.newline text)) in
  let words := firstn 6 (Js.split Js.space firstLine) in
  String.concat " " words
  ++ (if Nat.ltb 6 (List.length (Js.split Js.space firstLine)) then "..." else "").

(** The object literal [newSnap] of [saveSnap]; [now1] and [now2] are the two
    readings of [Date.now()]. *)
Definition newSnapOf (now1 now2 : Z) (text : string) (title : option string)
    (tags : option (list string)) : SavedSnap :=
  {| id := numberToString now1;
     text := Js.trim text;
     timestamp := now2;
     title := Some (match title with
                    | Some t => if Js.truthy t then t else generateTitle text
                    | None => generateTitle text
                    end);
     tags := Some (match tags with Some l => l | None => [] end) |}.

(** [Partial<SavedSnap>]: a field is absent ([None]) or present. *)
Record Updates := mkUpdates {
  uId : option string;
  uText : option string;
  uTimestamp : option Z;
  uTitle : option (option string);
  uTags : option (option (list string))
}.

(** [{ ...snap, ...updates }] *)
Definition merge (snap : SavedSnap) (u : Updates) : SavedSnap :=
  {| id := match uId u with Some v => v | None => id snap end;
     text := match uText u with Some v => v | None => text snap end;
     timestamp := match uTimestamp u with Some v => v | None => timestamp snap end;
     title := match uTitle u with Some v => v | None => title snap end;
     tags := match uTags u with Some v => v | None => tags snap end |}.

(** [arr.findIndex(p)]; [None] is [-1]. *)
Fixpoint findIndex {A : Type} (p : A -> bool) (arr : list A) : option nat :=
  match arr with
  | [] => None
  | x :: rest => if p x then Some O else option_map S (findIndex p rest)
  end.

(** [arr[index] = x] for an index within the array. *)
Fixpoint setAt {A : Type} (index : nat) (x : A) (arr : list A) : list A :=
  match arr, index with
  | [], _ => []
  | _ :: rest, O => x :: rest
  | y :: rest, S k => y :: setAt k x rest
  end.

(** [arr.sort((a, b) => b.timestamp - a.timestamp)]: the sort is stable, so
    among equal timestamps the order of the array is kept. *)
Fixpoint insertNewest (x : SavedSnap) (sorted : list SavedSnap) : list SavedSnap :=
  match sorted with
  | [] => [x]
  | y :: rest =>
      if (timestamp x <? timestamp y)%Z then y :: insertNewest x rest
      else x :: y :: rest
  end.

Fixpoint sortNewestFirst (arr : list SavedSnap) : list SavedSnap :=
  match arr with
  | [] => []
  | x :: rest => insertNewest x (sortNewestFirst rest)
  end.

(** The value of [JSON.parse(jsonData)] as [importData] looks at it: the
    parse fails, [data.snaps] is not an array, or it is an array of snaps. *)
Inductive ImportFile := Unparsable | NoSnapsArray | Snaps (snaps : list SavedSnap).

Record ImportResult := mkImport { success : bool; message : string; imported : nat }.

(** The body sent by [persistToServer]: [JSON.stringify(snap)] as
    [request.json()] reads it back; an absent field is left out. *)
Definition snapBody (snap : SavedSnap) : History.Json :=
  History.JObject
    ([ ("id", History.JString (id snap));
       ("text", History.JString (text snap));
       ("timestamp", History.JNumber (History.Finite (inject_Z (timestamp snap)))) ]
     ++ match title snap with
        | Some t => [("title", History.JString t)]
        | None => []
        end
     ++ match tags snap with
        | Some l => [("tags", History.JArray (map History.JString l))]
        | None => []
        end)%list.

Section Quota.

(** [localStorage.setItem] throws when the quota is exceeded; [fitsQuota]
    tells whether the serialization of an array fits. *)
Variable fitsQuota : list SavedSnap -> bool.

(** [localStorage.setItem(STORAGE_KEY, JSON.stringify(snaps))]; [None] when
    it throws. *)
Definition setItem (snaps : list SavedSnap) : option Cell :=
  if fitsQuota snaps then Some (Stored snaps) else None.

(** [SnapStorage.saveSnap(text, title, tags)]: the cell afterwards and the
    snap returned, [None] when the second [setItem] throws too. *)
Definition saveSnap (now1 now2 : Z) (text : string) (title : option string)
    (tags : option (list string)) (c : Cell) : Cell * option SavedSnap :=
  let snaps := getSnaps c in
  let newSnap := newSnapOf now1 now2 text title tags in
  let updatedSnaps := firstn MAX_SNAPS (newSnap :: snaps) in
  match setItem updatedSnaps with
  | Some c' => (c', Some newSnap)
  | None =>
      let reducedSnaps := firstn (MAX_SNAPS / 2) updatedSnaps in
      match setItem reducedSnaps with
      | Some c' => (c', Some newSnap)
      | None => (c, None)
      end
  end.

(** [SnapStorage.updateSnap(id, updates)]; the result is [None] when
    [setItem] throws. *)
Definition updateSnap (snapId : string) (updates : Updates) (c : Cell)
  : Cell * option bool :=
  let snaps := getSnaps c in
  match findIndex (fun snap => String.eqb (id snap) snapId) snaps with
  | None => (c, Some false)
  | Some index =>
      let snaps' := setAt index (merge (nth index snaps (mkSnap "" "" 0 None None)) updates)
                      snaps in
      match setItem snaps' with
      | Some c' => (c', Some true)
      | None => (c, None)
      end
  end.

(** [SnapStorage.deleteSnap(id)] *)
Definition deleteSnap (snapId : string) (c : Cell) : Cell * option bool :=
  let snaps := getSnaps c in
  let filtered := filter (fun snap => negb (String.eqb (id snap) snapId)) snaps in
  if Nat.eqb (List.length filtered) (List.length snaps) then (c, Some false)
  else match setItem filtered with
       | Some c' => (c', Some true)
       | None => (c, None)
       end.

(** [SnapStorage.importData(jsonData)]; a [setItem] that throws is caught by
    the same [catch] as a parse error. *)
Definition importData (file : ImportFile) (c : Cell) : Cell * ImportResult :=
  match file with
  | Unparsable => (c, mkImport false "Failed to parse import data" 0)
  | NoSnapsArray => (c, mkImport false "Invalid data format" 0)
  | Snaps incoming =>
      let existingSnaps := getSnaps c in
      let newSnaps :=
        filter (fun snap =>
                  negb (existsb (fun e => String.eqb (id e) (id snap)) existingSnaps))
               incoming in
      if Nat.eqb (List.length newSnaps) 0
      then (c, mkImport false "No new snaps to import" 0)
      else
        let mergedSnaps :=
          firstn MAX_SNAPS (sortNewestFirst (existingSnaps ++ newSnaps)%list) in
        match setItem mergedSnaps with
        | Some c' =>
            (c', mkImport true
                   ("Successfully imported "
                    ++ numberToString (Z.of_nat (List.length newSnaps)) ++ " snaps")
                   (List.length newSnaps))
        | None => (c, mkImport false "Failed to parse import data" 0)
        end
  end.

End Quota.

End Storage.

(** ** The favourite toggle of the history panel *)


(** [a] is no older than [b]. *)
Definition newerOrSame (a b : Storage.SavedSnap) : Prop :=
  Storage.timestamp b <= Storage.timestamp a.

(** An array of snaps goes from the newest to the oldest. *)
Definition newestFirst (snaps : list Storage.SavedSnap) : Prop :=
  StronglySorted newerOrSame snaps.

(** The test [(snap) => snap.id !== id] of [deleteSnap]. *)
Definition otherId (snapId : string) (snap : Storage.SavedSnap) : bool :=
  negb (String.eqb (Storage.id snap) snapId).

(** The snaps of an import file whose id the store does not hold yet. *)
Definition freshSnaps (incoming existing : list Storage.SavedSnap)
  : list Storage.SavedSnap :=
  filter (fun snap =>
            negb (existsb (fun e => String.eqb (Storage.id e) (Storage.id snap)) existing))
         incoming.



(** ** The earlier renderer of [lib/image-generator.ts] *)

Module Legacy.

Section Renderer.

Variable measureText : Z -> string -> string -> Q.
Variable maxWidth : Q.
Variable fontSize : Z.
Variable fontFamily : string.

(** The callback of [words.forEach], on [(lines, currentLine)]. *)
Definition wordStep (st : list string * string) (word : string) : list string * string :=
  let '(lines, currentLine) := st in
  let testLine := currentLine ++ (if Js.truthy currentLine then " " else "") ++ word in
  if (Js.gtb (measure measureText fontSize fontFamily testLine) maxWidth
      && Js.truthy currentLine)%bool
  then (Js.push lines currentLine, word)
  else (lines, testLine).

(** The array [lines] of one paragraph that is not blank. *)
Definition paragraphLines (paragraph : string) : list string :=
  let '(lines, currentLine) :=
    fold_left wordStep (Js.split Js.space paragraph) ([], "") in
  if Js.truthy currentLine then Js.push lines currentLine else lines.

(** The callback of [lines.forEach]. *)
Definition paintLine (x lineHeight : Q) (d : Drawn) (line : string) : Drawn :=
  mkDrawn (Js.push (calls d) (mkFill line x (currentY d))) (currentY d + lineHeight)%Q.

(** The callback of [paragraphs.forEach]. *)
Definition drawParagraph (x lineHeight : Q) (d : Drawn) (paragraphIndex : nat)
    (paragraph : string) : Drawn :=
  let d1 := if Nat.ltb 0 paragraphIndex
            then mkDrawn (calls d) (currentY d + lineHeight * (5 # 10))%Q
            else d in
  if String.eqb (Js.trim paragraph) "" then mkDrawn (calls d1) (currentY d1 + lineHeight)%Q
  else fold_left (paintLine x lineHeight) (paragraphLines paragraph) d1.

Fixpoint forEachParagraph (x lineHeight : Q) (ps : list string) (idx : nat) (d : Drawn)
  : Drawn :=
  match ps with
  | [] => d
  | p :: ps' => forEachParagraph x lineHeight ps' (S idx) (drawParagraph x lineHeight d idx p)
  end.

(** [drawText(text, x, y, maxWidth, options)] of the earlier renderer. *)
Definition drawText (text : string) (x y : Q) : Drawn :=
  forEachParagraph x (lineHeightOf fontSize) (Js.split Js.newline text) 0 (mkDrawn [] y).

End Renderer.

End Legacy.

(** A [fillText] call that paints something. *)
Definition paintsText (c : FillText) : bool := Js.truthy (fillLine c).

(** ** The font-size search of the editor page *)

Module Page.

(** [Math.ceil(n / d)] on integers, for a positive [d]. *)
Definition ceilDiv (n d : Z) : Z := (- ((- n) / d))%Z.

Definition SIZE_OPTIONS : list (string * Z) :=
  [ ("12", 12); ("14", 14); ("16", 16); ("18", 18);
    ("20", 20); ("24", 24); ("28", 28); ("32", 32) ]%Z.

Definition DEFAULT_FONT_SIZE : Z := 16.

(** [SIZE_OPTIONS.find((s) => s.id === selectedSizeId)?.px || DEFAULT_FONT_SIZE] *)
Definition userMaxOf (selectedSizeId : string) : Z :=
  match find (fun s => String.eqb (fst s) selectedSizeId) SIZE_OPTIONS with
  | Some (_, px) => if (px =? 0)%Z then DEFAULT_FONT_SIZE else px
  | None => DEFAULT_FONT_SIZE
  end.

(** The initial [hi] of the search, from the selected size and
    [cardEl.clientHeight]. *)
Definition searchCeiling (selectedSizeId : string) (clientHeight : Z) : Z :=
  let available := Z.max 0 clientHeight in
  let innerAvailable := Z.max 0 (available - 56) in
  Z.max (userMaxOf selectedSizeId) (Z.min 96 (ceilDiv innerAvailable 8)).

Section Search.

(** [fits(px)]: whether the text area, laid out at [px], is no taller than
    the room available. *)
Variable fits : Z -> bool.

(** The [while (lo < hi)] loop; [fuel] bounds the number of tests of its
    condition. *)
Fixpoint searchLoop (fuel : nat) (lo hi : Z) : option Z :=
  match fuel with
  | O => None
  | S k =>
      if (lo <? hi)%Z then
        let mid := ceilDiv (lo + hi + 1) 2 in
        if fits mid then searchLoop k mid hi else searchLoop k lo (mid - 1)%Z
      else Some lo
  end.

(** [chosen] of [computeContentHeight], the size the text area is left at. *)
Definition chosenFontSize (selectedSizeId : string) (clientHeight : Z) : option Z :=
  let hi := searchCeiling selectedSizeId clientHeight in
  match searchLoop (S (Z.to_nat (hi - 10))) 10 hi with
  | Some lo => Some (Z.min lo 96)
  | None => None
  end.

End Search.

End Page.

(** * Proofs *)

(** ** Numbers and strings *)

Lemma gtb_true (a b : Q) : Js.gtb a b = true -> (b < a)%Q.
Proof.
  unfold Js.gtb. intros H. apply negb_true_iff in H.
  apply Qnot_le_lt. intros Hle. apply Qle_bool_iff in Hle. congruence.
Qed.

Lemma gtb_false (a b : Q) : Js.gtb a b = false -> (a <= b)%Q.
Proof.
  unfold Js.gtb. intros H. apply negb_false_iff in H. now apply Qle_bool_iff.
Qed.

Lemma ltb_true (a b : Q) : Js.ltb a b = true -> (a < b)%Q.
Proof. unfold Js.ltb. intros H. now apply (gtb_true b a). Qed.

Lemma ltb_false (a b : Q) : Js.ltb a b = false -> (b <= a)%Q.
Proof. unfold Js.ltb. intros H. now apply (gtb_false b a). Qed.

Lemma truthy_true (s : string) : Js.truthy s = true <-> s <> "".
Proof.
  unfold Js.truthy. rewrite negb_true_iff. apply String.eqb_neq.
Qed.

Lemma truthy_false (s : string) : Js.truthy s = false <-> s = "".
Proof.
  unfold Js.truthy. rewrite negb_false_iff. apply String.eqb_eq.
Qed.

Lemma Forall_push {A : Type} (P : A -> Prop) (l : list A) (x : A) :
  Forall P l -> P x -> Forall P (Js.push l x).
Proof.
  intros Hl Hx. unfold Js.push. apply Forall_app. split; [assumption|].
  constructor; [assumption | constructor].
Qed.

(** ** The wrap bound *)

Section WrapBound.

Variable measureText : Z -> string -> string -> Q.
Variable maxWidth : Q.
Variable fontSize : Z.
Variable fontFamily : string.

Let Within := literalWithinBound measureText maxWidth fontSize fontFamily.
Let Pending := pendingOk measureText maxWidth fontSize fontFamily.

Lemma pending_within (l : string) : Pending l -> Within l.
Proof.
  unfold Pending, Within, pendingOk, literalWithinBound.
  intros [H | [H | H]].
  - left; assumption.
  - right; left; assumption.
  - destruct (Qlt_le_dec maxWidth (measure measureText fontSize fontFamily l)) as [Hlt | Hle].
    + right; right. split; assumption.
    + right; left; assumption.
Qed.

Lemma pushLine_within (st : wrapState) :
  Forall Within (allLines st) -> Pending (currentLine st) ->
  Forall Within (allLines (pushLine st)) /\ currentLine (pushLine st) = "".
Proof.
  intros Hal Hcur. unfold pushLine.
  destruct (negb (Nat.eqb (String.length (currentLine st)) 0)
            || Nat.eqb (List.length (allLines st)) 0
            || negb (String.eqb (last (allLines st) "x") ""))%bool; simpl.
  - split; [|reflexivity]. apply Forall_push; [assumption|].
    now apply pending_within.
  - split; [assumption | reflexivity].
Qed.

Lemma splitChars_within (word : string) :
  forall al chunk,
    Forall Within al -> Pending chunk ->
    Forall Within (fst (splitChars measureText maxWidth fontSize fontFamily word al chunk))
    /\ Pending (snd (splitChars measureText maxWidth fontSize fontFamily word al chunk)).
Proof.
  induction word as [|ch rest IH]; intros al chunk Hal Hchunk; simpl.
  - split; assumption.
  - destruct (Js.gtb (measure measureText fontSize fontFamily (chunk ++ String ch "")) maxWidth)
      eqn:Hgt.
    + destruct (Nat.eqb (String.length chunk) 0) eqn:Hlen.
      * apply IH; [|assumption].
        apply Forall_push; [assumption|].
        apply pending_within. right; right. reflexivity.
      * apply IH.
        -- apply Forall_push; [assumption|]. now apply pending_within.
        -- right; right. reflexivity.
    + apply IH; [assumption|].
      right; left. now apply gtb_false.
Qed.

Lemma splitLongWord_within (word : string) (st : wrapState) :
  Forall Within (allLines st) -> Pending (currentLine st) ->
  Forall Within (allLines (splitLongWord measureText maxWidth fontSize fontFamily word st))
  /\ Pending (currentLine (splitLongWord measureText maxWidth fontSize fontFamily word st)).
Proof.
  intros Hal Hcur. unfold splitLongWord.
  pose proof (splitChars_within word (allLines st) "" Hal (or_introl eq_refl)) as [Hal' Hchunk].
  destruct (splitChars measureText maxWidth fontSize fontFamily word (allLines st) "")
    as [al chunk]; simpl in *.
  destruct (Js.truthy chunk); [|split; assumption].
  destruct (Js.truthy (currentLine st)).
  - destruct (Qle_bool _ maxWidth) eqn:Hfit; simpl.
    + split; [assumption|]. right; left. now apply Qle_bool_iff.
    + split; [|assumption].
      apply (pushLine_within (mkState al (currentLine st))); assumption.
  - split; assumption.
Qed.

Lemma wordStep_within (st : wrapState) (word : string) :
  Forall Within (allLines st) -> Pending (currentLine st) ->
  Forall Within (allLines (wordStep measureText maxWidth fontSize fontFamily st word))
  /\ Pending (currentLine (wordStep measureText maxWidth fontSize fontFamily st word)).
Proof.
  intros Hal Hcur. unfold wordStep.
  destruct (Qle_bool _ maxWidth) eqn:Hfit; simpl.
  - split; [assumption|]. right; left. now apply Qle_bool_iff.
  - assert (Hst1 : Forall Within
                     (allLines (if Js.truthy (currentLine st) then pushLine st else st))
                   /\ Pending (currentLine (if Js.truthy (currentLine st) then pushLine st else st))).
    { destruct (Js.truthy (currentLine st)).
      - destruct (pushLine_within st Hal Hcur) as [H1 H2].
        split; [assumption|]. rewrite H2. left; reflexivity.
      - split; assumption. }
    destruct Hst1 as [Hal1 Hcur1].
    destruct (Qle_bool (measure measureText fontSize fontFamily word) maxWidth) eqn:Hw; simpl.
    + split; [assumption|]. right; left. now apply Qle_bool_iff.
    + now apply splitLongWord_within.
Qed.

Lemma words_within (words : list string) :
  forall st,
    Forall Within (allLines st) -> Pending (currentLine st) ->
    Forall Within
      (allLines (fold_left (wordStep measureText maxWidth fontSize fontFamily) words st))
    /\ Pending
      (currentLine (fold_left (wordStep measureText maxWidth fontSize fontFamily) words st)).
Proof.
  induction words as [|w ws IH]; intros st Hal Hcur; simpl.
  - split; assumption.
  - destruct (wordStep_within st w Hal Hcur) as [H1 H2]. now apply IH.
Qed.

(** The entries of the block of a paragraph are within the bound. *)
Lemma paragraphBlock_within (p : string) :
  Forall Within (paragraphBlock measureText maxWidth fontSize fontFamily p).
Proof.
  unfold paragraphBlock, wrapParagraph. cbn [Nat.ltb Nat.leb].
  destruct (String.eqb (Js.trim p) "").
  - apply Forall_push; [constructor|]. left; reflexivity.
  - destruct (words_within (Js.split Js.space p) (mkState [] "") (Forall_nil _)
                (or_introl eq_refl)) as [H1 H2].
    destruct (Js.truthy _); [|assumption].
    now apply pushLine_within.
Qed.

End WrapBound.

(** ** The paragraph structure of the wrap result *)

Lemma append_empty_l (s t : string) : s ++ t = "" -> s = "".
Proof. destruct s; simpl; [reflexivity | discriminate]. Qed.

Lemma append_empty_r (s t : string) : s ++ t = "" -> t = "".
Proof. destruct s; simpl; [auto | discriminate]. Qed.

Lemma push_not_nil {A : Type} (l : list A) (x : A) : Js.push l x <> [].
Proof. unfold Js.push. destruct l; discriminate. Qed.

Lemma push_app {A : Type} (l1 l2 : list A) (x : A) :
  Js.push (l1 ++ l2)%list x = (l1 ++ Js.push l2 x)%list.
Proof. unfold Js.push. now rewrite app_assoc. Qed.

Lemma split_all_empty (sep : ascii) (s : string) :
  (forall w, In w (Js.split sep s) -> w = "") ->
  forall c, In c (list_ascii_of_string s) -> c = sep.
Proof.
  induction s as [|c s IH]; simpl; intros Hall d Hd; [contradiction|].
  destruct (Ascii.eqb c sep) eqn:Hc.
  - apply Ascii.eqb_eq in Hc. destruct Hd as [Hd | Hd]; [congruence|].
    apply IH; [|assumption]. intros w Hw. apply Hall. right; assumption.
  - exfalso. destruct (Js.split sep s) as [|w ws].
    + specialize (Hall (String c "") (or_introl eq_refl)). discriminate.
    + specialize (Hall (String c w) (or_introl eq_refl)). discriminate.
Qed.

Lemma trimStart_all_ws (s : string) :
  (forall c, In c (list_ascii_of_string s) -> Js.isWhiteSpace c = true) ->
  Js.trimStart s = "".
Proof.
  induction s as [|c s IH]; simpl; intros Hall; [reflexivity|].
  rewrite (Hall c (or_introl eq_refl)). apply IH. intros d Hd. apply Hall. now right.
Qed.

Lemma nonblank_has_word (p : string) :
  Js.trim p <> "" -> exists w, In w (Js.split Js.space p) /\ w <> "".
Proof.
  intros Htrim.
  destruct (Forall_Exists_dec (fun w => w = "") (fun w => string_dec w "")
              (Js.split Js.space p)) as [Hall | Hex].
  - exfalso. apply Htrim. unfold Js.trim.
    rewrite trimStart_all_ws; [reflexivity|].
    intros c Hc. rewrite Forall_forall in Hall.
    rewrite (split_all_empty Js.space p Hall c Hc). reflexivity.
  - apply Exists_exists in Hex. destruct Hex as [w [Hin Hw]]. now exists w.
Qed.

Section WrapStructure.

Variable measureText : Z -> string -> string -> Q.
Variable maxWidth : Q.
Variable fontSize : Z.
Variable fontFamily : string.

Let splitChars' := splitChars measureText maxWidth fontSize fontFamily.
Let splitLongWord' := splitLongWord measureText maxWidth fontSize fontFamily.
Let wordStep' := wordStep measureText maxWidth fontSize fontFamily.
Let wrapParagraph' := wrapParagraph measureText maxWidth fontSize fontFamily.
Let block := paragraphBlock measureText maxWidth fontSize fontFamily.

(** [pushLine] is only ever called on a non-empty [currentLine], and then it
    pushes. *)
Lemma pushLine_truthy (st : wrapState) :
  Js.truthy (currentLine st) = true ->
  pushLine st = mkState (Js.push (allLines st) (currentLine st)) "".
Proof.
  intros H. unfold pushLine.
  destruct (currentLine st) as [|c cur]; [discriminate|]. reflexivity.
Qed.

Lemma splitChars_prefix (pre : list string) (word : string) :
  forall al chunk,
    splitChars' word (pre ++ al)%list chunk
    = ((pre ++ fst (splitChars' word al chunk))%list, snd (splitChars' word al chunk)).
Proof.
  unfold splitChars'.
  induction word as [|ch rest IH]; intros al chunk; simpl; [reflexivity|].
  destruct (Js.gtb _ maxWidth).
  - destruct (Nat.eqb (String.length chunk) 0); rewrite push_app; apply IH.
  - apply IH.
Qed.

Lemma splitLongWord_prefix (pre al : list string) (cur word : string) :
  splitLongWord' word (mkState (pre ++ al)%list cur)
  = mkState (pre ++ allLines (splitLongWord' word (mkState al cur)))%list
            (currentLine (splitLongWord' word (mkState al cur))).
Proof.
  unfold splitLongWord', splitLongWord; simpl.
  pose proof (splitChars_prefix pre word al "") as H. unfold splitChars' in H.
  rewrite H.
  destruct (splitChars measureText maxWidth fontSize fontFamily word al "") as [al' chunk];
    simpl.
  destruct (Js.truthy chunk); [|reflexivity].
  destruct (Js.truthy cur) eqn:Hcur; [|reflexivity].
  destruct (Qle_bool _ maxWidth); [reflexivity|].
  rewrite !pushLine_truthy by exact Hcur. simpl. now rewrite push_app.
Qed.

Lemma wordStep_prefix (pre al : list string) (cur word : string) :
  wordStep' (mkState (pre ++ al)%list cur) word
  = mkState (pre ++ allLines (wordStep' (mkState al cur) word))%list
            (currentLine (wordStep' (mkState al cur) word)).
Proof.
  unfold wordStep', wordStep; simpl.
  destruct (Qle_bool _ maxWidth); [reflexivity|].
  destruct (Js.truthy cur) eqn:Hcur.
  - rewrite !pushLine_truthy by exact Hcur. simpl. rewrite push_app.
    destruct (Qle_bool _ maxWidth); [reflexivity|].
    apply splitLongWord_prefix.
  - destruct (Qle_bool _ maxWidth); [reflexivity|].
    apply splitLongWord_prefix.
Qed.

Lemma words_prefix (pre : list string) (words : list string) :
  forall al cur,
    fold_left wordStep' words (mkState (pre ++ al)%list cur)
    = mkState (pre ++ allLines (fold_left wordStep' words (mkState al cur)))%list
              (currentLine (fold_left wordStep' words (mkState al cur))).
Proof.
  induction words as [|w ws IH]; intros al cur; simpl; [reflexivity|].
  rewrite wordStep_prefix.
  destruct (wordStep' (mkState al cur) w) as [al' cur']. simpl. apply IH.
Qed.

(** The callback appends to [allLines] the marker (after the first
    paragraph) and then the block of the paragraph, whatever [allLines]
    holds. *)
Lemma wrapParagraph_block (al : list string) (idx : nat) (p : string) :
  wrapParagraph' al idx p
  = ((if Nat.ltb 0 idx then Js.push al PARA_BREAK else al) ++ block p)%list.
Proof.
  unfold wrapParagraph', block, paragraphBlock, wrapParagraph. simpl.
  set (al1 := if Nat.ltb 0 idx then Js.push al PARA_BREAK else al).
  destruct (String.eqb (Js.trim p) ""); [reflexivity|].
  pose proof (words_prefix al1 (Js.split Js.space p) [] "") as H.
  rewrite app_nil_r in H. unfold wordStep' in H. rewrite H. simpl.
  destruct (fold_left _ (Js.split Js.space p) (mkState [] "")) as [al' cur']. simpl.
  destruct (Js.truthy cur') eqn:Hcur; [|reflexivity].
  rewrite !pushLine_truthy by exact Hcur. simpl. now rewrite push_app.
Qed.

Lemma forEachParagraph_blocks (ps : list string) :
  forall idx al,
    forEachParagraph measureText maxWidth fontSize fontFamily ps (S idx) al
    = (al ++ flat_map (fun b' => PARA_BREAK :: b') (map block ps))%list.
Proof.
  induction ps as [|p ps IH]; intros idx al; simpl.
  - now rewrite app_nil_r.
  - rewrite IH. fold wrapParagraph'. rewrite wrapParagraph_block. simpl.
    unfold Js.push. rewrite <- !app_assoc. reflexivity.
Qed.

Lemma wrapText_blocks (text : string) :
  lines (wrapText measureText maxWidth fontSize fontFamily text)
  = joinParagraphs (map block (Js.split Js.newline text)).
Proof.
  unfold wrapText. simpl.
  destruct (Js.split Js.newline text) as [|p ps]; [reflexivity|].
  simpl. rewrite forEachParagraph_blocks. fold wrapParagraph'.
  rewrite wrapParagraph_block. reflexivity.
Qed.

(** Progress of the word loop: something was pushed or is pending. *)
Let progressed (st : wrapState) : Prop := allLines st <> [] \/ currentLine st <> "".

Lemma splitChars_progress (word : string) :
  forall al chunk,
    (word <> "" \/ al <> [] \/ chunk <> "") ->
    fst (splitChars' word al chunk) <> [] \/ snd (splitChars' word al chunk) <> "".
Proof.
  unfold splitChars'.
  induction word as [|ch rest IH]; intros al chunk H; simpl.
  - destruct H as [H | H]; [contradiction | assumption].
  - destruct (Js.gtb _ maxWidth).
    + destruct (Nat.eqb (String.length chunk) 0); apply IH; right; left; apply push_not_nil.
    + apply IH. right; right. intros Heq. apply append_empty_r in Heq. discriminate.
Qed.

Lemma splitLongWord_progress (word : string) (st : wrapState) :
  (word <> "" \/ allLines st <> []) -> progressed (splitLongWord' word st).
Proof.
  intros H. unfold progressed, splitLongWord', splitLongWord.
  pose proof (splitChars_progress word (allLines st) "") as Hp. unfold splitChars' in Hp.
  destruct (splitChars measureText maxWidth fontSize fontFamily word (allLines st) "")
    as [al chunk]; simpl in *.
  destruct (Js.truthy chunk) eqn:Hchunk.
  - apply truthy_true in Hchunk.
    destruct (Js.truthy (currentLine st)).
    + destruct (Qle_bool _ maxWidth); simpl; right; [|assumption].
      intros Heq. apply append_empty_r in Heq. discriminate.
    + simpl. right; assumption.
  - apply truthy_false in Hchunk. simpl.
    destruct Hp as [Hp | Hp]; [tauto | now left | contradiction].
Qed.

Lemma wordStep_progress (st : wrapState) (word : string) :
  (word <> "" \/ progressed st) -> progressed (wordStep' st word).
Proof.
  intros H. unfold wordStep', wordStep.
  destruct (Qle_bool _ maxWidth); simpl.
  - unfold progressed in *. simpl.
    destruct H as [H | [H | H]].
    + right. intros Heq. apply append_empty_r in Heq. apply append_empty_r in Heq.
      contradiction.
    + now left.
    + right. intros Heq. apply append_empty_l in Heq. contradiction.
  - set (st1 := if Js.truthy (currentLine st) then pushLine st else st).
    assert (H1 : word <> "" \/ allLines st1 <> []).
    { unfold st1. destruct (Js.truthy (currentLine st)) eqn:Hcur.
      - right. rewrite pushLine_truthy by exact Hcur. simpl. apply push_not_nil.
      - apply truthy_false in Hcur.
        destruct H as [H | [H | H]]; [now left | now right | contradiction]. }
    destruct (Qle_bool _ maxWidth) eqn:Hfit.
    + unfold progressed; simpl. destruct H1 as [H1 | H1]; [now right | now left].
    + now apply splitLongWord_progress.
Qed.

Lemma words_progress (words : list string) :
  forall st,
    (progressed st \/ exists w, In w words /\ w <> "") ->
    progressed (fold_left wordStep' words st).
Proof.
  induction words as [|w ws IH]; intros st H; simpl.
  - destruct H as [H | [w [[] _]]]. assumption.
  - apply IH. destruct H as [H | [w' [[Heq | Hin] Hne]]].
    + left. apply wordStep_progress. now right.
    + subst w'. left. apply wordStep_progress. now left.
    + right. now exists w'.
Qed.

(** Every paragraph contributes at least one entry. *)
Lemma block_not_nil (p : string) : block p <> [].
Proof.
  unfold block, paragraphBlock, wrapParagraph. simpl.
  destruct (String.eqb (Js.trim p) "") eqn:Hblank; [discriminate|].
  apply String.eqb_neq in Hblank.
  pose proof (words_progress (Js.split Js.space p) (mkState [] "")
                (or_intror (nonblank_has_word p Hblank))) as Hp.
  unfold wordStep' in Hp.
  destruct (fold_left _ (Js.split Js.space p) (mkState [] "")) as [al cur].
  cbn [currentLine allLines].
  destruct (Js.truthy cur) eqn:Hcur.
  - rewrite pushLine_truthy by exact Hcur. simpl. apply push_not_nil.
  - apply truthy_false in Hcur. unfold progressed in Hp. simpl in Hp.
    destruct Hp as [Hp | Hp]; [assumption | contradiction].
Qed.

End WrapStructure.

Lemma splitAtBreaks_not_nil (ls : list string) : splitAtBreaks ls <> [].
Proof.
  induction ls as [|l rest IH]; simpl; [discriminate|].
  destruct (String.eqb l PARA_BREAK); [discriminate|].
  destruct (splitAtBreaks rest); discriminate.
Qed.

Lemma splitAtBreaks_app (b rest : list string) :
  ~ In PARA_BREAK b ->
  splitAtBreaks (b ++ rest)
  = match splitAtBreaks rest with
    | [] => [b]
    | h :: t => (b ++ h)%list :: t
    end.
Proof.
  induction b as [|l b IH]; intros Hnot; simpl.
  - destruct (splitAtBreaks rest) eqn:E; [now apply splitAtBreaks_not_nil in E | reflexivity].
  - destruct (String.eqb l PARA_BREAK) eqn:Hl.
    + apply String.eqb_eq in Hl. exfalso. apply Hnot. now left.
    + rewrite IH by (intros Hin; apply Hnot; now right).
      destruct (splitAtBreaks rest); reflexivity.
Qed.

Lemma splitAtBreaks_markers (bs : list (list string)) :
  (forall b, In b bs -> ~ In PARA_BREAK b) ->
  splitAtBreaks (flat_map (fun b' => PARA_BREAK :: b') bs) = [] :: bs.
Proof.
  induction bs as [|b bs IH]; intros Hnot; [reflexivity|].
  cbn [flat_map app splitAtBreaks]. rewrite String.eqb_refl.
  rewrite splitAtBreaks_app by (apply Hnot; now left).
  rewrite IH by (intros b' Hb'; apply Hnot; now right).
  now rewrite app_nil_r.
Qed.

Lemma splitAtBreaks_join (blocks : list (list string)) :
  blocks <> [] ->
  (forall b, In b blocks -> ~ In PARA_BREAK b) ->
  splitAtBreaks (joinParagraphs blocks) = blocks.
Proof.
  destruct blocks as [|b bs]; intros Hne Hnot; [contradiction|].
  unfold joinParagraphs. rewrite splitAtBreaks_app by (apply Hnot; now left).
  rewrite splitAtBreaks_markers by (intros b' Hb'; apply Hnot; now right).
  now rewrite app_nil_r.
Qed.

Lemma split_not_nil (sep : ascii) (s : string) : Js.split sep s <> [].
Proof.
  destruct s as [|c s]; simpl; [discriminate|].
  destruct (Ascii.eqb c sep); [discriminate|].
  destruct (Js.split sep s); discriminate.
Qed.

Lemma In_joinParagraphs (blocks : list (list string)) (l : string) :
  In l (joinParagraphs blocks) ->
  l = PARA_BREAK \/ exists b, In b blocks /\ In l b.
Proof.
  destruct blocks as [|b bs]; [contradiction|].
  unfold joinParagraphs. intros Hin. apply in_app_or in Hin.
  destruct Hin as [Hin | Hin].
  - right. exists b. split; [now left | exact Hin].
  - apply in_flat_map in Hin. destruct Hin as [b' [Hb' [Hl | Hl]]].
    + left. now symmetry.
    + right. exists b'. split; [now right | exact Hl].
Qed.

(** C1 — the result of [wrapText] is the blocks of the paragraphs joined by
    paragraph-break markers, and every entry of every block is a blank-line
    entry, a line whose measured width is at most [maxWidth], or a single
    character whose own measured width exceeds [maxWidth]; so every entry of
    the result is a marker or such a line.  This holds for every text, target
    width, font size, family and text measurement. *)
Theorem wrapText_width_bound :
  forall (measureText : Z -> string -> string -> Q) (maxWidth : Q) (fontSize : Z)
         (fontFamily text : string),
    let blocks :=
      map (paragraphBlock measureText maxWidth fontSize fontFamily)
          (Js.split Js.newline text) in
    let result := lines (wrapText measureText maxWidth fontSize fontFamily text) in
    result = joinParagraphs blocks
    /\ Forall (Forall (literalWithinBound measureText maxWidth fontSize fontFamily)) blocks
    /\ Forall (lineWithinBound measureText maxWidth fontSize fontFamily) result.
Proof.
  intros measureText maxWidth fontSize fontFamily text blocks result.
  assert (Hjoin : result = joinParagraphs blocks) by apply wrapText_blocks.
  assert (Hblocks : Forall (Forall (literalWithinBound measureText maxWidth fontSize
                                      fontFamily)) blocks).
  { apply Forall_forall. intros b Hb. apply in_map_iff in Hb.
    destruct Hb as [p [Hp _]]. subst b. apply paragraphBlock_within. }
  split; [exact Hjoin|]. split; [exact Hblocks|].
  apply Forall_forall. intros l Hl. rewrite Hjoin in Hl.
  apply In_joinParagraphs in Hl. destruct Hl as [Hl | [b [Hb Hl]]].
  - now left.
  - right. rewrite Forall_forall in Hblocks. specialize (Hblocks b Hb).
    rewrite Forall_forall in Hblocks. now apply Hblocks.
Qed.

Lemma wrapText_width_bound_witness :
  Forall (lineWithinBound monoMeasure 60 10 "monospace")
    [repeatChar "a" 10; repeatChar "a" 10; repeatChar "a" 5].
Proof.
  exact (proj2 (proj2 (wrapText_width_bound monoMeasure 60 10 "monospace"
                         (repeatChar "a" 25)))).
Defined.

(** C5 (as stated) fails where a line of the text itself equals the marker:
    the one-paragraph text [__PARA_BREAK__] wraps to the single entry
    [__PARA_BREAK__], which splits into two blocks. *)
Lemma sentinel_text_breaks_paragraph_count :
  ~ paragraphsPreserved monoMeasure 904 16 "monospace" "__PARA_BREAK__".
Proof.
  intros [_ [_ H]]. vm_compute in H. discriminate.
Qed.

(** C5 (amended) — the wrap result is the blocks of the paragraphs of
    [text.split("\n")], in order, each block non-empty (the single blank-line
    entry for a blank paragraph), with exactly one marker between consecutive
    blocks and none before the first;
    [paragraphCount] is the number of paragraphs; and when no block holds an
    entry equal to the marker, splitting the result at the markers gives the
    blocks back, hence the same paragraph count. *)
Theorem wrapText_paragraph_preservation :
  forall (measureText : Z -> string -> string -> Q) (maxWidth : Q) (fontSize : Z)
         (fontFamily text : string),
    let paragraphs := Js.split Js.newline text in
    let blocks := map (paragraphBlock measureText maxWidth fontSize fontFamily) paragraphs in
    let r := wrapText measureText maxWidth fontSize fontFamily text in
    lines r = joinParagraphs blocks
    /\ List.length blocks = List.length paragraphs
    /\ Forall (fun b => b <> []) blocks
    /\ Forall (fun p => Js.trim p = "" ->
                        paragraphBlock measureText maxWidth fontSize fontFamily p = [""])
         paragraphs
    /\ paragraphCount r = List.length paragraphs
    /\ ((forall b, In b blocks -> ~ In PARA_BREAK b) ->
        splitAtBreaks (lines r) = blocks
        /\ List.length (splitAtBreaks (lines r)) = List.length paragraphs).
Proof.
  intros measureText maxWidth fontSize fontFamily text paragraphs blocks r.
  assert (Hlines : lines r = joinParagraphs blocks) by apply wrapText_blocks.
  assert (Hlen : List.length blocks = List.length paragraphs) by apply length_map.
  split; [exact Hlines|]. split; [exact Hlen|].
  split; [|split; [|split; [reflexivity|]]].
  - apply Forall_forall. intros b Hb. apply in_map_iff in Hb.
    destruct Hb as [p [Hp _]]. subst b. apply block_not_nil.
  - apply Forall_forall. intros p _ Hblank.
    unfold paragraphBlock, wrapParagraph. rewrite Hblank. reflexivity.
  - intros Hnot.
    assert (Hsplit : splitAtBreaks (lines r) = blocks).
    { rewrite Hlines. apply splitAtBreaks_join; [|exact Hnot].
      intros Hnil. pose proof (split_not_nil Js.newline text) as Hne.
      fold paragraphs in Hne. destruct paragraphs; [contradiction | discriminate]. }
    split; [exact Hsplit|]. now rewrite Hsplit.
Qed.

Lemma wrapText_paragraph_preservation_witness :
  splitAtBreaks
    (lines (wrapText monoMeasure 904 16 "monospace"
              ("Hello" ++ String Js.newline (String Js.newline "World"))))
  = [["Hello"]; [""]; ["World"]].
Proof.
  pose proof (wrapText_paragraph_preservation monoMeasure 904 16 "monospace"
                ("Hello" ++ String Js.newline (String Js.newline "World")))
    as [_ [_ [_ [_ [_ H]]]]].
  assert (Hnot : forall b,
             In b (map (paragraphBlock monoMeasure 904 16 "monospace")
                     (Js.split Js.newline
                        ("Hello" ++ String Js.newline (String Js.newline "World")))) ->
             ~ In PARA_BREAK b).
  { vm_compute. intros b [Hb | [Hb | [Hb | []]]]; subst b;
      intros [Hin | []]; discriminate. }
  destruct (H Hnot) as [Hsplit _]. rewrite Hsplit. vm_compute. reflexivity.
Defined.

(** ** Drawing *)

Lemma drawLine_fold (x maxWidth lineHeight : Q) (align : TextAlign) (ls : list string) :
  forall d,
    map fillLine (calls (fold_left (drawLine x maxWidth lineHeight align) ls d))
    = (map fillLine (calls d) ++ paintedLines ls)%list
    /\ (currentY (fold_left (drawLine x maxWidth lineHeight align) ls d)
        == currentY d + drawAdvance lineHeight ls)%Q.
Proof.
  induction ls as [|l ls IH]; intros d; simpl.
  - rewrite app_nil_r. split; [reflexivity | ring].
  - destruct (IH (drawLine x maxWidth lineHeight align d l)) as [Hc Hy].
    rewrite Hc, Hy. unfold drawLine.
    destruct (String.eqb l PARA_BREAK); simpl.
    + split; [reflexivity | ring].
    + unfold Js.push. rewrite map_app. simpl. rewrite <- app_assoc.
      split; [reflexivity | ring].
Qed.

(** [drawText] paints the entries of the wrap result other than those equal
    to the marker, and moves the cursor by [drawAdvance]. *)
Lemma drawText_paints (measureText : Z -> string -> string -> Q) (text : string)
    (x y maxWidth : Q) (fontSize : Z) (fontFamily : string) (align : option TextAlign) :
  map fillLine (calls (drawText measureText text x y maxWidth fontSize fontFamily align))
  = paintedLines (lines (wrapText measureText maxWidth fontSize fontFamily text))
  /\ (currentY (drawText measureText text x y maxWidth fontSize fontFamily align)
      == y + drawAdvance (lineHeightOf fontSize)
               (lines (wrapText measureText maxWidth fontSize fontFamily text)))%Q.
Proof.
  unfold drawText. apply (drawLine_fold _ _ _ _ _ (mkDrawn [] y)).
Qed.

(** C9 — [drawText] paints no entry equal to [__PARA_BREAK__] and advances
    half a line for it; so the text [__PARA_BREAK__], when it fits within
    [maxWidth], wraps to that single entry, nothing is painted, and the cursor
    moves by half a line height only. *)
Theorem drawText_sentinel_collision :
  forall (measureText : Z -> string -> string -> Q) (x y maxWidth : Q) (fontSize : Z)
         (fontFamily : string) (align : option TextAlign),
    (measureText fontSize fontFamily PARA_BREAK <= maxWidth)%Q ->
    (forall text,
        map fillLine (calls (drawText measureText text x y maxWidth fontSize fontFamily align))
        = paintedLines (lines (wrapText measureText maxWidth fontSize fontFamily text))
        /\ ~ In PARA_BREAK
             (map fillLine
                (calls (drawText measureText text x y maxWidth fontSize fontFamily align))))
    /\ lines (wrapText measureText maxWidth fontSize fontFamily PARA_BREAK) = [PARA_BREAK]
    /\ calls (drawText measureText PARA_BREAK x y maxWidth fontSize fontFamily align) = []
    /\ (currentY (drawText measureText PARA_BREAK x y maxWidth fontSize fontFamily align)
        == y + lineHeightOf fontSize * (5 # 10))%Q.
Proof.
  intros measureText x y maxWidth fontSize fontFamily align Hfit.
  assert (Hlines : lines (wrapText measureText maxWidth fontSize fontFamily PARA_BREAK)
                   = [PARA_BREAK]).
  { unfold wrapText, PARA_BREAK. cbn -[Qle_bool measure].
    unfold wrapParagraph. cbn -[Qle_bool measure].
    unfold wordStep. cbn -[Qle_bool measure].
    apply Qle_bool_iff in Hfit. unfold measure, PARA_BREAK in *. rewrite Hfit.
    reflexivity. }
  split; [|split; [exact Hlines|split]].
  - intros text.
    destruct (drawText_paints measureText text x y maxWidth fontSize fontFamily align)
      as [Hc _].
    split; [exact Hc|]. rewrite Hc. unfold paintedLines. intros Hin.
    apply filter_In in Hin. destruct Hin as [_ Hin].
    rewrite String.eqb_refl in Hin. discriminate.
  - unfold drawText. rewrite Hlines. reflexivity.
  - unfold drawText. rewrite Hlines. cbn [fold_left]. unfold drawLine.
    rewrite String.eqb_refl. cbn [currentY]. reflexivity.
Qed.

Lemma drawText_sentinel_collision_witness :
  calls (drawText monoMeasure PARA_BREAK 88 128 904 16 "monospace" (Some AlignCenter)) = [].
Proof.
  assert (Hfit : (monoMeasure 16 "monospace" PARA_BREAK <= 904)%Q).
  { vm_compute. discriminate. }
  exact (proj1 (proj2 (proj2
           (drawText_sentinel_collision monoMeasure 88 128 904 16 "monospace"
              (Some AlignCenter) Hfit)))).
Defined.

(** ** The font-size search *)

Section AutoFitFacts.

Variable measureText : Z -> string -> string -> Q.
Variable family : string.
Variable sampleLine : string.
Variable targetWidth : Z.
Variable requested : Z.

Let shrink := shrinkLoop measureText family sampleLine targetWidth.
Let grow := growLoop measureText family sampleLine targetWidth requested.
Let width := sampleWidth measureText family sampleLine.

(** The shrink loop ends within its fuel, at a size between the floor (or the
    start, when that is lower) and the start. *)
Lemma shrinkLoop_total (fuel : nat) :
  forall fs,
    (Z.to_nat (fs - 10) < fuel)%nat ->
    exists s, shrink fuel fs = Some s /\ Z.min 10 fs <= s <= fs.
Proof.
  unfold shrink.
  induction fuel as [|k IH]; intros fs Hfuel; [lia|]. simpl.
  destruct (10 <? fs) eqn:Hgt; simpl.
  - apply Z.ltb_lt in Hgt.
    destruct (Js.gtb _ (inject_Z targetWidth)).
    + destruct (IH (fs - 1)) as [s [Hs Hb]]; [lia|].
      exists s. split; [exact Hs | lia].
    + exists fs. split; [reflexivity | lia].
  - apply Z.ltb_ge in Hgt. exists fs. split; [reflexivity | lia].
Qed.

(** The grow loop ends within its fuel and never lowers the size. *)
Lemma growLoop_total (fuel : nat) :
  forall fs,
    (Z.to_nat (requested * 3 - fs) < fuel)%nat ->
    exists s, grow fuel fs = Some s /\ fs <= s.
Proof.
  unfold grow.
  induction fuel as [|k IH]; intros fs Hfuel; [lia|]. simpl.
  destruct (Js.ltb _ _).
  - destruct (Js.gtb _ _).
    + exists (fs + 1 - 1). split; [reflexivity | lia].
    + destruct (requested * 3 <? fs + 1) eqn:Hguard.
      * exists (fs + 1). split; [reflexivity | lia].
      * apply Z.ltb_ge in Hguard.
        destruct (IH (fs + 1)) as [s [Hs Hb]]; [lia|].
        exists s. split; [exact Hs | lia].
  - exists fs. split; [reflexivity | lia].
Qed.

(** Where the stress line reaches 90% of the target at a size [c] not below
    the start, the grow loop ends at [c] at the latest. *)
Lemma growLoop_stops (fuel : nat) :
  forall fs s c,
    grow fuel fs = Some s ->
    fs <= c ->
    Js.ltb (width c) (inject_Z targetWidth * (9 # 10)) = false ->
    s <= c.
Proof.
  unfold grow, width.
  induction fuel as [|k IH]; intros fs s c Hrun Hle Hc; [discriminate|]. simpl in Hrun.
  destruct (Js.ltb (sampleWidth measureText family sampleLine fs) _) eqn:Hcond.
  - assert (Hlt : fs < c).
    { destruct (Z.eq_dec fs c) as [Heq | Hne]; [|lia].
      subst c. congruence. }
    destruct (Js.gtb _ _).
    + inversion Hrun. lia.
    + destruct (requested * 3 <? fs + 1).
      * inversion Hrun. lia.
      * apply (IH (fs + 1) s c Hrun); [lia | exact Hc].
  - inversion Hrun. lia.
Qed.

(** The search always returns a size. *)
Lemma autoFitSize_total :
  exists s,
    autoFitSize measureText family sampleLine targetWidth requested = Some s
    /\ Z.min 10 requested <= s.
Proof.
  unfold autoFitSize.
  destruct (shrinkLoop_total (S (Z.to_nat (requested - 10))) requested) as [s1 [Hs1 Hb1]];
    [lia|].
  unfold shrink in Hs1. rewrite Hs1.
  destruct (growLoop_total (S (S (Z.to_nat (requested * 3 - s1)))) s1) as [s2 [Hs2 Hb2]];
    [lia|].
  exists s2. split; [exact Hs2 | lia].
Qed.

End AutoFitFacts.

(** ** The layout of [generateImage] *)

(** [generateImage] always returns; its layout is determined by the working
    font size, which is the result of the search when [autoFit] is set and
    the requested size otherwise. *)
Lemma generateImage_total (measureText : Z -> string -> string -> Q)
    (text : string) (opts : ImageOptions) :
  let family := normalizeFontFamily (fontFamily opts) in
  let maxTextWidth := inject_Z (width opts - 96 - padding opts * 2) in
  exists r,
    generateImage measureText text opts = Some r
    /\ (if autoFit opts
        then autoFitSize measureText family (sampleLineOf text) (textWidthOf opts)
               (fontSize opts) = Some (workingFontSize r)
        else workingFontSize r = fontSize opts)
    /\ wrapped r = wrapText measureText maxTextWidth (workingFontSize r) family text
    /\ textHeight r
       = (inject_Z (Z.of_nat (List.length (lines (wrapped r))))
            * lineHeightOf (workingFontSize r)
          + inject_Z (Z.max 0 (Z.of_nat (paragraphCount (wrapped r)) - 1))
            * lineHeightOf (workingFontSize r) * (5 # 10))%Q
    /\ dynamicHeight r
       = Qmax (inject_Z (height opts)) (textHeight r + inject_Z (padding opts * 2) + 160)%Q
    /\ canvasWidth r = (inject_Z (width opts) * scale opts)%Q
    /\ canvasHeight r = (dynamicHeight r * scale opts)%Q
    /\ totalTextHeight r = measureWrapped measureText maxTextWidth (workingFontSize r) family text
    /\ startY r = (48 + (dynamicHeight r - 96 - totalTextHeight r) / 2)%Q
    /\ drawn r
       = drawText measureText text (inject_Z (48 + padding opts))
           (Qmax (inject_Z (48 + 80)) (startY r)) maxTextWidth
           (workingFontSize r) family (Some AlignCenter).
Proof.
  intros family maxTextWidth. unfold generateImage, textWidthOf.
  fold family.
  destruct (autoFit opts).
  - destruct (autoFitSize_total measureText family (sampleLineOf text)
                (width opts - 96 - padding opts * 2) (fontSize opts)) as [s [Hs _]].
    rewrite Hs. eexists. split; [reflexivity|]. repeat split.
  - eexists. split; [reflexivity|]. repeat split.
Qed.

Lemma autoFitSize_bounds (measureText : Z -> string -> string -> Q)
    (family sampleLine : string) (targetWidth requested : Z) :
  exists s,
    autoFitSize measureText family sampleLine targetWidth requested = Some s
    /\ Z.min 10 requested <= s
    /\ ((exists c,
            requested <= c <= 3 * requested
            /\ (inject_Z targetWidth * (9 # 10)
                <= sampleWidth measureText family sampleLine c)%Q) ->
        s <= 3 * requested).
Proof.
  destruct (autoFitSize_total measureText family sampleLine targetWidth requested)
    as [s [Hs Hlow]].
  exists s. split; [exact Hs|]. split; [exact Hlow|].
  intros [c [Hc Hwide]].
  unfold autoFitSize in Hs.
  destruct (shrinkLoop_total measureText family sampleLine targetWidth
              (S (Z.to_nat (requested - 10))) requested) as [s1 [Hs1 Hb1]]; [lia|].
  rewrite Hs1 in Hs.
  assert (Hstop : s <= c).
  { apply (growLoop_stops measureText family sampleLine targetWidth requested _ s1 s c Hs);
      [lia|].
    unfold Js.ltb. apply negb_false_iff. now apply Qle_bool_iff. }
  lia.
Qed.

(** C3 (as stated) fails at both ends: a requested size of 8 whose stress line
    already fills the target is kept at 8, below 10; and with the default
    options the empty text grows from 16 to 49, above 3 x 16. *)
Lemma autoFit_leaves_claimed_range :
  (option_map workingFontSize
     (generateImage monoMeasure (repeatChar "a" 170) (withFontSize defaultImageOptions 8))
   = Some 8
   /\ ~ (10 <= 8 <= 3 * 8))
  /\ (option_map workingFontSize (generateImage monoMeasure "" defaultImageOptions)
      = Some 49
      /\ ~ (10 <= 49 <= 3 * 16)).
Proof.
  split; (split; [vm_compute; reflexivity | lia]).
Qed.

(** The grow loop ends at most one above the larger of its start and 3 x the
    requested size: the guard is tested after the increment and does not
    roll it back. *)
Lemma growLoop_ceiling (measureText : Z -> string -> string -> Q)
    (family sampleLine : string) (targetWidth requested : Z) (fuel : nat) :
  forall fs s,
    growLoop measureText family sampleLine targetWidth requested fuel fs = Some s ->
    s <= Z.max fs (requested * 3) + 1.
Proof.
  induction fuel as [|k IH]; intros fs s Hrun; [discriminate|]. simpl in Hrun.
  destruct (Js.ltb _ _).
  - destruct (Js.gtb _ _).
    + inversion Hrun; subst s. lia.
    + destruct (requested * 3 <? fs + 1) eqn:Hguard.
      * inversion Hrun; subst s. lia.
      * apply Z.ltb_ge in Hguard. apply IH in Hrun. lia.
  - inversion Hrun; subst s. lia.
Qed.

Lemma autoFitSize_ceiling (measureText : Z -> string -> string -> Q)
    (family sampleLine : string) (targetWidth requested : Z) (s : Z) :
  autoFitSize measureText family sampleLine targetWidth requested = Some s ->
  s <= Z.max requested (3 * requested) + 1.
Proof.
  unfold autoFitSize. intros Hs.
  destruct (shrinkLoop_total measureText family sampleLine targetWidth
              (S (Z.to_nat (requested - 10))) requested) as [s1 [Hs1 Hb1]]; [lia|].
  rewrite Hs1 in Hs. apply growLoop_ceiling in Hs. lia.
Qed.

(** C3 (amended) — with [autoFit] enabled, [generateImage] lays out and draws
    at a working font size that is at least the smaller of 10 and the
    requested size (so at least 10 when the requested size is), and, for
    every text, at most one above the larger of the requested size and 3 x
    the requested size: at most 3 x the requested size + 1 when the requested
    size is not negative.  It is at most 3 x the requested size whenever the
    stress line reaches 90% of the target width at some size between the
    requested size and 3 x the requested size. *)
Theorem generateImage_autoFit_bounds :
  forall (measureText : Z -> string -> string -> Q) (text : string) (opts : ImageOptions),
    autoFit opts = true ->
    let family := normalizeFontFamily (fontFamily opts) in
    exists r,
      generateImage measureText text opts = Some r
      /\ Z.min 10 (fontSize opts) <= workingFontSize r
      /\ (10 <= fontSize opts -> 10 <= workingFontSize r)
      /\ workingFontSize r <= Z.max (fontSize opts) (3 * fontSize opts) + 1
      /\ (0 <= fontSize opts -> workingFontSize r <= 3 * fontSize opts + 1)
      /\ ((exists c,
              fontSize opts <= c <= 3 * fontSize opts
              /\ (inject_Z (textWidthOf opts) * (9 # 10)
                  <= measureText c family (sampleLineOf text))%Q) ->
          workingFontSize r <= 3 * fontSize opts)
      /\ wrapped r
         = wrapText measureText (inject_Z (textWidthOf opts)) (workingFontSize r) family text
      /\ drawn r
         = drawText measureText text (inject_Z (48 + padding opts))
             (Qmax (inject_Z (48 + 80)) (startY r)) (inject_Z (textWidthOf opts))
             (workingFontSize r) family (Some AlignCenter).
Proof.
  intros measureText text opts Hauto family.
  destruct (generateImage_total measureText text opts)
    as [r [Hr [Hfit [Hwrap [_ [_ [_ [_ [_ [_ Hdraw]]]]]]]]]].
  rewrite Hauto in Hfit. fold family in Hfit, Hwrap, Hdraw.
  pose proof (autoFitSize_ceiling _ _ _ _ _ _ Hfit) as Hceil.
  destruct (autoFitSize_bounds measureText family (sampleLineOf text) (textWidthOf opts)
              (fontSize opts)) as [s [Hs [Hlow Hup]]].
  rewrite Hfit in Hs. inversion Hs; subst s.
  exists r. split; [exact Hr|]. split; [exact Hlow|]. split; [lia|].
  split; [exact Hceil|]. split; [lia|].
  split; [exact Hup|]. split; [exact Hwrap | exact Hdraw].
Qed.

Lemma generateImage_autoFit_bounds_witness :
  exists r,
    generateImage monoMeasure "hello" defaultImageOptions = Some r
    /\ 10 <= workingFontSize r <= 3 * 16 + 1.
Proof.
  destruct (generateImage_autoFit_bounds monoMeasure "hello"
              defaultImageOptions eq_refl) as [r [Hr [_ [Hlow [_ [Hceil _]]]]]].
  exists r. split; [exact Hr|]. split.
  - apply Hlow. vm_compute. discriminate.
  - apply Hceil. vm_compute. discriminate.
Defined.

(** C8 — [generateImage("", {width: 1080, height: 1080, autoFit: true})]
    returns, whatever the canvas measures: the canvas is 1080 x scale wide
    and at least 1080 x scale high, the wrap result is the single blank-line
    entry, and that entry is the one line painted. *)
Theorem generateImage_empty_text :
  forall (measureText : Z -> string -> string -> Q),
  exists r,
    generateImage measureText "" defaultImageOptions = Some r
    /\ (canvasWidth r == 1080 * scale defaultImageOptions)%Q
    /\ (1080 * scale defaultImageOptions <= canvasHeight r)%Q
    /\ wrapped r = mkWrap [""] 1
    /\ map fillLine (calls (drawn r)) = [""].
Proof.
  intros measureText.
  destruct (generateImage_total measureText "" defaultImageOptions)
    as [r [Hr [_ [Hwrap [_ [Hdyn [Hcw [Hch [_ [_ Hdraw]]]]]]]]]].
  exists r. split; [exact Hr|].
  assert (Hw : wrapped r = mkWrap [""] 1) by (rewrite Hwrap; reflexivity).
  split; [rewrite Hcw; reflexivity|]. split; [|split; [exact Hw|]].
  - rewrite Hch, Hdyn.
    apply Qmult_le_compat_r; [apply Q.le_max_l | discriminate].
  - rewrite Hdraw.
    destruct (drawText_paints measureText ""
                (inject_Z (48 + padding defaultImageOptions))
                (Qmax (inject_Z (48 + 80)) (startY r))
                (inject_Z (width defaultImageOptions - 96 - padding defaultImageOptions * 2))
                (workingFontSize r)
                (normalizeFontFamily (fontFamily defaultImageOptions))
                (Some AlignCenter)) as [Hc _].
    rewrite Hc. rewrite <- Hwrap, Hw. reflexivity.
Qed.

(** ** The height of the text block *)

Lemma letter_block (measureText : Z -> string -> string -> Q) (maxWidth : Q)
    (fontSize : Z) (fontFamily : string) (c : ascii) :
  Js.isWhiteSpace c = false ->
  paragraphBlock measureText maxWidth fontSize fontFamily (String c "") = [String c ""].
Proof.
  intros Hc.
  assert (Hsp : Ascii.eqb c Js.space = false).
  { destruct (Ascii.eqb c Js.space) eqn:E; [|reflexivity].
    apply Ascii.eqb_eq in E. subst c. discriminate. }
  unfold paragraphBlock, wrapParagraph, Js.trim.
  cbn -[Qle_bool measure]. rewrite Hc, Hsp. cbn -[Qle_bool measure]. rewrite Hc.
  cbn -[Qle_bool measure]. unfold wordStep. cbn -[Qle_bool measure].
  destruct (Qle_bool (measure measureText fontSize fontFamily (String c "")) maxWidth)
    eqn:Hfit.
  - reflexivity.
  - assert (Hgt : Js.gtb (measure measureText fontSize fontFamily (String c "")) maxWidth
                 = true) by (unfold Js.gtb; now rewrite Hfit).
    unfold splitLongWord. cbn -[Qle_bool measure Js.gtb]. rewrite Hgt. reflexivity.
Qed.

Lemma twoParagraphs_lines (measureText : Z -> string -> string -> Q) (maxWidth : Q)
    (fontSize : Z) (fontFamily : string) :
  wrapText measureText maxWidth fontSize fontFamily twoParagraphs
  = mkWrap ["a"; PARA_BREAK; "b"] 2.
Proof.
  pose proof (wrapText_blocks measureText maxWidth fontSize fontFamily twoParagraphs) as H.
  destruct (wrapText measureText maxWidth fontSize fontFamily twoParagraphs)
    as [ls n] eqn:E.
  assert (Hn : n = 2%nat).
  { unfold wrapText in E. inversion E. reflexivity. }
  simpl in H. cbn in H. rewrite !letter_block in H by reflexivity.
  subst n. rewrite H. reflexivity.
Qed.

(** C4 — on the two-paragraph text ["a\nb"] with the default options the
    code counts the break marker among the full lines: its text block height
    is 3.5 line heights, where the formula of the specification gives 2.5. *)
Theorem textHeight_counts_break_markers :
  forall (measureText : Z -> string -> string -> Q),
  exists r,
    generateImage measureText twoParagraphs defaultImageOptions = Some r
    /\ wrapped r = mkWrap ["a"; PARA_BREAK; "b"] 2
    /\ (textHeight r == (7 # 2) * lineHeightOf (workingFontSize r))%Q
    /\ (specTextHeight (wrapped r) (lineHeightOf (workingFontSize r))
        == (5 # 2) * lineHeightOf (workingFontSize r))%Q
    /\ ~ (textHeight r == specTextHeight (wrapped r) (lineHeightOf (workingFontSize r)))%Q.
Proof.
  intros measureText.
  destruct (generateImage_total measureText twoParagraphs defaultImageOptions)
    as [r [Hr [Hfit [Hwrap [Hth _]]]]].
  rewrite twoParagraphs_lines in Hwrap.
  assert (Hpos : 10 <= workingFontSize r).
  { cbn [autoFit defaultImageOptions] in Hfit.
    destruct (autoFitSize_bounds measureText
                (normalizeFontFamily (fontFamily defaultImageOptions))
                (sampleLineOf twoParagraphs) (textWidthOf defaultImageOptions)
                (fontSize defaultImageOptions)) as [s [Hs [Hlow _]]].
    rewrite Hfit in Hs. inversion Hs; subst s. exact Hlow. }
  assert (Hlh : (0 < lineHeightOf (workingFontSize r))%Q).
  { unfold lineHeightOf. apply Qmult_lt_0_compat; [|reflexivity].
    unfold Qlt. simpl. lia. }
  assert (H1 : (textHeight r == (7 # 2) * lineHeightOf (workingFontSize r))%Q).
  { rewrite Hth, Hwrap. cbn [lines paragraphCount List.length]. 
    change (inject_Z (Z.of_nat 3)) with 3%Q.
    change (inject_Z (Z.max 0 (Z.of_nat 2 - 1))) with 1%Q. ring. }
  assert (H2 : (specTextHeight (wrapped r) (lineHeightOf (workingFontSize r))
                == (5 # 2) * lineHeightOf (workingFontSize r))%Q).
  { rewrite Hwrap. unfold specTextHeight. cbn [lines paragraphCount].
    change (inject_Z (Z.of_nat (List.length (paintedLines ["a"; PARA_BREAK; "b"]))))
      with 2%Q.
    change (inject_Z (Z.of_nat 2)) with 2%Q. ring. }
  exists r. split; [exact Hr|]. split; [exact Hwrap|]. split; [exact H1|].
  split; [exact H2|].
  rewrite H1, H2. intros Heq. lra.
Qed.

(** The part of the height computation that holds: the canvas is never lower
    than the configured height, nor than the text block height the code
    computed plus twice the padding plus 160. *)
Lemma generateImage_height_floor (measureText : Z -> string -> string -> Q)
    (text : string) (opts : ImageOptions) :
  exists r,
    generateImage measureText text opts = Some r
    /\ (inject_Z (height opts) <= dynamicHeight r)%Q
    /\ (textHeight r + inject_Z (padding opts * 2) + 160 <= dynamicHeight r)%Q.
Proof.
  destruct (generateImage_total measureText text opts)
    as [r [Hr [_ [_ [_ [Hdyn _]]]]]].
  exists r. split; [exact Hr|]. rewrite Hdyn.
  split; [apply Q.le_max_l | apply Q.le_max_r].
Qed.

(** C10 — on a word of 25 characters that wraps to three character-split
    lines, [measureWrapped] returns two line heights (32) while [drawText]
    advances by three (48). *)
Theorem measureWrapped_misses_split_lines :
  lines (wrapText monoMeasure 60 10 "monospace" (repeatChar "a" 25))
  = [repeatChar "a" 10; repeatChar "a" 10; repeatChar "a" 5]
  /\ (measureWrapped monoMeasure 60 10 "monospace" (repeatChar "a" 25) == 32)%Q
  /\ (currentY (drawText monoMeasure (repeatChar "a" 25) 0 0 60 10 "monospace" None)
      == 48)%Q.
Proof.
  split; [vm_compute; reflexivity|].
  split; vm_compute; reflexivity.
Qed.

(** C2 — with the default options a single word of 6000 characters is
    wrapped to 40 lines on a canvas 1080 high; [measureWrapped] counts two
    lines, the text starts at y = 524 and ends at y = 1164, and some lines
    are painted wholly below the canvas. *)
Theorem long_word_is_drawn_below_canvas :
  exists r,
    generateImage monoMeasure (repeatChar "a" 6000) defaultImageOptions = Some r
    /\ List.length (lines (wrapped r)) = 40%nat
    /\ (dynamicHeight r == 1080)%Q
    /\ (totalTextHeight r == 32)%Q
    /\ (startY r == 524)%Q
    /\ (currentY (drawn r) == 1164)%Q
    /\ (exists call, In call (calls (drawn r)) /\ (dynamicHeight r <= fillY call)%Q).
Proof.
  assert (H : match generateImage monoMeasure (repeatChar "a" 6000) defaultImageOptions with
              | Some r =>
                  List.length (lines (wrapped r)) = 40%nat
                  /\ (dynamicHeight r == 1080)%Q
                  /\ (totalTextHeight r == 32)%Q
                  /\ (startY r == 524)%Q
                  /\ (currentY (drawn r) == 1164)%Q
                  /\ (exists call,
                         In call (calls (drawn r)) /\ (dynamicHeight r <= fillY call)%Q)
              | None => False
              end).
  { vm_compute. repeat (split; [reflexivity|]).
    eexists. split; [do 39 right; left; reflexivity | discriminate]. }
  destruct (generateImage monoMeasure (repeatChar "a" 6000) defaultImageOptions) as [r|];
    [|contradiction].
  exists r. split; [reflexivity | exact H].
Qed.

(** ** The history endpoint *)

Module HistoryFacts.

Import History.

Lemma badId_false (id : Value) :
  badId id = false <-> exists s, id = Some (JString s) /\ s <> "".
Proof.
  split.
  - destruct id as [[| | |s| |]|]; simpl; try discriminate.
    intros H. exists s. split; [reflexivity|].
    intros Hs. subst s. discriminate.
  - intros [s [Hid Hs]]. subst id. simpl.
    destruct s; [contradiction | reflexivity].
Qed.

Lemma badText_false (text : Value) :
  badText text = false
  <-> exists s, text = Some (JString s) /\ 1 <= Z.of_nat (String.length s) <= 10000.
Proof.
  split.
  - destruct text as [[| | |s| |]|]; simpl; try discriminate.
    intros H. apply orb_false_iff in H. destruct H as [H0 H1].
    apply Nat.eqb_neq in H0. apply Z.ltb_ge in H1.
    exists s. split; [reflexivity | lia].
  - intros [s [Ht Hs]]. subst text. simpl.
    apply orb_false_iff. split; [apply Nat.eqb_neq | apply Z.ltb_ge]; lia.
Qed.

Lemma badTimestamp_false (timestamp : Value) :
  badTimestamp timestamp = false
  <-> exists q, timestamp = Some (JNumber (Finite q)) /\ (0 < q)%Q.
Proof.
  split.
  - destruct timestamp as [[| |[q| | |]| | |]|]; simpl; try discriminate.
    intros H. exists q. split; [reflexivity|].
    apply Qnot_le_lt. intros Hle. apply Qle_bool_iff in Hle. congruence.
  - intros [q [Ht Hq]]. subst timestamp. simpl.
    destruct (Qle_bool q 0) eqn:E; [|reflexivity].
    apply Qle_bool_iff in E. exfalso. apply (Qlt_not_le _ _ Hq E).
Qed.

Lemma badTag_false (t : Json) :
  badTag t = false <-> exists s, t = JString s /\ (String.length s <= 40)%nat.
Proof.
  split.
  - destruct t as [| | |s| |]; simpl; try discriminate.
    intros H. apply Nat.ltb_ge in H. now exists s.
  - intros [s [Ht Hs]]. subst t. simpl. now apply Nat.ltb_ge.
Qed.

Lemma badTags_false (tags : Value) :
  badTags tags = false <-> exists items, tags = Some (JArray items) /\ tagsOk items.
Proof.
  unfold tagsOk. split.
  - destruct tags as [[| | | |items|]|]; simpl; try discriminate.
    intros H. exists items. split; [reflexivity|].
    apply Forall_forall. intros t Ht. apply badTag_false.
    destruct (badTag t) eqn:E; [|reflexivity].
    assert (Hex : existsb badTag items = true) by (apply existsb_exists; now exists t).
    congruence.
  - intros [items [Ht Hall]]. subst tags. simpl.
    destruct (existsb badTag items) eqn:E; [|reflexivity].
    apply existsb_exists in E. destruct E as [t [Hin Hbad]].
    rewrite Forall_forall in Hall. apply Hall in Hin. apply badTag_false in Hin.
    congruence.
Qed.

Lemma required_checks (body : Json) :
  (badId (getField body "id") || badText (getField body "text")
   || badTimestamp (getField body "timestamp"))%bool = false
  <-> requiredFieldsOk body.
Proof.
  unfold requiredFieldsOk.
  rewrite !orb_false_iff, badId_false, badText_false, badTimestamp_false. tauto.
Qed.

Lemma title_check (body : Json) :
  (truthy (getField body "title") && negb (isString (getField body "title")))%bool = false
  <-> (forall v, getField body "title" = Some v -> truthy (Some v) = true ->
                 exists s, v = JString s).
Proof.
  destruct (getField body "title") as [v|].
  - split.
    + intros H w Hw Ht. inversion Hw; subst w. rewrite Ht in H. simpl in H.
      destruct v; try discriminate. now eexists.
    + intros H. destruct (truthy (Some v)) eqn:Ht; [|reflexivity].
      destruct (H v eq_refl Ht) as [s Hs]. subst v. reflexivity.
  - split; [intros _ v Hv; discriminate | reflexivity].
Qed.

Lemma tags_check (body : Json) :
  (truthy (getField body "tags") && badTags (getField body "tags"))%bool = false
  <-> (forall v, getField body "tags" = Some v -> truthy (Some v) = true ->
                 exists items, v = JArray items /\ tagsOk items).
Proof.
  destruct (getField body "tags") as [v|].
  - split.
    + intros H w Hw Ht. inversion Hw; subst w. rewrite Ht in H.
      rewrite andb_true_l in H.
      apply badTags_false in H. destruct H as [items [Hv Hok]].
      inversion Hv; subst v. now exists items.
    + intros H. destruct (truthy (Some v)) eqn:Ht; [|reflexivity].
      destruct (H v eq_refl Ht) as [items [Hv Hok]]. subst v.
      rewrite andb_true_l. apply badTags_false. now exists items.
  - split; [intros _ v Hv; discriminate | reflexivity].
Qed.

End HistoryFacts.

(** The older route stores a malformed body and answers 200. *)
Lemma unvalidated_route_stores_anything :
  History.POST_unvalidated History.JNull [] = (History.accepted, [History.JNull]).
Proof. reflexivity. Qed.

(** C6 (as stated) fails for a title that is present, not a string and
    falsy: the payload [{id: "a", text: "b", timestamp: 1, title: false}] is
    not one the specification accepts, yet it is stored and answered 200. *)
Lemma false_title_is_stored :
  ~ payloadAsSpecified falseTitlePayload
  /\ History.status (fst (History.POST falseTitlePayload [])) = 200
  /\ snd (History.POST falseTitlePayload []) <> [].
Proof.
  split; [|split; [reflexivity | discriminate]].
  intros [_ [Htitle _]].
  destruct (Htitle (History.JBool false) eq_refl) as [s Hs]. discriminate.
Qed.

(** C6 (amended) — a payload passes when [id] is a non-empty string, [text]
    a string of 1 to 10000 characters, [timestamp] a finite positive number,
    [title], when truthy, a string, and [tags], when truthy, an array of
    strings of at most 40 characters each.  A payload that does not pass is
    answered 400 and the stored array is unchanged; one that passes is
    answered 200, and its entry is put in front of the stored array, which
    is cut to its first 100 entries. *)
Theorem POST_validates_and_caps :
  forall (body : History.Json) (snaps : list History.Json),
    (payloadAccepted body
     /\ History.POST body snaps
        = (History.accepted, firstn 100 (History.storedEntry body :: snaps))
     /\ hd_error (snd (History.POST body snaps)) = Some (History.storedEntry body)
     /\ (List.length (snd (History.POST body snaps)) <= 100)%nat)
    \/ (~ payloadAccepted body
        /\ History.status (fst (History.POST body snaps)) = 400
        /\ History.ok (fst (History.POST body snaps)) = false
        /\ snd (History.POST body snaps) = snaps).
Proof.
  intros body snaps. unfold payloadAccepted, History.POST.
  pose proof (HistoryFacts.required_checks body) as Hreq.
  pose proof (HistoryFacts.title_check body) as Htitle.
  pose proof (HistoryFacts.tags_check body) as Htags.
  destruct (History.badId _ || History.badText _ || History.badTimestamp _)%bool.
  - right. split; [|repeat split].
    intros [H _]. apply Hreq in H. discriminate.
  - destruct (History.truthy (History.getField body "title")
              && negb (History.isString (History.getField body "title")))%bool.
    + right. split; [|repeat split].
      intros [_ [H _]]. apply Htitle in H. discriminate.
    + destruct (History.truthy (History.getField body "tags")
                && History.badTags (History.getField body "tags"))%bool.
      * right. split; [|repeat split].
        intros [_ [_ H]]. apply Htags in H. discriminate.
      * left. split; [|split; [reflexivity|split; [reflexivity|]]].
        -- split; [now apply Hreq|]. split; [now apply Htitle | now apply Htags].
        -- cbn [snd]. apply firstn_le_length.
Qed.

(** ** Font-family normalization *)

Module StringFacts.

Lemma append_nil_r (s : string) : s ++ "" = s.
Proof. induction s as [|c s IH]; simpl; [reflexivity | now rewrite IH]. Qed.

Lemma append_assoc (s t u : string) : (s ++ t) ++ u = s ++ t ++ u.
Proof. induction s as [|c s IH]; simpl; [reflexivity | now rewrite IH]. Qed.

Lemma length_append (s t : string) :
  String.length (s ++ t) = (String.length s + String.length t)%nat.
Proof. induction s as [|c s IH]; simpl; [reflexivity | now rewrite IH]. Qed.

Lemma hasChar_app (c : ascii) (s t : string) :
  hasChar c (s ++ t) = (hasChar c s || hasChar c t)%bool.
Proof.
  induction s as [|d s IH]; simpl; [reflexivity|]. rewrite IH. now rewrite orb_assoc.
Qed.

Lemma prefix_iff (p u : string) : String.prefix p u = true <-> exists t, u = p ++ t.
Proof.
  revert u. induction p as [|a p IH]; intros u; simpl.
  - split; [intros _; now exists u | intros _; now destruct u].
  - destruct u as [|b u].
    + split; [discriminate | intros [t Ht]; discriminate].
    + simpl. destruct (ascii_dec a b) as [Heq | Hne].
      * subst b. rewrite IH. split; intros [t Ht]; exists t.
        -- now rewrite Ht.
        -- now inversion Ht.
      * split; [discriminate | intros [t Ht]; inversion Ht; congruence].
Qed.

Lemma prefix_app (p t : string) : String.prefix p (p ++ t) = true.
Proof. apply prefix_iff. now exists t. Qed.

Lemma includes_iff (m s : string) : Regex.includes m s = true <-> Contains m s.
Proof.
  unfold Contains. induction s as [|c s IH]; cbn [Regex.includes].
  - rewrite orb_false_r, prefix_iff. split.
    + intros [t Ht]. exists "", t. exact Ht.
    + intros [a [b Hs]]. destruct a; [now exists b | discriminate].
  - rewrite orb_true_iff, IH, prefix_iff. split.
    + intros [[t Ht] | [a [b Hs]]].
      * exists "", t. exact Ht.
      * exists (String c a), b. simpl. now rewrite Hs.
    + intros [a [b Hs]]. destruct a as [|d a].
      * left. now exists b.
      * right. exists a, b. simpl in Hs. now inversion Hs.
Qed.

Lemma Contains_app_l (m s x : string) : Contains m s -> Contains m (x ++ s).
Proof.
  intros [a [b Hs]]. exists (x ++ a), b. subst s. now rewrite append_assoc.
Qed.

Lemma Contains_app_r (m s x : string) : Contains m s -> Contains m (s ++ x).
Proof.
  intros [a [b Hs]]. exists a, (b ++ x). subst s. now rewrite !append_assoc.
Qed.

Lemma Contains_hasChar (c : ascii) (m s : string) :
  Contains m s -> hasChar c m = true -> hasChar c s = true.
Proof.
  intros [a [b Hs]] Hm. subst s. rewrite !hasChar_app, Hm.
  now rewrite orb_true_r.
Qed.

Lemma dropStr_app (p t : string) : Regex.dropStr (String.length p) (p ++ t) = t.
Proof. induction p as [|c p IH]; simpl; [now destruct t | exact IH]. Qed.

Lemma trimStart_dropStr (s : string) : Regex.dropStr (Regex.wsLen s) s = Js.trimStart s.
Proof.
  induction s as [|c s IH]; simpl; [reflexivity|].
  destruct (Js.isWhiteSpace c); [exact IH | reflexivity].
Qed.

End StringFacts.

Module RegexFacts.

Import StringFacts.

(** No token starts inside a plain part. *)
Lemma plain_not_token (p t z : string) :
  p <> "" -> hasChar "(" p = false -> tokenAhead t -> p ++ t <> "var(" ++ z.
Proof.
  intros Hne Hp Ht Heq.
  destruct p as [|c [|x [|y [|w p]]]]; [contradiction| | | |];
    cbn [append] in Heq; inversion Heq; subst.
  - destruct Ht as [Ht | [z' Ht]]; discriminate.
  - destruct Ht as [Ht | [z' Ht]]; discriminate.
  - destruct Ht as [Ht | [z' Ht]]; discriminate.
  - cbn in Hp. discriminate.
Qed.

Section Gsub.

Variable matchLen : string -> option nat.
Variable repl : string.

Lemma gsubFrom_skip (p t : string) :
  Regex.gsubFrom matchLen repl (String.length p) (p ++ t) = Regex.gsub matchLen repl t.
Proof.
  induction p as [|c p IH]; simpl; [now destruct t | exact IH].
Qed.

Lemma gsub_match_app (p t : string) :
  p <> "" -> matchLen (p ++ t) = Some (String.length p) ->
  Regex.gsub matchLen repl (p ++ t) = repl ++ Regex.gsub matchLen repl t.
Proof.
  destruct p as [|c p]; intros Hne Hm; [contradiction|].
  unfold Regex.gsub at 1. cbn [append Regex.gsubFrom]. cbn [append] in Hm.
  rewrite Hm. cbn [String.length]. now rewrite gsubFrom_skip.
Qed.

Lemma gsub_nomatch (c : ascii) (s : string) :
  matchLen (String c s) = None ->
  Regex.gsub matchLen repl (String c s) = String c (Regex.gsub matchLen repl s).
Proof.
  intros Hm. unfold Regex.gsub. cbn [Regex.gsubFrom]. now rewrite Hm.
Qed.

Hypothesis Hanchored : anchored matchLen.

Lemma anchored_other (c : ascii) (s : string) :
  c <> "v"%char -> matchLen (String c s) = None.
Proof.
  intros Hc. destruct (matchLen (String c s)) eqn:E; [|reflexivity].
  exfalso. destruct (Hanchored (String c s)) as [z Hz]; [congruence|].
  inversion Hz. contradiction.
Qed.

Lemma scan_plain (p : string) :
  forall t,
    hasChar "(" p = false -> tokenAhead t ->
    Regex.gsub matchLen repl (p ++ t) = p ++ Regex.gsub matchLen repl t.
Proof.
  induction p as [|c p IH]; intros t Hp Ht; [reflexivity|].
  assert (Hp' : hasChar "(" p = false).
  { cbn [hasChar] in Hp. now apply orb_false_iff in Hp. }
  cbn [append]. rewrite gsub_nomatch; [now rewrite IH|].
  destruct (matchLen (String c (p ++ t))) eqn:E; [|reflexivity].
  exfalso. destruct (Hanchored (String c (p ++ t))) as [z Hz]; [congruence|].
  apply (plain_not_token (String c p) t z); [discriminate | assumption | assumption|].
  exact Hz.
Qed.

Lemma scan_token_miss (q t : string) :
  matchLen ("var(" ++ q ++ t) = None ->
  hasChar "(" q = false -> tokenAhead t ->
  Regex.gsub matchLen repl ("var(" ++ q ++ t) = "var(" ++ q ++ Regex.gsub matchLen repl t.
Proof.
  intros Hm Hq Ht. cbn [append] in *.
  rewrite gsub_nomatch by exact Hm.
  rewrite gsub_nomatch by (apply anchored_other; discriminate).
  rewrite gsub_nomatch by (apply anchored_other; discriminate).
  rewrite gsub_nomatch by (apply anchored_other; discriminate).
  now rewrite scan_plain.
Qed.

End Gsub.

(** The known-token patterns *)

Lemma tokenBody_no_close (k : KnownFont) : hasChar ")" (tokenBody k) = false.
Proof. destruct k; reflexivity. Qed.

Lemma litMatch_anchored (k : KnownFont) : anchored (Regex.litMatch (token k)).
Proof.
  intros u Hu. unfold Regex.litMatch in Hu.
  destruct (String.prefix (token k) u) eqn:E; [|congruence].
  apply prefix_iff in E. destruct E as [t Ht]. subst u.
  exists (tokenBody k ++ ")" ++ t). unfold token. now rewrite !append_assoc.
Qed.

Lemma close_inj (x : string) :
  forall y t z,
    hasChar ")" x = false -> hasChar ")" y = false ->
    x ++ String ")" t = y ++ String ")" z -> x = y.
Proof.
  induction x as [|c x IH]; intros y t z Hx Hy Heq.
  - destruct y as [|d y]; [reflexivity|].
    cbn [append] in Heq. inversion Heq as [[Hd Hrest]]. subst d.
    cbn [hasChar] in Hy. rewrite Ascii.eqb_refl in Hy. discriminate.
  - destruct y as [|d y]; cbn [append] in Heq.
    + inversion Heq as [[Hc Hrest]]. subst c.
      cbn [hasChar] in Hx. rewrite Ascii.eqb_refl in Hx. discriminate.
    + inversion Heq as [[Hc Hrest]]. subst d.
      cbn [hasChar] in Hx, Hy.
      apply orb_false_iff in Hx. apply orb_false_iff in Hy.
      f_equal. apply (IH y t z); tauto.
Qed.

Lemma litMatch_hit (k : KnownFont) (t : string) :
  Regex.litMatch (token k) (token k ++ t) = Some (String.length (token k)).
Proof. unfold Regex.litMatch. now rewrite prefix_app. Qed.

Lemma litMatch_miss (k : KnownFont) (b t : string) :
  hasChar ")" b = false -> b <> tokenBody k ->
  Regex.litMatch (token k) ("var(" ++ b ++ ")" ++ t) = None.
Proof.
  intros Hb Hne. unfold Regex.litMatch.
  destruct (String.prefix (token k) ("var(" ++ b ++ ")" ++ t)) eqn:E; [|reflexivity].
  exfalso. apply prefix_iff in E. destruct E as [z Hz].
  unfold token in Hz. rewrite !append_assoc in Hz. cbn [append] in Hz.
  inversion Hz as [Hrest]. apply Hne.
  apply (close_inj b (tokenBody k) t z Hb (tokenBody_no_close k) Hrest).
Qed.

End RegexFacts.

Module StackFacts.

Import StringFacts RegexFacts.

Lemma tokenAhead_items (items : list (string * string)) : tokenAhead (renderItems items).
Proof.
  destruct items as [|[b p] rest]; [now left|].
  right. cbn [renderItems append]. now eexists.
Qed.

Lemma quoted_no_open (k : KnownFont) : hasChar "(" (quoted (familyName k)) = false.
Proof. destruct k; reflexivity. Qed.

Lemma tokenBody_inj (j k : KnownFont) : tokenBody j = tokenBody k -> j = k.
Proof. destruct j, k; simpl; intros H; try reflexivity; discriminate. Qed.

Lemma token_not_empty (k : KnownFont) : token k <> "".
Proof. destruct k; discriminate. Qed.

(** In a flat stack a known token occurs only as one of the tokens. *)
Lemma occurrence_skips_plain (k : KnownFont) (p : string) :
  forall t a b,
    hasChar "(" p = false -> tokenAhead t ->
    p ++ t = a ++ token k ++ b -> exists a', t = a' ++ token k ++ b.
Proof.
  induction p as [|c p IH]; intros t a b Hp Ht Heq; [now exists a|].
  destruct a as [|d a].
  - exfalso. apply (plain_not_token (String c p) t (tokenBody k ++ ")" ++ b));
      [discriminate | assumption | assumption|].
    rewrite Heq. unfold token. cbn [append]. now rewrite !append_assoc.
  - cbn [append] in Heq. inversion Heq as [[Hc Hrest]].
    cbn [hasChar] in Hp. apply orb_false_iff in Hp.
    apply (IH t a b); tauto.
Qed.

Lemma items_occurrence (k : KnownFont) (items : list (string * string)) :
  flatItems items ->
  forall a b, renderItems items = a ++ token k ++ b -> In (tokenBody k) (map fst items).
Proof.
  induction items as [|[bd p] rest IH]; intros Hflat a b Heq.
  - exfalso. destruct a; destruct k; discriminate.
  - inversion Hflat as [|it its [Hb1 [Hb2 Hp]] Hrest]; subst. cbn [fst snd] in *.
    cbn [renderItems] in Heq.
    destruct a as [|c1 [|c2 [|c3 [|c4 a]]]]; cbn [append] in Heq.
    + unfold token in Heq. rewrite !append_assoc in Heq. cbn [append] in Heq.
      injection Heq as Hbody. left. cbn [fst].
      apply (close_inj bd (tokenBody k) _ _ Hb2 (tokenBody_no_close k) Hbody).
    + unfold token in Heq. cbn [append] in Heq. discriminate.
    + unfold token in Heq. cbn [append] in Heq. discriminate.
    + unfold token in Heq. cbn [append] in Heq. discriminate.
    + injection Heq as _ _ _ _ Hbody. right.
      destruct (occurrence_skips_plain k (bd ++ ")" ++ p) (renderItems rest) a b)
        as [a' Ha'].
      * now rewrite !hasChar_app, Hb1, Hp.
      * apply tokenAhead_items.
      * rewrite !append_assoc. exact Hbody.
      * exact (IH Hrest a' b Ha').
Qed.

Lemma stack_occurrence (k : KnownFont) (p0 : string) (items : list (string * string)) :
  flatStack p0 items ->
  Regex.includes (token k) (renderStack p0 items) = true ->
  In (tokenBody k) (map fst items).
Proof.
  intros [Hp0 Hflat] Hinc. apply includes_iff in Hinc. destruct Hinc as [a [b Heq]].
  destruct (occurrence_skips_plain k p0 (renderItems items) a b Hp0
              (tokenAhead_items items) Heq) as [a' Ha'].
  exact (items_occurrence k items Hflat a' b Ha').
Qed.


Section Substitute.

Variable k : KnownFont.

Lemma substItems_render (items : list (string * string)) :
  flatItems items ->
  substituteKnown k (renderItems items)
  = fst (substItems k items) ++ renderItems (snd (substItems k items)).
Proof.
  unfold substituteKnown.
  induction items as [|[b p] rest IH]; intros Hflat; [reflexivity|].
  inversion Hflat as [|it its [Hb1 [Hb2 Hp]] Hrest]; subst. cbn [fst snd] in *.
  specialize (IH Hrest).
  cbn [renderItems substItems].
  destruct (substItems k rest) as [q its'] eqn:Esub. cbn [fst snd] in IH.
  destruct (String.eqb b (tokenBody k)) eqn:Eb.
  - apply String.eqb_eq in Eb. subst b. cbn [fst snd].
    replace ("var(" ++ tokenBody k ++ ")" ++ p ++ renderItems rest)
      with (token k ++ p ++ renderItems rest)
      by (unfold token; now rewrite !append_assoc).
    rewrite gsub_match_app by (apply token_not_empty || apply litMatch_hit).
    rewrite scan_plain by (apply litMatch_anchored || assumption || apply tokenAhead_items).
    rewrite IH. now rewrite !append_assoc.
  - apply String.eqb_neq in Eb. cbn [fst snd renderItems].
    replace ("var(" ++ b ++ ")" ++ p ++ renderItems rest)
      with ("var(" ++ (b ++ ")" ++ p) ++ renderItems rest)
      by (now rewrite !append_assoc).
    rewrite scan_token_miss.
    + rewrite IH. now rewrite !append_assoc.
    + apply litMatch_anchored.
    + rewrite !append_assoc. now apply litMatch_miss.
    + rewrite !hasChar_app, Hb1, Hp. reflexivity.
    + apply tokenAhead_items.
Qed.

Lemma substItems_flat (items : list (string * string)) :
  flatItems items ->
  hasChar "(" (fst (substItems k items)) = false /\ flatItems (snd (substItems k items)).
Proof.
  induction items as [|[b p] rest IH]; intros Hflat; [split; [reflexivity | constructor]|].
  inversion Hflat as [|it its [Hb1 [Hb2 Hp]] Hrest]; subst. cbn [fst snd] in *.
  destruct (IH Hrest) as [Hq Hits]. cbn [substItems].
  destruct (substItems k rest) as [q its']. cbn [fst snd] in *.
  destruct (String.eqb b (tokenBody k)); cbn [fst snd].
  - split; [|assumption].
    now rewrite !hasChar_app, quoted_no_open, Hp, Hq.
  - split; [reflexivity|]. constructor; [|assumption]. cbn [fst snd].
    rewrite hasChar_app, Hp, Hq. tauto.
Qed.

Lemma substItems_establishes (items : list (string * string)) :
  In (tokenBody k) (map fst items) ->
  plainHas (quoted (familyName k)) (fst (substItems k items)) (snd (substItems k items)).
Proof.
  unfold plainHas.
  induction items as [|[b p] rest IH]; intros Hin; [contradiction|].
  cbn [substItems]. destruct (substItems k rest) as [q its'] eqn:Esub. cbn [fst snd] in IH.
  destruct (String.eqb b (tokenBody k)) eqn:Eb; cbn [fst snd].
  - left. exists "", (p ++ q). reflexivity.
  - apply String.eqb_neq in Eb. destruct Hin as [Hin | Hin]; [cbn in Hin; congruence|].
    right. destruct (IH Hin) as [Hq | Hex].
    + left. cbn [snd]. now apply Contains_app_l.
    + now right.
Qed.

Lemma substItems_keeps (m : string) (items : list (string * string)) :
  Exists (fun it => Contains m (snd it)) items ->
  plainHas m (fst (substItems k items)) (snd (substItems k items)).
Proof.
  unfold plainHas.
  induction items as [|[b p] rest IH]; intros Hex; [inversion Hex|].
  cbn [substItems]. destruct (substItems k rest) as [q its'] eqn:Esub. cbn [fst snd] in IH.
  assert (Hcases : Contains m p \/ Contains m q
                   \/ Exists (fun it => Contains m (snd it)) its').
  { inversion Hex as [it its Hhere | it its Hthere]; subst.
    - now left.
    - right. now apply IH. }
  destruct (String.eqb b (tokenBody k)); cbn [fst snd].
  - destruct Hcases as [H | [H | H]].
    + left. apply Contains_app_l. now apply Contains_app_r.
    + left. apply Contains_app_l. now apply Contains_app_l.
    + now right.
  - right. destruct Hcases as [H | [H | H]].
    + left. cbn [snd]. now apply Contains_app_r.
    + left. cbn [snd]. now apply Contains_app_l.
    + now right.
Qed.

Lemma substItems_keeps_token (j : KnownFont) (items : list (string * string)) :
  j <> k ->
  In (tokenBody j) (map fst items) ->
  In (tokenBody j) (map fst (snd (substItems k items))).
Proof.
  intros Hjk.
  induction items as [|[b p] rest IH]; intros Hin; [contradiction|].
  cbn [substItems]. destruct (substItems k rest) as [q its'] eqn:Esub. cbn [fst snd] in IH.
  destruct (String.eqb b (tokenBody k)) eqn:Eb; cbn [fst snd map].
  - apply String.eqb_eq in Eb. subst b.
    destruct Hin as [Hin | Hin]; [|now apply IH].
    cbn in Hin. symmetry in Hin. apply tokenBody_inj in Hin. congruence.
  - destruct Hin as [Hin | Hin]; [now left | right; now apply IH].
Qed.

(** One substitution step on a flat stack. *)
Lemma substitute_stack (p0 : string) (items : list (string * string)) :
  flatStack p0 items ->
  exists p' items',
    substituteKnown k (renderStack p0 items) = renderStack p' items'
    /\ flatStack p' items'
    /\ (In (tokenBody k) (map fst items) -> plainHas (quoted (familyName k)) p' items')
    /\ (forall m, plainHas m p0 items -> plainHas m p' items')
    /\ (forall j, j <> k -> In (tokenBody j) (map fst items) ->
                  In (tokenBody j) (map fst items')).
Proof.
  intros [Hp0 Hflat].
  exists (p0 ++ fst (substItems k items)), (snd (substItems k items)).
  destruct (substItems_flat items Hflat) as [Hq Hits].
  split; [|split; [|split; [|split]]].
  - unfold renderStack, substituteKnown.
    rewrite scan_plain by (apply litMatch_anchored || assumption || apply tokenAhead_items).
    fold (substituteKnown k (renderItems items)).
    rewrite substItems_render by assumption. now rewrite append_assoc.
  - split; [|assumption]. now rewrite hasChar_app, Hp0, Hq.
  - intros Hin. destruct (substItems_establishes items Hin) as [H | H].
    + left. now apply Contains_app_l.
    + now right.
  - intros m [H | H].
    + left. now apply Contains_app_r.
    + destruct (substItems_keeps m items H) as [H' | H'].
      * left. now apply Contains_app_l.
      * now right.
  - intros j Hjk Hin. now apply substItems_keeps_token.
Qed.

End Substitute.

End StackFacts.

Module StripFacts.

Import StringFacts RegexFacts StackFacts.

Lemma varMatch_anchored : anchored Regex.varMatch.
Proof.
  intros u Hu. unfold Regex.varMatch in Hu.
  destruct (String.prefix "var(" u) eqn:E; [|congruence].
  now apply prefix_iff in E.
Qed.

Lemma closeIdx_body (b t : string) :
  hasChar ")" b = false -> Regex.closeIdx (b ++ String ")" t) = Some (String.length b).
Proof.
  induction b as [|c b IH]; intros Hb; [reflexivity|].
  cbn [hasChar] in Hb. apply orb_false_iff in Hb. destruct Hb as [Hc Hb].
  cbn [append Regex.closeIdx String.length]. rewrite Hc, IH by assumption. reflexivity.
Qed.

Lemma sep_split (s : string) :
  exists sep, s = sep ++ dropSep s /\ String.length sep = sepLen s.
Proof.
  unfold dropSep, sepLen. rewrite trimStart_dropStr.
  induction s as [|c s IH]; [now exists ""|].
  cbn [Js.trimStart Regex.wsLen].
  destruct (Js.isWhiteSpace c) eqn:Hws.
  - destruct IH as [sep [Hs Hlen]]. exists (String c sep).
    cbn [append String.length]. split; [now rewrite <- Hs | now rewrite Hlen].
  - destruct (Ascii.eqb c ",") eqn:Hc.
    + apply Ascii.eqb_eq in Hc. subst c. now exists ",".
    + now exists "".
Qed.

Lemma varMatch_token (b s : string) :
  hasChar ")" b = false ->
  Regex.varMatch ("var(" ++ b ++ ")" ++ s)
  = Some (String.length ("var(" ++ b ++ ")") + sepLen s)%nat.
Proof.
  intros Hb. unfold Regex.varMatch. rewrite prefix_app.
  replace (Regex.dropStr 4 ("var(" ++ b ++ ")" ++ s)) with (b ++ String ")" s)
    by reflexivity.
  rewrite closeIdx_body by assumption.
  replace (Regex.dropStr (4 + String.length b + 1) ("var(" ++ b ++ ")" ++ s)) with s.
  - unfold sepLen. f_equal. rewrite !length_append. cbn [String.length]. lia.
  - replace (4 + String.length b + 1)%nat with (String.length ("var(" ++ b ++ ")")).
    + replace ("var(" ++ b ++ ")" ++ s) with (("var(" ++ b ++ ")") ++ s)
        by (now rewrite !append_assoc).
      now rewrite dropStr_app.
    + rewrite !length_append. cbn [String.length]. lia.
Qed.

Lemma gsub_var_token (b s : string) :
  hasChar ")" b = false ->
  Regex.gsub Regex.varMatch "" ("var(" ++ b ++ ")" ++ s)
  = Regex.gsub Regex.varMatch "" (dropSep s).
Proof.
  intros Hb. destruct (sep_split s) as [sep [Hs Hlen]].
  replace ("var(" ++ b ++ ")" ++ s) with (("var(" ++ b ++ ")" ++ sep) ++ dropSep s).
  - rewrite gsub_match_app; [reflexivity | discriminate |].
    rewrite !append_assoc, <- Hs. rewrite varMatch_token by assumption.
    f_equal. rewrite <- !append_assoc, (length_append _ sep), Hlen.
    now rewrite !append_assoc.
  - rewrite !append_assoc. now rewrite <- Hs.
Qed.

Lemma trimStart_stop (c : ascii) (a y : string) :
  Js.isWhiteSpace c = false ->
  Js.trimStart (a ++ String c y) = Js.trimStart a ++ String c y.
Proof.
  intros Hc. induction a as [|d a IH]; cbn [append Js.trimStart].
  - now rewrite Hc.
  - destruct (Js.isWhiteSpace d); [exact IH | reflexivity].
Qed.

Lemma dropSep_stop (c : ascii) (a y : string) :
  Js.isWhiteSpace c = false -> c <> ","%char ->
  dropSep (a ++ String c y) = dropSep a ++ String c y.
Proof.
  intros Hws Hc. unfold dropSep. rewrite trimStart_stop by assumption.
  destruct (Js.trimStart a) as [|d a']; cbn [append].
  - apply Ascii.eqb_neq in Hc. now rewrite Hc.
  - now destruct (Ascii.eqb d ",").
Qed.

Lemma dropSep_tokenAhead (p t : string) :
  tokenAhead t -> dropSep (p ++ t) = dropSep p ++ t.
Proof.
  intros [Ht | [z Ht]]; subst t.
  - now rewrite !append_nil_r.
  - apply dropSep_stop; [reflexivity | discriminate].
Qed.

Lemma hasChar_trimStart (c : ascii) (s : string) :
  hasChar c s = false -> hasChar c (Js.trimStart s) = false.
Proof.
  induction s as [|d s IH]; intros H; [reflexivity|].
  cbn [Js.trimStart]. destruct (Js.isWhiteSpace d); [|exact H].
  cbn [hasChar] in H. apply orb_false_iff in H. now apply IH.
Qed.

Lemma hasChar_dropSep (c : ascii) (s : string) :
  hasChar c s = false -> hasChar c (dropSep s) = false.
Proof.
  intros H. apply hasChar_trimStart in H. unfold dropSep.
  destruct (Js.trimStart s) as [|d r]; [reflexivity|].
  destruct (Ascii.eqb d ","); [|exact H].
  cbn [hasChar] in H. now apply orb_false_iff in H.
Qed.

(** Removing the tokens of a flat stack. *)
Lemma strip_items (items : list (string * string)) :
  flatItems items ->
  Regex.gsub Regex.varMatch "" (renderItems items) = strippedItems items.
Proof.
  induction items as [|[b p] rest IH]; intros Hflat; [reflexivity|].
  inversion Hflat as [|it its [Hb1 [Hb2 Hp]] Hrest]; subst. cbn [fst snd] in *.
  cbn [renderItems strippedItems].
  rewrite gsub_var_token by assumption.
  rewrite dropSep_tokenAhead by apply tokenAhead_items.
  rewrite scan_plain.
  - now rewrite IH.
  - apply varMatch_anchored.
  - now apply hasChar_dropSep.
  - apply tokenAhead_items.
Qed.

Lemma strippedItems_no_open (items : list (string * string)) :
  flatItems items -> hasChar "(" (strippedItems items) = false.
Proof.
  induction items as [|[b p] rest IH]; intros Hflat; [reflexivity|].
  inversion Hflat as [|it its [Hb1 [Hb2 Hp]] Hrest]; subst. cbn [fst snd] in *.
  cbn [strippedItems]. rewrite hasChar_app, IH by assumption.
  now rewrite hasChar_dropSep.
Qed.

Lemma Contains_dropSep (m s : string) :
  protected m -> Contains m s -> Contains m (dropSep s).
Proof.
  intros [[c [r [Hm [Hws Hc]]]] _] [a [b Hs]]. subst s m.
  cbn [append]. rewrite dropSep_stop by assumption.
  exists (dropSep a), b. reflexivity.
Qed.

Lemma strippedItems_keeps (m : string) (items : list (string * string)) :
  protected m ->
  Exists (fun it => Contains m (snd it)) items -> Contains m (strippedItems items).
Proof.
  intros Hm. induction items as [|[b p] rest IH]; intros Hex; [inversion Hex|].
  cbn [strippedItems].
  inversion Hex as [it its Hhere | it its Hthere]; subst.
  - apply Contains_app_r. now apply Contains_dropSep.
  - apply Contains_app_l. now apply IH.
Qed.

(** Removing the tokens of a flat stack leaves no parenthesis of a token and
    keeps what its plain parts held. *)
Lemma strip_stack (p0 : string) (items : list (string * string)) :
  flatStack p0 items ->
  Regex.gsub Regex.varMatch "" (renderStack p0 items) = p0 ++ strippedItems items
  /\ hasChar "(" (p0 ++ strippedItems items) = false
  /\ (forall m, protected m -> plainHas m p0 items ->
                Contains m (p0 ++ strippedItems items)).
Proof.
  intros [Hp0 Hflat]. split; [|split].
  - unfold renderStack.
    rewrite scan_plain by (apply varMatch_anchored || assumption || apply tokenAhead_items).
    now rewrite strip_items.
  - now rewrite hasChar_app, Hp0, strippedItems_no_open.
  - intros m Hm [H | H].
    + now apply Contains_app_r.
    + apply Contains_app_l. now apply strippedItems_keeps.
Qed.

End StripFacts.

Module CollapseFacts.

Import StringFacts RegexFacts StripFacts.

Lemma commaMatch_unfold (s : string) :
  Regex.commaMatch s
  = match Js.trimStart s with
    | String ch r =>
        if Ascii.eqb ch ","%char then
          let w2 := Regex.wsLen r in
          let k := Regex.commaLen (Js.trimStart r) in
          if Nat.eqb k 0 then None else Some (Regex.wsLen s + 1 + w2 + k)%nat
        else None
    | EmptyString => None
    end.
Proof.
  unfold Regex.commaMatch. rewrite trimStart_dropStr.
  destruct (Js.trimStart s) as [|ch r]; [reflexivity|].
  now rewrite trimStart_dropStr.
Qed.

Lemma length_trimStart (s : string) :
  String.length s = (Regex.wsLen s + String.length (Js.trimStart s))%nat.
Proof.
  induction s as [|c s IH]; [reflexivity|].
  cbn [Regex.wsLen Js.trimStart]. destruct (Js.isWhiteSpace c); cbn [String.length]; lia.
Qed.

Lemma wsLen_stop (c : ascii) (a y : string) :
  Js.isWhiteSpace c = false -> Regex.wsLen (a ++ String c y) = Regex.wsLen a.
Proof.
  intros Hc. induction a as [|d a IH]; cbn [append Regex.wsLen].
  - now rewrite Hc.
  - destruct (Js.isWhiteSpace d); [now rewrite IH | reflexivity].
Qed.

Lemma commaLen_stop (c : ascii) (a y : string) :
  c <> ","%char -> (Regex.commaLen (a ++ String c y) <= String.length a)%nat.
Proof.
  intros Hc. apply Ascii.eqb_neq in Hc.
  induction a as [|d a IH]; cbn [append Regex.commaLen String.length].
  - now rewrite Hc.
  - destruct (Ascii.eqb d ","); lia.
Qed.

(** A separator run cannot reach into a character that is neither white
    space nor a comma. *)
Lemma commaMatch_bound (c : ascii) (a y : string) (n : nat) :
  Js.isWhiteSpace c = false -> c <> ","%char ->
  Regex.commaMatch (a ++ String c y) = Some n -> (n <= String.length a)%nat.
Proof.
  intros Hws Hc. rewrite commaMatch_unfold, trimStart_stop, wsLen_stop by assumption.
  pose proof (length_trimStart a) as Hla.
  destruct (Js.trimStart a) as [|d a1]; cbn [append].
  - apply Ascii.eqb_neq in Hc. rewrite Hc. discriminate.
  - destruct (Ascii.eqb d ","); [|discriminate].
    rewrite trimStart_stop, wsLen_stop by assumption.
    pose proof (length_trimStart a1) as Hla1.
    pose proof (commaLen_stop c (Js.trimStart a1) y Hc) as Hk.
    cbv zeta. destruct (Nat.eqb _ 0); [discriminate|].
    intros H. inversion H. cbn [String.length] in Hla. lia.
Qed.

Lemma endsNonWs_tail (c d : ascii) (u : string) :
  endsNonWs (String c (String d u)) = endsNonWs (String d u).
Proof. reflexivity. Qed.

Lemma trimStart_guarded (u b : string) :
  endsNonWs u = true -> hasChar "," u = false ->
  exists ch r, Js.trimStart (u ++ b) = String ch r /\ Ascii.eqb ch ","%char = false.
Proof.
  intros Hend Hcomma.
  induction u as [|c u IH]; [discriminate|].
  cbn [hasChar] in Hcomma. apply orb_false_iff in Hcomma. destruct Hcomma as [Hc Hu].
  cbn [append Js.trimStart].
  destruct (Js.isWhiteSpace c) eqn:Hws.
  - destruct u as [|d u]; [cbn in Hend; rewrite Hws in Hend; discriminate|].
    apply IH; [now rewrite endsNonWs_tail in Hend | exact Hu].
  - now exists c, (u ++ b).
Qed.

(** No separator run starts inside a protected substring. *)
Lemma commaMatch_guarded (u b : string) :
  endsNonWs u = true -> hasChar "," u = false -> Regex.commaMatch (u ++ b) = None.
Proof.
  intros Hend Hcomma. rewrite commaMatch_unfold.
  destruct (trimStart_guarded u b Hend Hcomma) as [ch [r [Ht Hch]]].
  now rewrite Ht, Hch.
Qed.

Section Protect.

Variable m : string.
Hypothesis Hm : protected m.

Lemma collapse_inside (u b : string) :
  (u = "" \/ (endsNonWs u = true /\ hasChar "," u = false)) ->
  Regex.gsub Regex.commaMatch ", " (u ++ b) = u ++ Regex.gsub Regex.commaMatch ", " b.
Proof.
  induction u as [|c u IH]; intros Hu; [reflexivity|].
  destruct Hu as [Hu | [Hend Hcomma]]; [discriminate|].
  cbn [append]. rewrite gsub_nomatch.
  - rewrite IH; [reflexivity|].
    destruct u as [|d u]; [now left|]. right. split.
    + now rewrite endsNonWs_tail in Hend.
    + cbn [hasChar] in Hcomma. now apply orb_false_iff in Hcomma.
  - change (String c (u ++ b)) with (String c u ++ b). now apply commaMatch_guarded.
Qed.

Lemma collapse_before (a : string) :
  forall b skip,
    (skip <= String.length a)%nat ->
    exists a',
      Regex.gsubFrom Regex.commaMatch ", " skip (a ++ m ++ b)
      = a' ++ m ++ Regex.gsub Regex.commaMatch ", " b.
Proof.
  destruct Hm as [[c0 [r0 [Hm0 [Hws Hc]]]] [Hend Hcomma]].
  induction a as [|c a IH]; intros b skip Hskip.
  - cbn [String.length] in Hskip. assert (skip = 0%nat) by lia. subst skip.
    exists "". cbn [append]. apply collapse_inside. now right.
  - cbn [append Regex.gsubFrom]. destruct skip as [|skip].
    + destruct (Regex.commaMatch (String c (a ++ m ++ b))) as [[|n]|] eqn:E.
      * destruct (IH b 0%nat) as [a' Ha']; [lia|]. exists (String c a').
        now rewrite Ha'.
      * assert (Hn : (S n <= String.length (String c a))%nat).
        { apply (commaMatch_bound c0 (String c a) (r0 ++ b) (S n) Hws Hc).
          rewrite <- E. rewrite Hm0. reflexivity. }
        cbn [String.length] in Hn.
        destruct (IH b n) as [a' Ha']; [lia|]. exists (", " ++ a').
        now rewrite Ha', append_assoc.
      * destruct (IH b 0%nat) as [a' Ha']; [lia|]. exists (String c a').
        now rewrite Ha'.
    + cbn [String.length] in Hskip. apply IH. lia.
Qed.

Lemma collapse_keeps (s : string) :
  Contains m s -> Contains m (Regex.gsub Regex.commaMatch ", " s).
Proof.
  intros [a [b Hs]]. subst s.
  destruct (collapse_before a b 0%nat) as [a' Ha']; [lia|].
  unfold Regex.gsub. rewrite Ha'. now eexists _, _.
Qed.

Lemma endsNonWs_app (a : string) : endsNonWs (a ++ m) = true.
Proof.
  destruct Hm as [[c0 [r0 [Hm0 _]]] [Hend _]].
  induction a as [|c a IH]; [exact Hend|].
  cbn [append]. destruct (a ++ m) as [|d t] eqn:E.
  - destruct a; subst m; discriminate.
  - rewrite endsNonWs_tail. exact IH.
Qed.

Lemma trimEnd_stop (u b : string) :
  endsNonWs u = true -> Js.trimEnd (u ++ b) = u ++ Js.trimEnd b.
Proof.
  induction u as [|c u IH]; intros Hend; [discriminate|].
  destruct u as [|d u].
  - cbn in Hend. apply negb_true_iff in Hend.
    cbn [append Js.trimEnd]. rewrite Hend. now destruct (Js.trimEnd b).
  - rewrite endsNonWs_tail in Hend. specialize (IH Hend).
    change (String c (String d u) ++ b) with (String c (String d u ++ b)).
    cbn [Js.trimEnd]. rewrite IH. reflexivity.
Qed.

Lemma trim_keeps (s : string) : Contains m s -> Contains m (Js.trim s).
Proof.
  intros [a [b Hs]]. subst s. unfold Js.trim.
  destruct Hm as [[c0 [r0 [Hm0 [Hws Hc]]]] [Hend Hcomma]].
  assert (Hstart : Js.trimStart (a ++ m ++ b) = Js.trimStart a ++ m ++ b).
  { rewrite Hm0. cbn [append]. now apply trimStart_stop. }
  rewrite Hstart, <- append_assoc.
  rewrite trimEnd_stop by apply endsNonWs_app.
  exists (Js.trimStart a), (Js.trimEnd b). now rewrite append_assoc.
Qed.

End Protect.

Lemma gsubFrom_chars (matchLen : string -> option nat) (repl : string) (c : ascii)
    (s : string) :
  hasChar c repl = false ->
  forall skip, hasChar c s = false ->
               hasChar c (Regex.gsubFrom matchLen repl skip s) = false.
Proof.
  intros Hrepl. induction s as [|d s IH]; intros skip Hs; [reflexivity|].
  cbn [hasChar] in Hs. apply orb_false_iff in Hs. destruct Hs as [Hd Hs].
  cbn [Regex.gsubFrom]. destruct skip as [|skip]; [|now apply IH].
  destruct (matchLen (String d s)) as [[|n]|].
  - cbn [hasChar]. now rewrite Hd, IH.
  - now rewrite hasChar_app, Hrepl, IH.
  - cbn [hasChar]. now rewrite Hd, IH.
Qed.

Lemma hasChar_trimEnd (c : ascii) (s : string) :
  hasChar c s = false -> hasChar c (Js.trimEnd s) = false.
Proof.
  induction s as [|d s IH]; intros H; [reflexivity|].
  cbn [hasChar] in H. apply orb_false_iff in H. destruct H as [Hd Hs].
  specialize (IH Hs). cbn [Js.trimEnd].
  destruct (Js.trimEnd s) as [|e t].
  - destruct (Js.isWhiteSpace d); [reflexivity|]. cbn [hasChar]. now rewrite Hd.
  - cbn [hasChar] in *. now rewrite Hd, IH.
Qed.

Lemma hasChar_trim (c : ascii) (s : string) :
  hasChar c s = false -> hasChar c (Js.trim s) = false.
Proof.
  intros H. unfold Js.trim. now apply hasChar_trimEnd, hasChar_trimStart.
Qed.

Lemma quoted_protected (k : KnownFont) : protected (quoted (familyName k)).
Proof.
  split; [|split; destruct k; reflexivity].
  exists dquote, (familyName k ++ String dquote "").
  split; [reflexivity|]. split; [reflexivity | discriminate].
Qed.

End CollapseFacts.

Module NormalizeFacts.

Import StringFacts RegexFacts StackFacts StripFacts CollapseFacts.

(** The three substitutions on a flat stack. *)
Lemma substitutions_stack (p0 : string) (items : list (string * string)) :
  flatStack p0 items ->
  exists p3 items3,
    substituteKnown SourceCodePro
      (substituteKnown FiraCode (substituteKnown JetBrainsMono (renderStack p0 items)))
    = renderStack p3 items3
    /\ flatStack p3 items3
    /\ (forall k, In (tokenBody k) (map fst items) ->
                  plainHas (quoted (familyName k)) p3 items3).
Proof.
  intros Hflat.
  destruct (substitute_stack JetBrainsMono p0 items Hflat)
    as [p1 [items1 [E1 [Hflat1 [Hest1 [_ Htok1]]]]]].
  destruct (substitute_stack FiraCode p1 items1 Hflat1)
    as [p2 [items2 [E2 [Hflat2 [Hest2 [Hkeep2 Htok2]]]]]].
  destruct (substitute_stack SourceCodePro p2 items2 Hflat2)
    as [p3 [items3 [E3 [Hflat3 [Hest3 [Hkeep3 _]]]]]].
  exists p3, items3. rewrite E1, E2, E3. split; [reflexivity|]. split; [assumption|].
  intros k Hin. destruct k.
  - apply Hkeep3, Hkeep2, Hest1, Hin.
  - apply Hkeep3, Hest2, Htok1; [discriminate | exact Hin].
  - apply Hest3, Htok2; [discriminate|]. apply Htok1; [discriminate | exact Hin].
Qed.

(** The normalized string of a flat stack, before the fallback. *)
Lemma normalizeCore_flat_stack (p0 : string) (items : list (string * string)) :
  flatStack p0 items ->
  hasChar "(" (normalizeCore (renderStack p0 items)) = false
  /\ (forall k, In (tokenBody k) (map fst items) ->
                Contains (quoted (familyName k)) (normalizeCore (renderStack p0 items))).
Proof.
  intros Hflat. unfold normalizeCore.
  destruct (substitutions_stack p0 items Hflat) as [p3 [items3 [E3 [Hflat3 Hhas]]]].
  cbv zeta. rewrite E3.
  destruct (strip_stack p3 items3 Hflat3) as [E4 [Hopen Hkeep]].
  rewrite E4. split.
  - apply hasChar_trim. unfold Regex.gsub. now apply gsubFrom_chars.
  - intros k Hin.
    apply trim_keeps, collapse_keeps; try apply quoted_protected.
    apply Hkeep; [apply quoted_protected | now apply Hhas].
Qed.

Lemma no_open_excludes (pat s : string) :
  hasChar "(" pat = true -> hasChar "(" s = false -> Regex.includes pat s = false.
Proof.
  intros Hpat Hs. destruct (Regex.includes pat s) eqn:E; [|reflexivity].
  apply includes_iff in E. rewrite (Contains_hasChar "(" pat s E Hpat) in Hs.
  discriminate.
Qed.

Lemma token_has_open (k : KnownFont) : hasChar "(" (token k) = true.
Proof. destruct k; reflexivity. Qed.

End NormalizeFacts.

(** C7 (as stated) fails on strings whose tokens are nested or re-formed:
    a known token inside another [var(...)] is removed with it, so its family
    name is missing; removing a token can join the text around it into a raw
    token, or into a generic family name that suppresses the fallback. *)
Lemma normalizeFontFamily_unflat_inputs :
  (Regex.includes (token FiraCode) "var(var(--font-fira-code))" = true
   /\ Regex.includes (quoted (familyName FiraCode))
        (normalizeFontFamily "var(var(--font-fira-code))") = false)
  /\ (Regex.includes (token FiraCode) "var(--font-fira-code) vvar()ar(--font-fira-code)"
      = true
      /\ Regex.includes (token FiraCode)
           (normalizeFontFamily "var(--font-fira-code) vvar()ar(--font-fira-code)") = true)
  /\ (hasGeneric "sevar(--x)rif" = false
      /\ normalizeFontFamily "sevar(--x)rif" = "serif").
Proof.
  repeat split; vm_compute; reflexivity.
Qed.

(** C7 (amended) — for a font-family string whose parentheses are those of
    flat [var(...)] tokens (plain text without an opening parenthesis,
    interleaved with tokens whose bodies hold no parenthesis): the output
    contains the quoted family name of every known token of the input; it
    contains no raw known token and no [var(] at all; it contains a generic
    family name; and [, monospace] is appended exactly when the string
    normalized so far contains no generic family name. *)
Theorem normalizeFontFamily_flat_stack :
  forall (p0 : string) (items : list (string * string)),
    flatStack p0 items ->
    let input := renderStack p0 items in
    let out := normalizeFontFamily input in
    (forall k, Regex.includes (token k) input = true ->
               Regex.includes (quoted (familyName k)) out = true)
    /\ (forall k, Regex.includes (token k) out = false)
    /\ Regex.includes "var(" out = false
    /\ hasGeneric out = true
    /\ (hasGeneric (normalizeCore input) = false -> out = normalizeCore input ++ ", monospace")
    /\ (hasGeneric (normalizeCore input) = true -> out = normalizeCore input).
Proof.
  intros p0 items Hflat input out.
  destruct (NormalizeFacts.normalizeCore_flat_stack p0 items Hflat) as [Hopen Hnames].
  fold input in Hopen, Hnames.
  assert (Hout : out = if hasGeneric (normalizeCore input)
                       then normalizeCore input
                       else normalizeCore input ++ ", monospace").
  { unfold out, normalizeFontFamily. now destruct (hasGeneric (normalizeCore input)). }
  assert (Hopen' : hasChar "(" out = false).
  { rewrite Hout. destruct (hasGeneric (normalizeCore input)); [exact Hopen|].
    now rewrite StringFacts.hasChar_app, Hopen. }
  split; [|split; [|split; [|split; [|split]]]].
  - intros k Hin. apply (StackFacts.stack_occurrence k p0 items Hflat) in Hin.
    apply StringFacts.includes_iff. rewrite Hout.
    destruct (hasGeneric (normalizeCore input)); [now apply Hnames|].
    apply StringFacts.Contains_app_r. now apply Hnames.
  - intros k. apply NormalizeFacts.no_open_excludes;
      [apply NormalizeFacts.token_has_open | exact Hopen'].
  - apply NormalizeFacts.no_open_excludes; [reflexivity | exact Hopen'].
  - rewrite Hout. destruct (hasGeneric (normalizeCore input)) eqn:Hgen; [exact Hgen|].
    unfold hasGeneric.
    assert (Hmono : Regex.includes "monospace" (normalizeCore input ++ ", monospace") = true).
    { apply StringFacts.includes_iff. exists (normalizeCore input ++ ", "), "".
      now rewrite !StringFacts.append_assoc. }
    now rewrite Hmono.
  - intros Hgen. now rewrite Hout, Hgen.
  - intros Hgen. now rewrite Hout, Hgen.
Qed.

Lemma normalizeFontFamily_flat_stack_witness :
  Regex.includes (quoted "JetBrains Mono")
    (normalizeFontFamily "var(--font-jetbrains-mono), monospace") = true
  /\ Regex.includes "var(" (normalizeFontFamily "var(--font-jetbrains-mono), monospace")
     = false.
Proof.
  assert (Hflat : flatStack "" [("--font-jetbrains-mono", ", monospace")]).
  { split; [reflexivity|]. constructor; [|constructor]. repeat split. }
  pose proof (normalizeFontFamily_flat_stack "" [("--font-jetbrains-mono", ", monospace")]
                Hflat) as [Hname [_ [Hvar _]]].
  split; [|exact Hvar].
  apply (Hname JetBrainsMono). reflexivity.
Defined.

(** * Further properties of the code *)

(** ** More on [wrapText] *)

Section WrapContent.

Variable measureText : Z -> string -> string -> Q.
Variable maxWidth : Q.
Variable fontSize : Z.
Variable fontFamily : string.

Let splitChars' := splitChars measureText maxWidth fontSize fontFamily.
Let splitLongWord' := splitLongWord measureText maxWidth fontSize fontFamily.
Let wordStep' := wordStep measureText maxWidth fontSize fontFamily.
Let filled (al : list string) : Prop := Forall (fun l => l <> "") al.

Lemma splitChars_filled (word : string) :
  forall al chunk, filled al -> filled (fst (splitChars' word al chunk)).
Proof.
  unfold splitChars'.
  induction word as [|ch rest IH]; intros al chunk Hal; simpl; [assumption|].
  destruct (Js.gtb _ maxWidth).
  - destruct (Nat.eqb (String.length chunk) 0) eqn:Hlen.
    + apply IH. apply Forall_push; [assumption | discriminate].
    + apply IH. apply Forall_push; [assumption|].
      intros Hc. subst chunk. discriminate.
  - now apply IH.
Qed.

Lemma guarded_push_filled (st : wrapState) :
  filled (allLines st) ->
  filled (allLines (if Js.truthy (currentLine st) then pushLine st else st))
  /\ currentLine (if Js.truthy (currentLine st) then pushLine st else st) = "".
Proof.
  intros Hal. destruct (Js.truthy (currentLine st)) eqn:Hcur.
  - rewrite pushLine_truthy by exact Hcur. simpl. split; [|reflexivity].
    apply Forall_push; [assumption|]. now apply truthy_true.
  - split; [assumption|]. now apply truthy_false.
Qed.

Lemma splitLongWord_filled (word : string) (st : wrapState) :
  filled (allLines st) -> filled (allLines (splitLongWord' word st)).
Proof.
  intros Hal. unfold splitLongWord', splitLongWord.
  pose proof (splitChars_filled word (allLines st) "" Hal) as Hal'.
  unfold splitChars' in Hal'.
  destruct (splitChars measureText maxWidth fontSize fontFamily word (allLines st) "")
    as [al chunk]; simpl in *.
  destruct (Js.truthy chunk); [|assumption].
  destruct (Js.truthy (currentLine st)) eqn:Hcur; [|assumption].
  destruct (Qle_bool _ maxWidth); simpl; [assumption|].
  rewrite pushLine_truthy by exact Hcur. simpl.
  apply Forall_push; [assumption|]. now apply truthy_true.
Qed.

Lemma wordStep_filled (st : wrapState) (word : string) :
  filled (allLines st) -> filled (allLines (wordStep' st word)).
Proof.
  intros Hal. unfold wordStep', wordStep.
  destruct (Qle_bool _ maxWidth); simpl; [assumption|].
  destruct (guarded_push_filled st Hal) as [Hal1 _].
  destruct (Qle_bool _ maxWidth); simpl; [assumption|].
  now apply splitLongWord_filled.
Qed.

Lemma words_filled (words : list string) :
  forall st, filled (allLines st) -> filled (allLines (fold_left wordStep' words st)).
Proof.
  induction words as [|w ws IH]; intros st Hal; simpl; [assumption|].
  apply IH. now apply wordStep_filled.
Qed.

(** X1 — a paragraph that is not blank contributes no empty entry: the
    blank-line entry appears only for blank paragraphs. *)
Theorem nonblank_paragraph_has_no_empty_line :
  forall p : string,
    Js.trim p <> "" ->
    Forall (fun l => l <> "") (paragraphBlock measureText maxWidth fontSize fontFamily p).
Proof.
  intros p Hp. unfold paragraphBlock, wrapParagraph. cbn [Nat.ltb Nat.leb].
  apply String.eqb_neq in Hp. rewrite Hp.
  pose proof (words_filled (Js.split Js.space p) (mkState [] "") (Forall_nil _)) as H.
  destruct (guarded_push_filled _ H) as [H' _]. unfold wordStep' in H'.
  destruct (Js.truthy _); assumption.
Qed.

(** The text held by a state: the pushed lines, then the pending line. *)
Let content (st : wrapState) : string := concatLines (allLines st) ++ currentLine st.

Lemma concatLines_cons (l : string) (al : list string) :
  concatLines (l :: al) = l ++ concatLines al.
Proof.
  unfold concatLines. destruct al as [|l' al]; cbn [String.concat].
  - now rewrite StringFacts.append_nil_r.
  - reflexivity.
Qed.

Lemma concatLines_push (al : list string) (x : string) :
  concatLines (Js.push al x) = concatLines al ++ x.
Proof.
  unfold Js.push. induction al as [|l al IH]; cbn [app].
  - rewrite concatLines_cons. cbn. now rewrite StringFacts.append_nil_r.
  - rewrite !concatLines_cons, IH. now rewrite StringFacts.append_assoc.
Qed.

Lemma nonSpaces_app (s t : string) : nonSpaces (s ++ t) = nonSpaces s ++ nonSpaces t.
Proof.
  induction s as [|c s IH]; cbn [append nonSpaces]; [reflexivity|].
  destruct (Ascii.eqb c Js.space); cbn [append]; now rewrite IH.
Qed.

Lemma splitChars_content (word : string) :
  forall al chunk,
    concatLines (fst (splitChars' word al chunk)) ++ snd (splitChars' word al chunk)
    = concatLines al ++ chunk ++ word.
Proof.
  unfold splitChars'.
  induction word as [|ch rest IH]; intros al chunk; simpl.
  - now rewrite StringFacts.append_nil_r.
  - destruct (Js.gtb _ maxWidth).
    + destruct (Nat.eqb (String.length chunk) 0) eqn:Hlen.
      * rewrite IH, concatLines_push.
        destruct chunk; [|discriminate]. now rewrite !StringFacts.append_assoc.
      * rewrite IH, concatLines_push. now rewrite !StringFacts.append_assoc.
    + rewrite IH. now rewrite !StringFacts.append_assoc.
Qed.

Lemma splitLongWord_content (word : string) (st : wrapState) :
  currentLine st = "" ->
  content (splitLongWord' word st) = concatLines (allLines st) ++ word.
Proof.
  intros Hcur. unfold content, splitLongWord', splitLongWord. rewrite Hcur.
  pose proof (splitChars_content word (allLines st) "") as H. unfold splitChars' in H.
  destruct (splitChars measureText maxWidth fontSize fontFamily word (allLines st) "")
    as [al chunk]; simpl in *.
  destruct (Js.truthy chunk) eqn:Hchunk; simpl; [exact H|].
  apply truthy_false in Hchunk. subst chunk. exact H.
Qed.

(** One word more: the text held grows by the word, up to spaces. *)
Lemma wordStep_content (st : wrapState) (word : string) :
  nonSpaces (content (wordStep' st word)) = nonSpaces (content st) ++ nonSpaces word.
Proof.
  unfold wordStep', wordStep.
  destruct (Qle_bool _ maxWidth); simpl.
  - unfold content. simpl. rewrite !nonSpaces_app.
    destruct (Js.truthy (currentLine st)); cbn [nonSpaces]; simpl;
      now rewrite !StringFacts.append_assoc.
  - set (st1 := if Js.truthy (currentLine st) then pushLine st else st).
    assert (H1 : concatLines (allLines st1) = content st /\ currentLine st1 = "").
    { unfold st1, content. destruct (Js.truthy (currentLine st)) eqn:Hcur.
      - rewrite pushLine_truthy by exact Hcur. simpl. now rewrite concatLines_push.
      - apply truthy_false in Hcur. rewrite Hcur.
        now rewrite StringFacts.append_nil_r. }
    destruct H1 as [Hal1 Hcur1].
    destruct (Qle_bool _ maxWidth).
    + unfold content. simpl. now rewrite nonSpaces_app, Hal1.
    + fold splitLongWord'. rewrite splitLongWord_content by exact Hcur1.
      now rewrite nonSpaces_app, Hal1.
Qed.

Lemma words_content (words : list string) :
  forall st,
    nonSpaces (content (fold_left wordStep' words st))
    = nonSpaces (content st) ++ nonSpaces (concatLines words).
Proof.
  induction words as [|w ws IH]; intros st; simpl.
  - now rewrite StringFacts.append_nil_r.
  - rewrite IH, wordStep_content, StringFacts.append_assoc. f_equal.
    now rewrite concatLines_cons, nonSpaces_app.
Qed.

Lemma split_space_content (s : string) :
  nonSpaces (concatLines (Js.split Js.space s)) = nonSpaces s.
Proof.
  induction s as [|c s IH]; [reflexivity|].
  cbn [Js.split nonSpaces]. destruct (Ascii.eqb c Js.space) eqn:Hc.
  - now rewrite concatLines_cons.
  - destruct (Js.split Js.space s) as [|w ws].
    + cbn in IH. cbn. rewrite Hc. now rewrite <- IH.
    + rewrite concatLines_cons in *. cbn [append nonSpaces]. rewrite Hc.
      now rewrite <- IH.
Qed.

(** X2 — wrapping a paragraph that is not blank loses and reorders no
    character: its entries, put end to end, hold the characters of the
    paragraph other than spaces, in order. *)
Theorem paragraph_characters_preserved :
  forall p : string,
    Js.trim p <> "" ->
    nonSpaces (concatLines (paragraphBlock measureText maxWidth fontSize fontFamily p))
    = nonSpaces p.
Proof.
  intros p Hp. unfold paragraphBlock, wrapParagraph. cbn [Nat.ltb Nat.leb].
  apply String.eqb_neq in Hp. rewrite Hp.
  pose proof (words_content (Js.split Js.space p) (mkState [] "")) as H.
  unfold content in H. cbn [allLines currentLine] in H.
  rewrite split_space_content in H. unfold wordStep' in H.
  destruct (fold_left _ (Js.split Js.space p) (mkState [] "")) as [al cur].
  cbn [allLines currentLine] in *.
  destruct (Js.truthy cur) eqn:Hcur.
  - rewrite pushLine_truthy by exact Hcur. cbn [allLines].
    rewrite concatLines_push. exact H.
  - apply truthy_false in Hcur. subst cur.
    rewrite StringFacts.append_nil_r in H. exact H.
Qed.

End WrapContent.

(** ** Text that fits *)

Lemma join_cons (w : string) (ws : list string) :
  String.concat " " (w :: ws)
  = match ws with
    | [] => w
    | _ :: _ => w ++ " " ++ String.concat " " ws
    end.
Proof. destruct ws; reflexivity. Qed.

Lemma join_split (s : string) : String.concat " " (Js.split Js.space s) = s.
Proof.
  induction s as [|c s IH]; [reflexivity|].
  cbn [Js.split]. destruct (Ascii.eqb c Js.space) eqn:Hc.
  - apply Ascii.eqb_eq in Hc. subst c.
    pose proof (split_not_nil Js.space s) as Hne. rewrite join_cons.
    destruct (Js.split Js.space s) as [|w ws]; [contradiction|].
    rewrite IH. reflexivity.
  - destruct (Js.split Js.space s) as [|w ws]; [now rewrite <- IH|].
    rewrite join_cons in *. destruct ws as [|w' ws]; cbn [append]; now rewrite <- IH.
Qed.

Lemma split_words_no_space (s : string) :
  Forall (fun w => dropLeadingSpaces w = w) (Js.split Js.space s).
Proof.
  induction s as [|c s IH]; [repeat constructor|].
  cbn [Js.split]. destruct (Ascii.eqb c Js.space) eqn:Hc.
  - constructor; [reflexivity | assumption].
  - destruct (Js.split Js.space s) as [|w ws].
    + constructor; [|constructor]. cbn. now rewrite Hc.
    + inversion IH; subst. constructor; [|assumption]. cbn. now rewrite Hc.
Qed.

Lemma join_snoc (done : list string) (w : string) :
  String.concat " " (done ++ [w])
  = match done with
    | [] => w
    | _ :: _ => String.concat " " done ++ " " ++ w
    end.
Proof.
  induction done as [|d done IH]; [reflexivity|].
  cbn [app]. rewrite !join_cons. destruct done as [|d' done]; [reflexivity|].
  cbn [app] in *. rewrite IH. now rewrite !StringFacts.append_assoc.
Qed.

Lemma join_prefix (done rest : list string) :
  exists t, String.concat " " (done ++ rest) = String.concat " " done ++ t.
Proof.
  induction done as [|d done IH].
  - now exists (String.concat " " rest).
  - destruct IH as [t Ht]. cbn [app]. rewrite !join_cons.
    destruct done as [|d' done].
    + cbn [app]. destruct rest as [|r rest];
        [exists ""; now rewrite StringFacts.append_nil_r|].
      now exists (" " ++ String.concat " " (r :: rest)).
    + exists t. cbn [app] in *. rewrite Ht. now rewrite !StringFacts.append_assoc.
Qed.

Lemma dropLeadingSpaces_app (a b : string) :
  dropLeadingSpaces (a ++ b)
  = if String.eqb (dropLeadingSpaces a) "" then dropLeadingSpaces b
    else dropLeadingSpaces a ++ b.
Proof.
  induction a as [|c a IH]; [reflexivity|].
  cbn [append dropLeadingSpaces]. destruct (Ascii.eqb c Js.space); [exact IH|].
  reflexivity.
Qed.

Lemma dropLeadingSpaces_suffix (s : string) : Contains (dropLeadingSpaces s) s.
Proof.
  induction s as [|c s IH]; [now exists "", ""|].
  cbn [dropLeadingSpaces]. destruct (Ascii.eqb c Js.space).
  - destruct IH as [a [b Hs]]. exists (String c a), b. cbn [append]. now rewrite <- Hs.
  - exists "", "". cbn [append]. now rewrite StringFacts.append_nil_r.
Qed.

Lemma Contains_trans (a b c : string) : Contains a b -> Contains b c -> Contains a c.
Proof.
  intros [x [y Hb]] [u [v Hc]]. subst b c. exists (u ++ x), (y ++ v).
  now rewrite !StringFacts.append_assoc.
Qed.

Lemma dropLeadingSpaces_empty (s : string) :
  dropLeadingSpaces s = "" -> Js.trim s = "".
Proof.
  intros H. unfold Js.trim.
  assert (Hs : Js.trimStart s = "").
  { induction s as [|c s IH]; [reflexivity|].
    cbn [dropLeadingSpaces] in H. destruct (Ascii.eqb c Js.space) eqn:Hc; [|discriminate].
    apply Ascii.eqb_eq in Hc. subst c. cbn. now apply IH. }
  now rewrite Hs.
Qed.

Section WrapFits.

Variable measureText : Z -> string -> string -> Q.
Variable maxWidth : Q.
Variable fontSize : Z.
Variable fontFamily : string.

Let wordStep' := wordStep measureText maxWidth fontSize fontFamily.

Lemma words_all_fit (ws : list string) :
  forall done,
    Forall (fun w => dropLeadingSpaces w = w) ws ->
    (forall s, Contains s (String.concat " " (done ++ ws)) ->
               (measure measureText fontSize fontFamily s <= maxWidth)%Q) ->
    fold_left wordStep' ws (mkState [] (dropLeadingSpaces (String.concat " " done)))
    = mkState [] (dropLeadingSpaces (String.concat " " (done ++ ws))).
Proof.
  induction ws as [|w ws IH]; intros done Hws Hfit; [now rewrite app_nil_r|].
  inversion Hws as [|w0 ws0 Hw Hrest]; subst.
  cbn [fold_left].
  assert (Hnext : currentLine (mkState [] (dropLeadingSpaces (String.concat " " done)))
                  ++ (if Js.truthy (dropLeadingSpaces (String.concat " " done))
                      then " " else "") ++ w
                  = dropLeadingSpaces (String.concat " " (done ++ [w]))).
  { cbn [currentLine]. rewrite join_snoc. destruct done as [|d done].
    - cbn. now rewrite Hw.
    - rewrite dropLeadingSpaces_app. unfold Js.truthy.
      destruct (String.eqb (dropLeadingSpaces (String.concat " " (d :: done))) "") eqn:E.
      + apply String.eqb_eq in E. rewrite E. cbn. now rewrite Hw.
      + reflexivity. }
  assert (Hstep : wordStep' (mkState [] (dropLeadingSpaces (String.concat " " done))) w
                  = mkState [] (dropLeadingSpaces (String.concat " " (done ++ [w])))).
  { unfold wordStep', wordStep. cbn [currentLine allLines] in *. rewrite Hnext.
    assert (Hle : (measure measureText fontSize fontFamily
                     (dropLeadingSpaces (String.concat " " (done ++ [w]))) <= maxWidth)%Q).
    { apply Hfit. eapply Contains_trans; [apply dropLeadingSpaces_suffix|].
      destruct (join_prefix (done ++ [w])%list ws) as [t Ht].
      rewrite <- app_assoc in Ht. cbn [app] in Ht. rewrite Ht.
      exists "", t. reflexivity. }
    apply Qle_bool_iff in Hle. now rewrite Hle. }
  rewrite Hstep. rewrite (IH (done ++ [w])%list); [| assumption |].
  - now rewrite <- app_assoc.
  - intros s Hs. apply Hfit. now rewrite <- app_assoc in Hs.
Qed.

(** X3 — when every substring of a paragraph that is not blank fits the
    width, the paragraph is wrapped to exactly one line: the paragraph
    without its leading spaces. *)
Theorem fitting_paragraph_is_one_line :
  forall p : string,
    Js.trim p <> "" ->
    (forall s, Contains s p -> (measure measureText fontSize fontFamily s <= maxWidth)%Q) ->
    paragraphBlock measureText maxWidth fontSize fontFamily p = [dropLeadingSpaces p].
Proof.
  intros p Hp Hfit. unfold paragraphBlock, wrapParagraph. cbn [Nat.ltb Nat.leb].
  assert (Hne : dropLeadingSpaces p <> "").
  { intros H. apply Hp. now apply dropLeadingSpaces_empty. }
  apply String.eqb_neq in Hp. rewrite Hp.
  pose proof (words_all_fit (Js.split Js.space p) [] (split_words_no_space p)) as H.
  cbn [app] in H. rewrite join_split in H. specialize (H Hfit).
  cbn [String.concat dropLeadingSpaces] in H. unfold wordStep' in H. rewrite H.
  cbn [currentLine]. apply truthy_true in Hne. rewrite Hne.
  rewrite pushLine_truthy by exact Hne. reflexivity.
Qed.

End WrapFits.

Lemma fitting_paragraph_is_one_line_witness :
  paragraphBlock monoMeasure 904 16 "monospace" "  a b" = ["a b"].
Proof.
  apply (fitting_paragraph_is_one_line monoMeasure 904 16 "monospace" "  a b").
  - discriminate.
  - intros s [a [b Hs]].
    assert (Hlen : (String.length s <= 5)%nat).
    { apply (f_equal String.length) in Hs. rewrite !StringFacts.length_append in Hs.
      cbn in Hs. lia. }
    unfold measure, monoMeasure, Qle. cbn [Qnum Qden inject_Z Qmult]. lia.
Defined.

Lemma nonblank_paragraph_has_no_empty_line_witness :
  Forall (fun l => l <> "") (paragraphBlock monoMeasure 60 10 "monospace" "ab  cd").
Proof.
  apply (nonblank_paragraph_has_no_empty_line monoMeasure 60 10 "monospace" "ab  cd").
  discriminate.
Defined.

Lemma paragraph_characters_preserved_witness :
  nonSpaces (concatLines (paragraphBlock monoMeasure 60 10 "monospace"
                            "hello wonderful world"))
  = "hellowonderfulworld".
Proof.
  exact (paragraph_characters_preserved monoMeasure 60 10 "monospace"
           "hello wonderful world" ltac:(discriminate)).
Defined.

(** ** [measureWrapped] against [drawText] *)

Section MeasureAgrees.

Variable measureText : Z -> string -> string -> Q.
Variable maxWidth : Q.
Variable fontSize : Z.
Variable fontFamily : string.

Let wordStep' := wordStep measureText maxWidth fontSize fontFamily.
Let measureStep' := measureStep measureText maxWidth fontSize fontFamily.
Let block := paragraphBlock measureText maxWidth fontSize fontFamily.
Let lh := lineHeightOf fontSize.
Let fits (w : string) : Prop := (measure measureText fontSize fontFamily w <= maxWidth)%Q.

Lemma step_agrees (al : list string) (cur : string) (t : Q) (w : string) :
  fits w ->
  snd (measureStep' (t, cur) w) = currentLine (wordStep' (mkState al cur) w)
  /\ exists k,
       List.length (allLines (wordStep' (mkState al cur) w)) = (List.length al + k)%nat
       /\ (fst (measureStep' (t, cur) w) == t + inject_Z (Z.of_nat k) * lh)%Q.
Proof.
  intros Hw. unfold measureStep', measureStep, wordStep', wordStep. cbn [currentLine allLines].
  destruct (Qle_bool (measure measureText fontSize fontFamily
                        (cur ++ (if Js.truthy cur then " " else "") ++ w)) maxWidth) eqn:Hfit.
  - cbn [fst snd currentLine allLines]. split; [reflexivity|].
    exists 0%nat. split; [lia|]. change (inject_Z (Z.of_nat 0)) with 0%Q. ring.
  - assert (Hcur : Js.truthy cur = true).
    { destruct (Js.truthy cur) eqn:E; [reflexivity|].
      apply truthy_false in E. subst cur. cbn in Hfit.
      apply Qle_bool_iff in Hw. unfold fits in Hw. congruence. }
    rewrite Hcur. rewrite pushLine_truthy by exact Hcur. cbn [allLines currentLine].
    apply Qle_bool_iff in Hw. rewrite Hw. cbn [fst snd currentLine allLines].
    split; [reflexivity|]. exists 1%nat. split.
    + unfold Js.push. rewrite length_app. reflexivity.
    + fold lh. change (inject_Z (Z.of_nat 1)) with 1%Q. ring.
Qed.

Lemma words_agree (words : list string) :
  forall al cur t,
    Forall fits words ->
    snd (fold_left measureStep' words (t, cur))
    = currentLine (fold_left wordStep' words (mkState al cur))
    /\ exists k,
         List.length (allLines (fold_left wordStep' words (mkState al cur)))
         = (List.length al + k)%nat
         /\ (fst (fold_left measureStep' words (t, cur)) == t + inject_Z (Z.of_nat k) * lh)%Q.
Proof.
  induction words as [|w ws IH]; intros al cur t Hall.
  - cbn [fold_left fst snd allLines currentLine]. split; [reflexivity|]. exists 0%nat.
    split; [lia|]. change (inject_Z (Z.of_nat 0)) with 0%Q. ring.
  - inversion Hall as [|w0 ws0 Hw Hrest]; subst. cbn [fold_left].
    destruct (step_agrees al cur t w Hw) as [Hc [k1 [Hl1 Ht1]]].
    destruct (measureStep' (t, cur) w) as [t1 cur1] eqn:Em.
    destruct (wordStep' (mkState al cur) w) as [al1 cur1'] eqn:Ew.
    cbn [fst snd currentLine allLines] in *. subst cur1'.
    destruct (IH al1 cur1 t1 Hrest) as [Hc2 [k2 [Hl2 Ht2]]].
    split; [exact Hc2|]. exists (k1 + k2)%nat. split; [lia|].
    rewrite Ht2, Ht1, Nat2Z.inj_add, inject_Z_plus. ring.
Qed.

Lemma paragraph_agrees (t : Q) (idx : nat) (p : string) :
  Forall fits (Js.split Js.space p) ->
  (measureParagraph measureText maxWidth fontSize fontFamily t idx p
   == t + (if Nat.ltb 0 idx then lh * (5 # 10) else 0)
      + inject_Z (Z.of_nat (List.length (block p))) * lh)%Q.
Proof.
  intros Hall. unfold measureParagraph, block, paragraphBlock, wrapParagraph.
  cbv zeta. fold lh. change (Nat.ltb 0 0) with false. cbv iota.
  set (t1 := if Nat.ltb 0 idx then (t + lh * (5 # 10))%Q else t).
  assert (Ht1 : (t1 == t + (if Nat.ltb 0 idx then lh * (5 # 10) else 0))%Q).
  { unfold t1. destruct (Nat.ltb 0 idx); ring. }
  destruct (String.eqb (Js.trim p) "").
  - unfold Js.push. cbn [app List.length]. change (inject_Z (Z.of_nat 1)) with 1%Q.
    rewrite Ht1. ring.
  - destruct (words_agree (Js.split Js.space p) [] "" t1 Hall) as [Hc [k [Hl Ht]]].
    fold measureStep'. fold wordStep'.
    destruct (fold_left measureStep' (Js.split Js.space p) (t1, "")) as [t2 cur2].
    destruct (fold_left wordStep' (Js.split Js.space p) (mkState [] "")) as [al2 cur2'].
    cbn [fst snd currentLine allLines List.length] in *. subst cur2'.
    destruct (Js.truthy cur2) eqn:Hcur.
    + rewrite pushLine_truthy by exact Hcur. cbn [allLines currentLine].
      unfold Js.push. rewrite length_app, Hl. cbn [List.length Nat.add].
      rewrite Ht, Ht1, Nat2Z.inj_add, inject_Z_plus.
      change (inject_Z (Z.of_nat 1)) with 1%Q. ring.
    + rewrite Hl, Ht, Ht1. cbn [Nat.add]. ring.
Qed.

Lemma drawAdvance_cons (l : string) (rest : list string) :
  drawAdvance lh (l :: rest)
  = ((if String.eqb l PARA_BREAK then lh * (5 # 10) else lh) + drawAdvance lh rest)%Q.
Proof. reflexivity. Qed.

Lemma drawAdvance_block (b rest : list string) :
  ~ In PARA_BREAK b ->
  (drawAdvance lh (b ++ rest)
   == inject_Z (Z.of_nat (List.length b)) * lh + drawAdvance lh rest)%Q.
Proof.
  induction b as [|l b IH]; intros Hnot.
  - cbn [app List.length]. change (inject_Z (Z.of_nat 0)) with 0%Q. ring.
  - cbn [app List.length]. rewrite drawAdvance_cons.
    destruct (String.eqb l PARA_BREAK) eqn:El.
    + apply String.eqb_eq in El. exfalso. apply Hnot. now left.
    + rewrite IH by (intros Hin; apply Hnot; now right).
      rewrite Nat2Z.inj_succ, <- Z.add_1_r, inject_Z_plus.
      change (inject_Z 1) with 1%Q. ring.
Qed.

Lemma paragraphs_agree (ps : list string) :
  forall idx t,
    Forall (fun p => Forall fits (Js.split Js.space p) /\ ~ In PARA_BREAK (block p)) ps ->
    (measureEach measureText maxWidth fontSize fontFamily ps (S idx) t
     == t + drawAdvance lh (flat_map (fun b' => PARA_BREAK :: b') (map block ps)))%Q.
Proof.
  induction ps as [|p ps IH]; intros idx t Hall.
  - cbn [measureEach map flat_map]. change (drawAdvance lh []) with 0%Q. ring.
  - inversion Hall as [|p0 ps0 [Hfit Hnot] Hrest]; subst.
    cbn [measureEach map flat_map]. rewrite IH by assumption.
    rewrite paragraph_agrees by assumption. cbn [Nat.ltb Nat.leb].
    change ((PARA_BREAK :: block p) ++ ?x)%list with (PARA_BREAK :: (block p ++ x))%list.
    rewrite drawAdvance_cons, String.eqb_refl.
    rewrite drawAdvance_block by assumption. ring.
Qed.

Lemma measureWrapped_advance (text : string) :
  Forall (fun p => Forall fits (Js.split Js.space p) /\ ~ In PARA_BREAK (block p))
         (Js.split Js.newline text) ->
  (measureWrapped measureText maxWidth fontSize fontFamily text
   == drawAdvance lh (lines (wrapText measureText maxWidth fontSize fontFamily text)))%Q.
Proof.
  intros Hall. rewrite wrapText_blocks. unfold measureWrapped. fold block.
  destruct (Js.split Js.newline text) as [|p ps]; [reflexivity|].
  inversion Hall as [|p0 ps0 [Hfit0 Hnot0] Hrest]; subst.
  cbn [measureEach map joinParagraphs]. rewrite paragraphs_agree by assumption.
  rewrite paragraph_agrees by assumption. cbn [Nat.ltb Nat.leb].
  rewrite drawAdvance_block by assumption. ring.
Qed.

(** X4 — when every word of the text fits the width and no wrapped line of
    the text equals the marker, the height that [measureWrapped] returns is
    the vertical advance of [drawText] over the wrapped lines. *)
Theorem measureWrapped_agrees_when_words_fit :
  forall text : string,
    (forall p w, In p (Js.split Js.newline text) -> In w (Js.split Js.space p) ->
                 (measure measureText fontSize fontFamily w <= maxWidth)%Q) ->
    (forall p, In p (Js.split Js.newline text) ->
               ~ In PARA_BREAK (paragraphBlock measureText maxWidth fontSize fontFamily p)) ->
    (measureWrapped measureText maxWidth fontSize fontFamily text
     == drawAdvance (lineHeightOf fontSize)
          (lines (wrapText measureText maxWidth fontSize fontFamily text)))%Q.
Proof.
  intros text Hfit Hnot. apply measureWrapped_advance.
  apply Forall_forall. intros p Hp. split; [|now apply Hnot].
  apply Forall_forall. intros w Hw. now apply (Hfit p w).
Qed.

End MeasureAgrees.

Lemma measureWrapped_agrees_when_words_fit_witness :
  (measureWrapped monoMeasure 60 10 "monospace" "ab cd efgh ij"
   == drawAdvance (lineHeightOf 10)
        (lines (wrapText monoMeasure 60 10 "monospace" "ab cd efgh ij")))%Q.
Proof.
  apply (measureWrapped_agrees_when_words_fit monoMeasure 60 10 "monospace").
  - intros p w Hp Hw. cbn in Hp. destruct Hp as [Hp | []]. subst p.
    cbn in Hw. destruct Hw as [Hw | [Hw | [Hw | [Hw | []]]]]; subst w;
      vm_compute; discriminate.
  - intros p Hp. cbn in Hp. destruct Hp as [Hp | []]. subst p.
    vm_compute. intros [H | [H | []]]; discriminate.
Defined.

(** ** Where the text ends *)

Lemma drawAdvance_le_lines (lineHeight : Q) (ls : list string) :
  (0 <= lineHeight)%Q ->
  (0 <= drawAdvance lineHeight ls)%Q
  /\ (drawAdvance lineHeight ls <= inject_Z (Z.of_nat (List.length ls)) * lineHeight)%Q.
Proof.
  intros Hlh. induction ls as [|l ls [IH0 IH]].
  - cbn [List.length]. change (drawAdvance lineHeight []) with 0%Q.
    change (inject_Z (Z.of_nat 0)) with 0%Q. split; lra.
  - cbn [List.length]. rewrite Nat2Z.inj_succ, <- Z.add_1_r, inject_Z_plus.
    change (inject_Z 1) with 1%Q.
    change (drawAdvance lineHeight (l :: ls))
      with ((if String.eqb l PARA_BREAK then lineHeight * (5 # 10) else lineHeight)
            + drawAdvance lineHeight ls)%Q.
    set (n := inject_Z (Z.of_nat (List.length ls))) in *.
    set (a := drawAdvance lineHeight ls) in *.
    assert (Hexp : ((n + 1) * lineHeight == n * lineHeight + lineHeight)%Q) by ring.
    rewrite Hexp. set (nl := (n * lineHeight)%Q) in *.
    destruct (String.eqb l PARA_BREAK); split; lra.
Qed.

Lemma lineHeightOf_nonneg (fs : Z) : 0 <= fs -> (0 <= lineHeightOf fs)%Q.
Proof.
  intros H. unfold lineHeightOf. apply Qmult_le_0_compat; [|discriminate].
  unfold Qle. simpl. lia.
Qed.

(** When the height used for centring is not below the advance of
    [drawText], the text ends at least [padding + 32] above the bottom of the
    canvas. *)
Lemma text_end_when_measured (measureText : Z -> string -> string -> Q)
    (text : string) (opts : ImageOptions) :
  0 <= padding opts ->
  0 <= fontSize opts ->
  exists r,
    generateImage measureText text opts = Some r
    /\ wrapped r
       = wrapText measureText (inject_Z (textWidthOf opts)) (workingFontSize r)
           (normalizeFontFamily (fontFamily opts)) text
    /\ totalTextHeight r
       = measureWrapped measureText (inject_Z (textWidthOf opts)) (workingFontSize r)
           (normalizeFontFamily (fontFamily opts)) text
    /\ cardHeight r = (dynamicHeight r - 96)%Q
    /\ ((drawAdvance (lineHeightOf (workingFontSize r)) (lines (wrapped r))
         <= totalTextHeight r)%Q ->
        (currentY (drawn r) + inject_Z (padding opts) + 32 <= dynamicHeight r)%Q).
Proof.
  intros Hpad Hfs.
  destruct (generateImage_total measureText text opts)
    as [r [Hr [Hfit [Hwrap [Hth [Hdyn [_ [_ [Htotal [Hstart Hdraw]]]]]]]]]].
  exists r. split; [exact Hr|]. split; [exact Hwrap|]. split; [exact Htotal|].
  split.
  { unfold generateImage in Hr.
    destruct (if autoFit opts then _ else _) as [working|]; [|discriminate].
    inversion Hr. reflexivity. }
  intros Hmeasure.
  assert (Hwork : 0 <= workingFontSize r).
  { destruct (autoFit opts).
    - destruct (autoFitSize_total measureText (normalizeFontFamily (fontFamily opts))
                  (sampleLineOf text) (textWidthOf opts) (fontSize opts)) as [s [Hs Hlow]].
      rewrite Hfit in Hs. inversion Hs; subst s. lia.
    - lia. }
  pose proof (lineHeightOf_nonneg _ Hwork) as Hlh.
  destruct (drawAdvance_le_lines _ (lines (wrapped r)) Hlh) as [Hadv0 Hadv].
  destruct (drawText_paints measureText text (inject_Z (48 + padding opts))
              (Qmax (inject_Z (48 + 80)) (startY r))
              (inject_Z (width opts - 96 - padding opts * 2))
              (workingFontSize r) (normalizeFontFamily (fontFamily opts))
              (Some AlignCenter)) as [_ Hy].
  rewrite <- Hdraw, <- Hwrap in Hy.
  assert (Hextra : (0 <= inject_Z (Z.max 0 (Z.of_nat (paragraphCount (wrapped r)) - 1))
                        * lineHeightOf (workingFontSize r) * (5 # 10))%Q).
  { apply Qmult_le_0_compat; [|discriminate].
    apply Qmult_le_0_compat; [|exact Hlh]. unfold Qle. simpl. lia. }
  pose proof (Q.le_max_r (inject_Z (height opts))
                (textHeight r + inject_Z (padding opts * 2) + 160)) as Hfloor.
  rewrite <- Hdyn in Hfloor.
  assert (Hp2 : (inject_Z (padding opts * 2) == 2 * inject_Z (padding opts))%Q).
  { rewrite inject_Z_mult. change (inject_Z 2) with 2%Q. ring. }
  assert (Hp0 : (0 <= inject_Z (padding opts))%Q) by (unfold Qle; simpl; lia).
  rewrite Hp2 in Hfloor. rewrite Hth in Hfloor.
  set (A := drawAdvance (lineHeightOf (workingFontSize r)) (lines (wrapped r))) in *.
  set (L := (inject_Z (Z.of_nat (List.length (lines (wrapped r))))
             * lineHeightOf (workingFontSize r))%Q) in *.
  set (E := (inject_Z (Z.max 0 (Z.of_nat (paragraphCount (wrapped r)) - 1))
             * lineHeightOf (workingFontSize r) * (5 # 10))%Q) in *.
  set (P := inject_Z (padding opts)) in *.
  set (D := dynamicHeight r) in *. set (T := totalTextHeight r) in *.
  rewrite Hy.
  assert (Hs : (startY r == 48 + (D - 96 - T) / 2)%Q) by (rewrite Hstart; reflexivity).
  change (inject_Z (48 + 80)) with 128%Q.
  destruct (Q.max_spec 128 (startY r)) as [[Hlt Hmax] | [Hge Hmax]]; rewrite Hmax.
  - rewrite Hs.
    assert (Hhalf : ((D - 96 - T) / 2 == (D - 96 - T) * (1 # 2))%Q) by (field).
    rewrite Hhalf. lra.
  - lra.
Qed.

(** X5 — for a non-negative padding and font size, when every word of the
    text fits the text width at the working font size and no wrapped line
    equals the marker, the text is not clipped: it ends at least
    [padding + 32] above the bottom of the canvas, hence inside the card
    when the padding is at least 16. *)
Theorem text_is_not_clipped_when_words_fit :
  forall (measureText : Z -> string -> string -> Q) (text : string) (opts : ImageOptions),
    0 <= padding opts ->
    0 <= fontSize opts ->
    exists r,
      generateImage measureText text opts = Some r
      /\ ((forall p w, In p (Js.split Js.newline text) -> In w (Js.split Js.space p) ->
                       (measure measureText (workingFontSize r)
                          (normalizeFontFamily (fontFamily opts)) w
                        <= inject_Z (textWidthOf opts))%Q) ->
          (forall p, In p (Js.split Js.newline text) ->
                     ~ In PARA_BREAK
                         (paragraphBlock measureText (inject_Z (textWidthOf opts))
                            (workingFontSize r)
                            (normalizeFontFamily (fontFamily opts)) p)) ->
          (currentY (drawn r) + inject_Z (padding opts) + 32 <= dynamicHeight r)%Q
          /\ (16 <= padding opts -> (currentY (drawn r) <= 48 + cardHeight r)%Q)).
Proof.
  intros measureText text opts Hpad Hfs.
  destruct (text_end_when_measured measureText text opts Hpad Hfs)
    as [r [Hr [Hwrap [Htotal [Hcard Hend]]]]].
  exists r. split; [exact Hr|]. intros Hfit Hnot.
  assert (Hbound : (currentY (drawn r) + inject_Z (padding opts) + 32
                    <= dynamicHeight r)%Q).
  { apply Hend. rewrite Htotal, Hwrap.
    rewrite measureWrapped_advance; [apply Qle_refl|].
    apply Forall_forall. intros p Hp. split; [|now apply Hnot].
    apply Forall_forall. intros w Hw. now apply (Hfit p w). }
  split; [exact Hbound|].
  intros H16. rewrite Hcard.
  assert (Hp : (16 <= inject_Z (padding opts))%Q) by (unfold Qle; simpl; lia).
  set (P := inject_Z (padding opts)) in *.
  set (D := dynamicHeight r) in *. set (Y := currentY (drawn r)) in *. lra.
Qed.

Lemma text_is_not_clipped_when_words_fit_witness :
  exists r,
    generateImage monoMeasure "ab cd" defaultImageOptions = Some r
    /\ (currentY (drawn r) + 40 + 32 <= dynamicHeight r)%Q.
Proof.
  destruct (text_is_not_clipped_when_words_fit monoMeasure "ab cd" defaultImageOptions)
    as [r [Hr Hend]]; [discriminate | discriminate |].
  exists r. split; [exact Hr|].
  assert (Hsize : workingFontSize r = 49).
  { vm_compute in Hr. inversion Hr. reflexivity. }
  rewrite Hsize in Hend.
  destruct Hend as [Hbound _]; [| |exact Hbound].
  - intros p w Hp Hw. cbn in Hp. destruct Hp as [Hp | []]. subst p.
    cbn in Hw. destruct Hw as [Hw | [Hw | []]]; subst w; vm_compute; discriminate.
  - intros p Hp. cbn in Hp. destruct Hp as [Hp | []]. subst p.
    vm_compute. intros [H | []]; discriminate.
Defined.

(** ** What auto-fit achieves *)

Section AutoFitGoal.

Variable measureText : Z -> string -> string -> Q.
Variable family : string.
Variable sampleLine : string.
Variable targetWidth : Z.
Variable requested : Z.

Let width := sampleWidth measureText family sampleLine.
Let target := inject_Z targetWidth.

(** The stress line fits, or the size is at the floor. *)
Let fitsOrFloor (s : Z) : Prop := (width s <= target)%Q \/ s <= 10.

(** The reason the grow loop has to stop at [s]. *)
Let cannotGrow (s : Z) : Prop :=
  (target * (9 # 10) <= width s)%Q \/ (target < width (s + 1))%Q \/ requested * 3 < s.

Lemma shrinkLoop_fits (fuel : nat) :
  forall fs s,
    shrinkLoop measureText family sampleLine targetWidth fuel fs = Some s ->
    fitsOrFloor s.
Proof.
  induction fuel as [|k IH]; intros fs s Hrun; [discriminate|]. simpl in Hrun.
  destruct (10 <? fs) eqn:Hgt; simpl in Hrun.
  - destruct (Js.gtb _ (inject_Z targetWidth)) eqn:Hw.
    + exact (IH _ _ Hrun).
    + inversion Hrun; subst s. left. exact (gtb_false _ _ Hw).
  - inversion Hrun; subst s. right. apply Z.ltb_ge in Hgt. exact Hgt.
Qed.

Lemma growLoop_fits (fuel : nat) :
  (0 <= target)%Q ->
  forall fs s,
    growLoop measureText family sampleLine targetWidth requested fuel fs = Some s ->
    fitsOrFloor fs ->
    fitsOrFloor s.
Proof.
  intros Htarget.
  induction fuel as [|k IH]; intros fs s Hrun Hfs; [discriminate|]. simpl in Hrun.
  destruct (Js.ltb _ _) eqn:Hcond.
  - assert (Hfit : (width fs <= target)%Q).
    { apply ltb_true in Hcond. fold (width fs) in Hcond. fold target in Hcond.
      set (t := target) in *. set (w := width fs) in *. lra. }
    destruct (Js.gtb _ _) eqn:Hover.
    + inversion Hrun; subst s. left. replace (fs + 1 - 1) with fs by lia. exact Hfit.
    + apply gtb_false in Hover.
      destruct (requested * 3 <? fs + 1).
      * inversion Hrun; subst s. left. exact Hover.
      * apply (IH _ _ Hrun). left. exact Hover.
  - inversion Hrun; subst s. exact Hfs.
Qed.

Lemma growLoop_exit (fuel : nat) :
  forall fs s,
    growLoop measureText family sampleLine targetWidth requested fuel fs = Some s ->
    cannotGrow s.
Proof.
  induction fuel as [|k IH]; intros fs s Hrun; [discriminate|]. simpl in Hrun.
  destruct (Js.ltb _ _) eqn:Hcond.
  - destruct (Js.gtb _ _) eqn:Hover.
    + inversion Hrun; subst s. right; left.
      replace (fs + 1 - 1 + 1) with (fs + 1) by lia. exact (gtb_true _ _ Hover).
    + destruct (requested * 3 <? fs + 1) eqn:Hguard.
      * inversion Hrun; subst s. right; right. apply Z.ltb_lt in Hguard. exact Hguard.
      * exact (IH _ _ Hrun).
  - inversion Hrun; subst s. left. exact (ltb_false _ _ Hcond).
Qed.

(** X6 — for a non-negative target width, the size chosen by the two auto-fit
    loops makes the stress line fit the target width unless the size is at
    most 10, and it cannot be grown further: the stress line already reaches
    90% of the target, or overflows it at the next size, or the size exceeds
    3 x the requested one. *)
Theorem autoFitSize_fits_and_is_maximal :
  0 <= targetWidth ->
  exists s,
    autoFitSize measureText family sampleLine targetWidth requested = Some s
    /\ ((sampleWidth measureText family sampleLine s <= inject_Z targetWidth)%Q \/ s <= 10)
    /\ ((inject_Z targetWidth * (9 # 10) <= sampleWidth measureText family sampleLine s)%Q
        \/ (inject_Z targetWidth < sampleWidth measureText family sampleLine (s + 1))%Q
        \/ requested * 3 < s).
Proof.
  intros Htarget.
  destruct (autoFitSize_total measureText family sampleLine targetWidth requested)
    as [s [Hs _]].
  exists s. split; [exact Hs|].
  unfold autoFitSize in Hs.
  destruct (shrinkLoop measureText family sampleLine targetWidth
              (S (Z.to_nat (requested - 10))) requested) as [shrunk|] eqn:Hshrink;
    [|discriminate].
  split.
  - apply (growLoop_fits _ ltac:(unfold target, Qle; simpl; lia) _ _ Hs).
    exact (shrinkLoop_fits _ _ _ Hshrink).
  - exact (growLoop_exit _ _ _ Hs).
Qed.

End AutoFitGoal.

Lemma autoFitSize_fits_and_is_maximal_witness :
  exists s,
    autoFitSize monoMeasure "monospace" "hello world" 904 16 = Some s
    /\ ((sampleWidth monoMeasure "monospace" "hello world" s <= inject_Z 904)%Q \/ s <= 10)
    /\ ((inject_Z 904 * (9 # 10) <= sampleWidth monoMeasure "monospace" "hello world" s)%Q
        \/ (inject_Z 904 < sampleWidth monoMeasure "monospace" "hello world" (s + 1))%Q
        \/ 16 * 3 < s).
Proof.
  apply (autoFitSize_fits_and_is_maximal monoMeasure "monospace" "hello world" 904 16).
  lia.
Defined.

(** ** The painted lines *)

Lemma drawLine_calls (x maxWidth lineHeight : Q) (align : TextAlign) (ls : list string) :
  forall d,
    calls (fold_left (drawLine x maxWidth lineHeight align) ls d)
    = (calls d
       ++ paintFrom (match align with AlignCenter => x + maxWidth / 2 | AlignLeft => x end)%Q
            lineHeight ls (currentY d))%list.
Proof.
  induction ls as [|l ls IH]; intros d; cbn [fold_left paintFrom].
  - now rewrite app_nil_r.
  - rewrite IH. unfold drawLine.
    destruct (String.eqb l PARA_BREAK); cbn [calls currentY].
    + reflexivity.
    + unfold Js.push. now rewrite <- app_assoc.
Qed.

Lemma paintFrom_spaced (fx lineHeight : Q) (ls : list string) :
  (0 <= lineHeight)%Q ->
  forall y,
    spacedBy lineHeight (paintFrom fx lineHeight ls y)
    /\ Forall (fun c => (y <= fillY c)%Q
                        /\ (fillY c + lineHeight <= y + drawAdvance lineHeight ls)%Q)
              (paintFrom fx lineHeight ls y).
Proof.
  intros Hlh. induction ls as [|l ls IH]; intros y; cbn [paintFrom].
  - split; [exact I | constructor].
  - change (drawAdvance lineHeight (l :: ls))
      with ((if String.eqb l PARA_BREAK then lineHeight * (5 # 10) else lineHeight)
            + drawAdvance lineHeight ls)%Q.
    destruct (String.eqb l PARA_BREAK).
    + destruct (IH (y + lineHeight * (5 # 10))%Q) as [Hs Hall]. split; [exact Hs|].
      eapply Forall_impl; [|exact Hall]. cbv beta. intros c [Hlo Hhi].
      set (a := drawAdvance lineHeight ls) in *. split; lra.
    + destruct (IH (y + lineHeight)%Q) as [Hs Hall]. split.
      * cbn [spacedBy]. split; [|exact Hs].
        destruct (paintFrom fx lineHeight ls (y + lineHeight)) as [|c' rest]; [exact I|].
        inversion Hall as [|? ? [Hlo _] _]; subst. cbn [fillY]. exact Hlo.
      * destruct (drawAdvance_le_lines lineHeight ls Hlh) as [Ha0 _].
        set (a := drawAdvance lineHeight ls) in *.
        constructor.
        -- cbn [fillY]. split; lra.
        -- eapply Forall_impl; [|exact Hall]. cbv beta. intros c [Hlo Hhi]. split; lra.
Qed.

(** X7 — for a non-negative font size, the [fillText] calls of [drawText] go
    down the canvas at least one line height apart, none is above the start
    [y], and each line ends, one line height below its baseline position, no
    lower than the final cursor. *)
Theorem drawText_lines_are_stacked :
  forall (measureText : Z -> string -> string -> Q) (text : string) (x y maxWidth : Q)
         (fontSize : Z) (fontFamily : string) (align : option TextAlign),
    0 <= fontSize ->
    let d := drawText measureText text x y maxWidth fontSize fontFamily align in
    spacedBy (lineHeightOf fontSize) (calls d)
    /\ Forall (fun c => (y <= fillY c)%Q
                        /\ (fillY c + lineHeightOf fontSize <= currentY d)%Q) (calls d).
Proof.
  intros measureText text x y maxWidth fontSize fontFamily align Hfs d.
  destruct (drawText_paints measureText text x y maxWidth fontSize fontFamily align)
    as [_ Hy].
  fold d in Hy. unfold d, drawText in *. cbv zeta in *.
  rewrite drawLine_calls. cbn [calls currentY app].
  destruct (paintFrom_spaced
              (match match align with Some a => a | None => AlignLeft end with
               | AlignCenter => x + maxWidth / 2 | AlignLeft => x end)%Q
              (lineHeightOf fontSize)
              (lines (wrapText measureText maxWidth fontSize fontFamily text))
              (lineHeightOf_nonneg _ Hfs) y) as [Hs Hall].
  split; [exact Hs|].
  eapply Forall_impl; [|exact Hall]. cbv beta. intros c [Hlo Hhi].
  split; [exact Hlo|]. rewrite Hy. exact Hhi.
Qed.

Lemma drawText_lines_are_stacked_witness :
  let d := drawText monoMeasure "ab cd efgh ij" 0 100 60 10 "monospace" None in
  spacedBy (lineHeightOf 10) (calls d)
  /\ Forall (fun c => (100 <= fillY c)%Q /\ (fillY c + lineHeightOf 10 <= currentY d)%Q)
            (calls d).
Proof.
  apply (drawText_lines_are_stacked monoMeasure "ab cd efgh ij" 0 100 60 10 "monospace" None).
  lia.
Defined.

(** ** The stress line of auto-fit *)

Lemma longest_fold (ls : list string) :
  forall a,
    let r := fold_left
               (fun a b => if Nat.ltb (String.length a) (String.length b) then b else a)
               ls a in
    (r = a \/ In r ls)
    /\ (String.length a <= String.length r)%nat
    /\ Forall (fun l => (String.length l <= String.length r)%nat) ls.
Proof.
  induction ls as [|l ls IH]; intros a; cbn [fold_left]; cbv zeta.
  - split; [now left|]. split; [lia | constructor].
  - destruct (Nat.ltb (String.length a) (String.length l)) eqn:Hlt;
      [apply Nat.ltb_lt in Hlt | apply Nat.ltb_ge in Hlt].
    + destruct (IH l) as [Hin [Hlen Hall]]. cbv zeta in Hin, Hlen, Hall.
      split; [right; destruct Hin as [Hin | Hin]; [left; now symmetry | now right]|].
      split; [lia|]. constructor; [exact Hlen | exact Hall].
    + destruct (IH a) as [Hin [Hlen Hall]]. cbv zeta in Hin, Hlen, Hall.
      split; [destruct Hin as [Hin | Hin]; [now left | right; now right]|].
      split; [exact Hlen|]. constructor; [lia | exact Hall].
Qed.

(** X9 — the stress line that auto-fit measures is a line of the text, and
    no line of the text has more characters. *)
Theorem sampleLineOf_is_a_longest_line :
  forall text : string,
    In (sampleLineOf text) (Js.split Js.newline text)
    /\ Forall (fun l => (String.length l <= String.length (sampleLineOf text))%nat)
              (Js.split Js.newline text).
Proof.
  intros text. unfold sampleLineOf.
  destruct (longest_fold (Js.split Js.newline text) "") as [Hin [_ Hall]].
  cbv zeta in Hin, Hall. split; [|exact Hall].
  destruct Hin as [Hempty | Hin]; [|exact Hin].
  rewrite Hempty in *.
  pose proof (split_not_nil Js.newline text) as Hne.
  destruct (Js.split Js.newline text) as [|l ls]; [contradiction|].
  inversion Hall as [|? ? Hl _]; subst. left.
  destruct l; [reflexivity | cbn in Hl; lia].
Qed.

(** ** The history route: what is stored *)

Lemma POST_cases (body : History.Json) (snaps : list History.Json) :
  (answeredOk body = true
   /\ History.POST body snaps
      = (History.accepted, firstn 100 (History.storedEntry body :: snaps)))
  \/ (answeredOk body = false /\ snd (History.POST body snaps) = snaps).
Proof.
  unfold answeredOk, History.POST.
  destruct (History.badId _ || History.badText _ || History.badTimestamp _)%bool;
    [right; split; reflexivity|].
  destruct (History.truthy (History.getField body "title")
            && negb (History.isString (History.getField body "title")))%bool;
    [right; split; reflexivity|].
  destruct (History.truthy (History.getField body "tags")
            && History.badTags (History.getField body "tags"))%bool;
    [right; split; reflexivity|].
  left. split; reflexivity.
Qed.

Lemma answeredOk_iff (body : History.Json) :
  answeredOk body = true <-> payloadAccepted body.
Proof.
  unfold answeredOk, payloadAccepted, History.POST.
  pose proof (HistoryFacts.required_checks body) as Hreq.
  pose proof (HistoryFacts.title_check body) as Htitle.
  pose proof (HistoryFacts.tags_check body) as Htags.
  destruct (History.badId _ || History.badText _ || History.badTimestamp _)%bool.
  - split; [discriminate|]. intros [H _]. apply Hreq in H. discriminate.
  - destruct (History.truthy (History.getField body "title")
              && negb (History.isString (History.getField body "title")))%bool.
    + split; [discriminate|]. intros [_ [H _]]. apply Htitle in H. discriminate.
    + destruct (History.truthy (History.getField body "tags")
                && History.badTags (History.getField body "tags"))%bool.
      * split; [discriminate|]. intros [_ [_ H]]. apply Htags in H. discriminate.
      * split; [|reflexivity]. intros _.
        split; [now apply Hreq|]. split; [now apply Htitle | now apply Htags].
Qed.

Lemma storedEntry_shape (body : History.Json) :
  payloadAccepted body ->
  exists i t q tt items,
    History.storedEntry body
    = History.JObject
        [ ("id", History.JString i); ("text", History.JString t);
          ("timestamp", History.JNumber (History.Finite q));
          ("title", History.JString tt); ("tags", History.JArray items) ]
    /\ i <> "" /\ 1 <= Z.of_nat (String.length t) <= 10000 /\ (0 < q)%Q
    /\ tagsOk items.
Proof.
  intros [[[i [Hi Hine]] [[t [Ht Htl]] [q [Hq Hqp]]]] [Htitle Htags]].
  unfold History.storedEntry. rewrite Hi, Ht, Hq.
  assert (Htt : exists tt,
             match History.getField body "title" with
             | Some v => if History.truthy (History.getField body "title") then v
                         else History.JString ""
             | None => History.JString ""
             end = History.JString tt).
  { destruct (History.getField body "title") as [v|]; [|now exists ""].
    destruct (History.truthy (Some v)) eqn:Hv; [|now exists ""].
    destruct (Htitle v eq_refl Hv) as [s Hs]. now exists s. }
  assert (Hitems : exists items,
             match History.getField body "tags" with
             | Some (History.JArray items) => History.JArray items
             | _ => History.JArray []
             end = History.JArray items /\ tagsOk items).
  { destruct (History.getField body "tags") as [v|];
      [|exists []; split; [reflexivity | constructor]].
    destruct v; try (exists []; split; [reflexivity | constructor]).
    destruct (Htags (History.JArray items) eq_refl eq_refl) as [items' [Heq Hok]].
    inversion Heq; subst items'. now exists items. }
  destruct Htt as [tt Htt]. destruct Hitems as [items [Hitems Hok]].
  cbv zeta. rewrite Htt, Hitems.
  exists i, t, q, tt, items. repeat split; try assumption; lia.
Qed.

(** X10 — the entry written for an accepted payload meets the stricter
    format of the specification: it carries a string [title] and an array
    [tags] of short strings whatever the payload held there, and sending the
    stored entry again stores it unchanged. *)
Theorem stored_entry_is_well_formed :
  forall (body : History.Json) (snaps : list History.Json),
    payloadAccepted body ->
    payloadAsSpecified (History.storedEntry body)
    /\ (exists t, History.getField (History.storedEntry body) "title"
                  = Some (History.JString t))
    /\ (exists items, History.getField (History.storedEntry body) "tags"
                      = Some (History.JArray items) /\ tagsOk items)
    /\ History.POST (History.storedEntry body) snaps
       = (History.accepted, firstn 100 (History.storedEntry body :: snaps)).
Proof.
  intros body snaps Hacc.
  destruct (storedEntry_shape body Hacc)
    as [i [t [q [tt [items [Hshape [Hi [Ht [Hq Hok]]]]]]]]].
  rewrite Hshape.
  assert (Hspec : payloadAsSpecified
                    (History.JObject
                       [ ("id", History.JString i); ("text", History.JString t);
                         ("timestamp", History.JNumber (History.Finite q));
                         ("title", History.JString tt);
                         ("tags", History.JArray items) ])).
  { split; [|split].
    - split; [|split].
      + exists i. split; [reflexivity | exact Hi].
      + exists t. split; [reflexivity | exact Ht].
      + exists q. split; [reflexivity | exact Hq].
    - intros v Hv. cbn in Hv. inversion Hv. now exists tt.
    - intros v Hv. cbn in Hv. inversion Hv. now exists items. }
  split; [exact Hspec|].
  split; [exists tt; reflexivity|].
  split; [exists items; split; [reflexivity | exact Hok]|].
  assert (Hagain : payloadAccepted
                     (History.JObject
                        [ ("id", History.JString i); ("text", History.JString t);
                          ("timestamp", History.JNumber (History.Finite q));
                          ("title", History.JString tt);
                          ("tags", History.JArray items) ])).
  { destruct Hspec as [Hreq [Htitle Htags]].
    split; [exact Hreq|]. split; intros v Hv _; [now apply Htitle | now apply Htags]. }
  apply answeredOk_iff in Hagain.
  destruct (POST_cases
              (History.JObject
                 [ ("id", History.JString i); ("text", History.JString t);
                   ("timestamp", History.JNumber (History.Finite q));
                   ("title", History.JString tt);
                   ("tags", History.JArray items) ]) snaps) as [[_ Hpost] | [Hno _]];
    [|congruence].
  rewrite Hpost. f_equal. f_equal. f_equal.
  unfold History.storedEntry. cbn [History.getField History.assocLast String.eqb Ascii.eqb
                                  Bool.eqb].
  cbn. destruct tt; reflexivity.
Qed.

Lemma stored_entry_is_well_formed_witness :
  payloadAsSpecified (History.storedEntry falseTitlePayload)
  /\ History.getField (History.storedEntry falseTitlePayload) "title"
     = Some (History.JString "").
Proof.
  assert (Hacc : payloadAccepted falseTitlePayload).
  { apply answeredOk_iff. reflexivity. }
  destruct (stored_entry_is_well_formed falseTitlePayload [] Hacc) as [Hspec _].
  split; [exact Hspec | reflexivity].
Defined.

Lemma firstn_app_firstn {A : Type} (n : nat) (a l : list A) :
  firstn n (a ++ firstn n l) = firstn n (a ++ l).
Proof.
  rewrite !firstn_app, firstn_firstn.
  replace (Nat.min (n - List.length a) n) with (n - List.length a)%nat by lia.
  reflexivity.
Qed.

(** X11 — from a file of at most 100 entries, a sequence of requests leaves
    the entries of the accepted payloads, the latest first, in front of the
    earlier content, cut to 100 entries; rejected payloads leave no trace. *)
Theorem postAll_keeps_latest_accepted :
  forall (bodies : list History.Json) (snaps : list History.Json),
    (List.length snaps <= 100)%nat ->
    postAll bodies snaps
    = firstn 100 (rev (map History.storedEntry (filter answeredOk bodies)) ++ snaps)%list.
Proof.
  unfold postAll.
  induction bodies as [|body bodies IH]; intros snaps Hlen; cbn [fold_left filter].
  - cbn [map rev app]. symmetry. now apply firstn_all2.
  - destruct (POST_cases body snaps) as [[Hok Hpost] | [Hno Hsnd]].
    + rewrite Hok, Hpost. cbn [snd map rev].
      rewrite IH by apply firstn_le_length.
      rewrite firstn_app_firstn, <- app_assoc. reflexivity.
    + rewrite Hno, Hsnd. now apply IH.
Qed.

Lemma postAll_keeps_latest_accepted_witness :
  postAll [falseTitlePayload; History.JNull] []
  = firstn 100 (rev (map History.storedEntry
                       (filter answeredOk [falseTitlePayload; History.JNull])) ++ [])%list.
Proof.
  apply (postAll_keeps_latest_accepted [falseTitlePayload; History.JNull] []).
  cbn [List.length]. lia.
Defined.

(** ** The browser-side store *)

Module StorageFacts.

Import Storage.

Lemma numberToString_not_empty (n : Z) : numberToString n <> "".
Proof.
  unfold numberToString.
  assert (Hu : forall d, NilZero.string_of_uint d <> "").
  { intros d. destruct d; cbn; discriminate. }
  destruct (Z.to_int n) as [d | d]; cbn [NilZero.string_of_int].
  - apply Hu.
  - discriminate.
Qed.

Lemma filter_same_length {A : Type} (p : A -> bool) (l : list A) :
  List.length (filter p l) = List.length l -> filter p l = l.
Proof.
  induction l as [|x l IH]; [reflexivity|]. cbn [filter].
  destruct (p x) eqn:Hp; cbn [List.length]; intros Hlen.
  - f_equal. apply IH. lia.
  - pose proof (filter_length_le p l). lia.
Qed.

Lemma filter_all_length {A : Type} (p : A -> bool) (l : list A) :
  filter p l = l -> forall x, In x l -> p x = true.
Proof.
  intros Heq x Hin. rewrite <- Heq in Hin. now apply filter_In in Hin.
Qed.

(** *** Sorting by timestamp *)

Lemma insertNewest_perm (x : SavedSnap) (l : list SavedSnap) :
  Permutation (x :: l) (insertNewest x l).
Proof.
  induction l as [|y l IH]; cbn [insertNewest]; [reflexivity|].
  destruct (timestamp x <? timestamp y); [|reflexivity].
  rewrite perm_swap. now constructor.
Qed.

Lemma sortNewestFirst_perm (l : list SavedSnap) : Permutation l (sortNewestFirst l).
Proof.
  induction l as [|x l IH]; cbn [sortNewestFirst]; [constructor|].
  rewrite <- insertNewest_perm. now constructor.
Qed.

Lemma insertNewest_sorted (x : SavedSnap) (l : list SavedSnap) :
  StronglySorted newerOrSame l -> StronglySorted newerOrSame (insertNewest x l).
Proof.
  induction l as [|y l IH]; intros Hs; cbn [insertNewest].
  - constructor; constructor.
  - inversion Hs as [|? ? Hl Hy]; subst.
    destruct (timestamp x <? timestamp y) eqn:Hlt.
    + apply Z.ltb_lt in Hlt. constructor; [now apply IH|].
      apply Forall_forall. intros z Hz.
      apply (Permutation_in _ (Permutation_sym (insertNewest_perm x l))) in Hz.
      destruct Hz as [Hz | Hz].
      * subst z. unfold newerOrSame. lia.
      * rewrite Forall_forall in Hy. now apply Hy.
    + apply Z.ltb_ge in Hlt. constructor; [exact Hs|].
      constructor; [exact Hlt|].
      eapply Forall_impl; [|exact Hy]. unfold newerOrSame. intros z Hz. lia.
Qed.

Lemma sortNewestFirst_sorted (l : list SavedSnap) :
  StronglySorted newerOrSame (sortNewestFirst l).
Proof.
  induction l as [|x l IH]; cbn [sortNewestFirst]; [constructor|].
  now apply insertNewest_sorted.
Qed.

Lemma sorted_split (n : nat) (l : list SavedSnap) :
  StronglySorted newerOrSame l ->
  StronglySorted newerOrSame (firstn n l)
  /\ forall k d, In k (firstn n l) -> In d (skipn n l) -> timestamp d <= timestamp k.
Proof.
  revert l. induction n as [|n IH]; intros l Hs.
  - cbn. split; [constructor | intros k d []].
  - destruct l as [|x l]; cbn [firstn skipn].
    + split; [constructor | intros k d []].
    + inversion Hs as [|? ? Hl Hx]; subst.
      destruct (IH l Hl) as [Hfirst Hsplit]. split.
      * constructor; [exact Hfirst|].
        apply Forall_forall. intros z Hz. rewrite Forall_forall in Hx.
        apply Hx. rewrite <- (firstn_skipn n l). apply in_or_app. now left.
      * intros k d [Hk | Hk] Hd.
        -- subst k. rewrite Forall_forall in Hx. apply (Hx d).
           rewrite <- (firstn_skipn n l). apply in_or_app. now right.
        -- now apply Hsplit.
Qed.

End StorageFacts.

(** X12 — [generateTitle] returns the trimmed first line of the text as it
    is when that line has at most six space-separated words; otherwise its
    first six words, single-spaced, followed by three dots. *)
Theorem generateTitle_short_line_unchanged :
  forall text : string,
    let firstLine := Js.trim (hd "" (Js.split Js.newline text)) in
    Storage.generateTitle text
    = if Nat.leb (List.length (Js.split Js.space firstLine)) 6 then firstLine
      else String.concat " " (firstn 6 (Js.split Js.space firstLine)) ++ "...".
Proof.
  intros text firstLine. unfold Storage.generateTitle. fold firstLine.
  destruct (Nat.leb (List.length (Js.split Js.space firstLine)) 6) eqn:Hlen.
  - apply Nat.leb_le in Hlen.
    rewrite firstn_all2 by exact Hlen. rewrite join_split.
    replace (Nat.ltb 6 (List.length (Js.split Js.space firstLine))) with false
      by (symmetry; apply Nat.ltb_ge; exact Hlen).
    apply StringFacts.append_nil_r.
  - apply Nat.leb_gt in Hlen.
    replace (Nat.ltb 6 (List.length (Js.split Js.space firstLine))) with true
      by (symmetry; apply Nat.ltb_lt; exact Hlen).
    reflexivity.
Qed.

(** X13 — the snap that [saveSnap] builds and sends to the history route is
    accepted there exactly when the trimmed text has 1 to 10000 characters,
    the clock reading kept as timestamp is positive and no tag is longer
    than 40 characters; a title, given or generated, never stands in the
    way. *)
Theorem saved_snap_accepted_by_route :
  forall (now1 now2 : Z) (text : string) (title : option string)
         (tags : option (list string)),
    answeredOk (Storage.snapBody (Storage.newSnapOf now1 now2 text title tags)) = true
    <-> (1 <= Z.of_nat (String.length (Js.trim text)) <= 10000
         /\ 0 < now2
         /\ Forall (fun tag => (String.length tag <= 40)%nat)
                   (match tags with Some l => l | None => [] end)).
Proof.
  intros now1 now2 text title tags.
  unfold answeredOk, History.POST, Storage.snapBody, Storage.newSnapOf.
  cbn [Storage.id Storage.text Storage.timestamp Storage.title Storage.tags app
       History.getField History.assocLast].
  set (theTitle := match title with
                   | Some t => if Js.truthy t then t else Storage.generateTitle text
                   | None => Storage.generateTitle text
                   end).
  set (theTags := match tags with Some l => l | None => [] end).
  change (String.eqb "id" "id") with true.
  cbn [String.eqb Ascii.eqb Bool.eqb andb].
  cbn [History.badId History.badText History.badTimestamp History.truthy History.isString
       History.badTags negb andb orb].
  assert (Hid : Nat.eqb (String.length (Storage.numberToString now1)) 0 = false).
  { apply Nat.eqb_neq. intros H.
    apply (StorageFacts.numberToString_not_empty now1).
    destruct (Storage.numberToString now1); [reflexivity | discriminate]. }
  rewrite Hid. cbn [orb]. rewrite andb_false_r.
  assert (Htags : existsb History.badTag (map History.JString theTags) = false
                  <-> Forall (fun tag => (String.length tag <= 40)%nat) theTags).
  { induction theTags as [|t l IH]; cbn [map existsb History.badTag].
    - split; [constructor | reflexivity].
    - rewrite orb_false_iff, IH, Nat.ltb_ge. split.
      + intros [Ht Hl]. now constructor.
      + intros H. inversion H; subst. now split. }
  assert (Hq : Qle_bool (inject_Z now2) 0 = false <-> 0 < now2).
  { split.
    - intros H. destruct (Z_lt_le_dec 0 now2) as [Hlt | Hle]; [exact Hlt|].
      assert (Hb : Qle_bool (inject_Z now2) 0 = true).
      { apply Qle_bool_iff. unfold Qle. cbn. lia. }
      congruence.
    - intros H. destruct (Qle_bool (inject_Z now2) 0) eqn:Hb; [|reflexivity].
      apply Qle_bool_iff in Hb. unfold Qle in Hb. cbn in Hb. lia. }
  destruct (Nat.eqb (String.length (Js.trim text)) 0) eqn:Hz;
    [apply Nat.eqb_eq in Hz | apply Nat.eqb_neq in Hz]; cbn [orb].
  - split; [discriminate | lia].
  - destruct (10000 <? Z.of_nat (String.length (Js.trim text))) eqn:Hlong;
      [apply Z.ltb_lt in Hlong | apply Z.ltb_ge in Hlong]; cbn [orb].
    + split; [discriminate | lia].
    + destruct (Qle_bool (inject_Z now2) 0) eqn:Hts.
      * split; [discriminate|]. intros [_ [Hpos _]]. apply Hq in Hpos. discriminate.
      * destruct (existsb History.badTag (map History.JString theTags)) eqn:Hbad.
        -- split; [discriminate|]. intros [_ [_ Hall]]. apply Htags in Hall. discriminate.
        -- split; [|reflexivity]. intros _.
           split; [lia|]. split; [now apply Hq | now apply Htags].
Qed.

Section StoreOperations.

Import Storage.

Variable fitsQuota : list SavedSnap -> bool.

Lemma setItem_some (snaps : list SavedSnap) (c : Cell) :
  setItem fitsQuota snaps = Some c -> c = Stored snaps /\ fitsQuota snaps = true.
Proof.
  unfold setItem. destruct (fitsQuota snaps); [|discriminate].
  intros H. inversion H. now split.
Qed.

(** X14 — when [saveSnap] returns, the snap it returns is the first of the
    stored array, followed by the earlier snaps in their order, cut to 100
    entries, or to 50 when the first write exceeded the quota; when both
    writes fail nothing is stored. *)
Theorem saveSnap_puts_snap_first :
  forall (now1 now2 : Z) (text : string) (title : option string)
         (tags : option (list string)) (c : Cell),
    let newSnap := newSnapOf now1 now2 text title tags in
    match saveSnap fitsQuota now1 now2 text title tags c with
    | (c', Some snap) =>
        snap = newSnap
        /\ hd_error (getSnaps c') = Some newSnap
        /\ exists k, (k = 100 \/ k = 50)%nat
                     /\ getSnaps c' = firstn k (newSnap :: getSnaps c)
                     /\ (k = 50%nat -> fitsQuota (firstn 100 (newSnap :: getSnaps c)) = false)
    | (c', None) => c' = c
    end.
Proof.
  intros now1 now2 text title tags c newSnap. unfold saveSnap. fold newSnap.
  cbv zeta. change MAX_SNAPS with 100%nat. change (100 / 2)%nat with 50%nat.
  destruct (setItem fitsQuota (firstn 100 (newSnap :: getSnaps c))) as [c1|] eqn:H1.
  - apply setItem_some in H1. destruct H1 as [Hc _]. subst c1.
    split; [reflexivity|]. split; [reflexivity|].
    exists 100%nat. split; [now left|]. split; [reflexivity | discriminate].
  - rewrite firstn_firstn. change (Nat.min 50 100) with 50%nat.
    destruct (setItem fitsQuota (firstn 50 (newSnap :: getSnaps c))) as [c2|] eqn:H2;
      [|reflexivity].
    apply setItem_some in H2. destruct H2 as [Hc _]. subst c2.
    split; [reflexivity|]. split; [reflexivity|].
    exists 50%nat. split; [now right|]. split; [reflexivity|]. intros _.
    unfold setItem in H1. destruct (fitsQuota _); [discriminate | reflexivity].
Qed.

Lemma filter_shorter {A : Type} (p : A -> bool) (l : list A) :
  List.length (filter p l) <> List.length l -> exists x, In x l /\ p x = false.
Proof.
  induction l as [|x l IH]; cbn [filter List.length]; [congruence|].
  destruct (p x) eqn:Hp; cbn [List.length]; intros Hlen.
  - destruct IH as [y [Hy Hpy]]; [lia|]. exists y. split; [now right | exact Hpy].
  - exists x. split; [now left | exact Hp].
Qed.

Lemma filter_idem {A : Type} (p : A -> bool) (l : list A) :
  filter p (filter p l) = filter p l.
Proof.
  induction l as [|x l IH]; [reflexivity|]. cbn [filter].
  destruct (p x) eqn:Hp; [|exact IH]. cbn [filter]. now rewrite Hp, IH.
Qed.

(** X15 — when [deleteSnap] returns, the store holds the earlier snaps but
    every snap with the given id, in their order; it returns [true] exactly
    when some snap had that id, and deleting the same id again changes
    nothing and returns [false]. *)
Theorem deleteSnap_removes_every_match :
  forall (snapId : string) (c c' : Cell) (b : bool),
    deleteSnap fitsQuota snapId c = (c', Some b) ->
    getSnaps c' = filter (otherId snapId) (getSnaps c)
    /\ (b = true <-> exists snap, In snap (getSnaps c) /\ id snap = snapId)
    /\ deleteSnap fitsQuota snapId c' = (c', Some false).
Proof.
  intros snapId c c' b. unfold deleteSnap. cbv zeta.
  fold (otherId snapId).
  destruct (Nat.eqb (List.length (filter (otherId snapId) (getSnaps c)))
                    (List.length (getSnaps c))) eqn:Hlen.
  - intros H. inversion H; subst c' b. pose proof Hlen as Hagain.
    apply Nat.eqb_eq in Hlen.
    pose proof (StorageFacts.filter_same_length _ _ Hlen) as Hsame.
    split; [now rewrite Hsame|]. split; [|now rewrite Hagain].
    split; [discriminate|]. intros [snap [Hin Hid]].
    pose proof (StorageFacts.filter_all_length _ _ Hsame snap Hin) as Hp.
    unfold otherId in Hp. apply negb_true_iff, String.eqb_neq in Hp. contradiction.
  - destruct (setItem fitsQuota (filter (otherId snapId) (getSnaps c))) as [c1|] eqn:Hset;
      [|discriminate].
    intros H. inversion H; subst c' b.
    apply setItem_some in Hset. destruct Hset as [Hc _]. subst c1.
    cbn [getSnaps]. split; [reflexivity|]. split.
    + split; [|reflexivity]. intros _.
      apply Nat.eqb_neq in Hlen. destruct (filter_shorter _ _ Hlen) as [x [Hin Hp]].
      exists x. split; [exact Hin|].
      unfold otherId in Hp. apply negb_false_iff in Hp. now apply String.eqb_eq.
    + rewrite filter_idem, Nat.eqb_refl. reflexivity.
Qed.

Lemma findIndex_some {A : Type} (p : A -> bool) (d : A) (l : list A) :
  forall i,
    findIndex p l = Some i ->
    exists before s after,
      l = (before ++ s :: after)%list
      /\ p s = true
      /\ Forall (fun x => p x = false) before
      /\ nth i l d = s
      /\ forall x, setAt i x l = (before ++ x :: after)%list.
Proof.
  induction l as [|y l IH]; intros i Hfind; cbn [findIndex] in Hfind; [discriminate|].
  destruct (p y) eqn:Hp.
  - inversion Hfind; subst i. exists [], y, l. cbn. repeat split; auto.
  - destruct (findIndex p l) as [j|] eqn:Hj; [|discriminate].
    cbn in Hfind. inversion Hfind; subst i.
    destruct (IH j eq_refl) as [before [s [after [Hl [Hs [Hb [Hn Hset]]]]]]].
    exists (y :: before), s, after. cbn [app nth setAt].
    split; [now rewrite Hl|]. split; [exact Hs|]. split; [now constructor|].
    split; [exact Hn|]. intros x. now rewrite Hset.
Qed.

Lemma findIndex_none {A : Type} (p : A -> bool) (l : list A) :
  findIndex p l = None -> Forall (fun x => p x = false) l.
Proof.
  induction l as [|y l IH]; cbn [findIndex]; [constructor|].
  destruct (p y) eqn:Hp; [discriminate|].
  destruct (findIndex p l); [discriminate|]. intros _. constructor; auto.
Qed.

(** X16 — when [updateSnap] returns [true], the first snap with the given id
    has the updates merged over it, and every other snap, also a later one
    with the same id, is as before; when it returns [false] no snap has that
    id and the store is untouched. *)
Theorem updateSnap_changes_first_match_only :
  forall (snapId : string) (updates : Updates) (c c' : Cell) (b : bool),
    updateSnap fitsQuota snapId updates c = (c', Some b) ->
    if b
    then exists before snap after,
           getSnaps c = (before ++ snap :: after)%list
           /\ id snap = snapId
           /\ Forall (fun x => id x <> snapId) before
           /\ getSnaps c' = (before ++ merge snap updates :: after)%list
    else c' = c /\ Forall (fun x => id x <> snapId) (getSnaps c).
Proof.
  intros snapId updates c c' b. unfold updateSnap. cbv zeta.
  destruct (findIndex (fun snap => String.eqb (id snap) snapId) (getSnaps c))
    as [index|] eqn:Hfind.
  - destruct (findIndex_some _ (mkSnap "" "" 0 None None) _ _ Hfind)
      as [before [s [after [Hl [Hs [Hb [Hn Hset]]]]]]].
    rewrite Hn, Hset.
    destruct (setItem fitsQuota (before ++ merge s updates :: after)) as [c1|] eqn:Hw;
      [|discriminate].
    intros H. inversion H; subst c' b.
    apply setItem_some in Hw. destruct Hw as [Hc _]. subst c1.
    exists before, s, after. split; [exact Hl|]. split; [now apply String.eqb_eq|].
    split; [|reflexivity].
    eapply Forall_impl; [|exact Hb]. cbv beta. intros x Hx. now apply String.eqb_neq.
  - intros H. inversion H; subst c' b. split; [reflexivity|].
    apply findIndex_none in Hfind.
    eapply Forall_impl; [|exact Hfind]. cbv beta. intros x Hx. now apply String.eqb_neq.
Qed.

(** X17 — a successful [importData] adds the snaps of the file whose id the
    store did not hold, and reports their number; the stored array is then
    ordered from the newest to the oldest and has at most 100 entries, and a
    snap that was dropped is no newer than any that was kept.  An import
    that fails leaves the store as it was. *)
Theorem importData_keeps_the_newest :
  forall (file : ImportFile) (c c' : Cell) (r : ImportResult),
    importData fitsQuota file c = (c', r) ->
    if success r
    then exists incoming dropped,
           file = Snaps incoming
           /\ imported r = List.length (freshSnaps incoming (getSnaps c))
           /\ (0 < imported r)%nat
           /\ newestFirst (getSnaps c')
           /\ (List.length (getSnaps c') <= 100)%nat
           /\ Permutation (getSnaps c ++ freshSnaps incoming (getSnaps c))%list
                          (getSnaps c' ++ dropped)%list
           /\ (forall kept d, In kept (getSnaps c') -> In d dropped ->
                              timestamp d <= timestamp kept)
    else c' = c /\ imported r = 0%nat.
Proof.
  intros file c c' r. unfold importData.
  destruct file as [| |incoming].
  - intros H. inversion H; subst. cbn. now split.
  - intros H. inversion H; subst. cbn. now split.
  - cbv zeta. fold (freshSnaps incoming (getSnaps c)).
    set (fresh := freshSnaps incoming (getSnaps c)).
    destruct (Nat.eqb (List.length fresh) 0) eqn:Hnone.
    + intros H. inversion H; subst. cbn. now split.
    + change MAX_SNAPS with 100%nat.
      set (sorted := sortNewestFirst (getSnaps c ++ fresh)).
      destruct (setItem fitsQuota (firstn 100 sorted)) as [c1|] eqn:Hw.
      * intros H. inversion H; subst c' r. cbn [success imported].
        apply setItem_some in Hw. destruct Hw as [Hc _]. subst c1. cbn [getSnaps].
        destruct (StorageFacts.sorted_split 100 sorted
                    (StorageFacts.sortNewestFirst_sorted _)) as [Hsorted Hsplit].
        exists incoming, (skipn 100 sorted).
        split; [reflexivity|]. split; [reflexivity|].
        split; [apply Nat.eqb_neq in Hnone; lia|].
        split; [exact Hsorted|]. split; [apply firstn_le_length|].
        split; [|exact Hsplit].
        rewrite firstn_skipn. apply StorageFacts.sortNewestFirst_perm.
      * intros H. inversion H; subst. cbn. now split.
Qed.

End StoreOperations.

Lemma deleteSnap_removes_every_match_witness :
  Storage.getSnaps (Storage.Stored [Storage.mkSnap "2" "b" 2 None None])
  = filter (otherId "1")
      (Storage.getSnaps
         (Storage.Stored [Storage.mkSnap "1" "a" 1 None None;
                          Storage.mkSnap "2" "b" 2 None None;
                          Storage.mkSnap "1" "c" 3 None None])).
Proof.
  apply (deleteSnap_removes_every_match (fun _ => true) "1"
           (Storage.Stored [Storage.mkSnap "1" "a" 1 None None;
                            Storage.mkSnap "2" "b" 2 None None;
                            Storage.mkSnap "1" "c" 3 None None])
           (Storage.Stored [Storage.mkSnap "2" "b" 2 None None]) true).
  vm_compute. reflexivity.
Defined.

Lemma updateSnap_changes_first_match_only_witness :
  exists before snap after,
    [Storage.mkSnap "1" "a" 1 None None; Storage.mkSnap "1" "c" 3 None None]
    = (before ++ snap :: after)%list
    /\ Storage.id snap = "1"
    /\ Forall (fun x => Storage.id x <> "1") before
    /\ [Storage.mkSnap "1" "a" 1 None (Some ["favorite"]);
        Storage.mkSnap "1" "c" 3 None None]
       = (before
          ++ Storage.merge snap
               (Storage.mkUpdates None None None None (Some (Some ["favorite"])))
          :: after)%list.
Proof.
  apply (updateSnap_changes_first_match_only (fun _ => true) "1"
           (Storage.mkUpdates None None None None (Some (Some ["favorite"])))
           (Storage.Stored [Storage.mkSnap "1" "a" 1 None None;
                            Storage.mkSnap "1" "c" 3 None None])
           (Storage.Stored [Storage.mkSnap "1" "a" 1 None (Some ["favorite"]);
                            Storage.mkSnap "1" "c" 3 None None]) true).
  vm_compute. reflexivity.
Defined.

Lemma importData_keeps_the_newest_witness :
  newestFirst [Storage.mkSnap "2" "b" 5 None None; Storage.mkSnap "1" "a" 1 None None].
Proof.
  pose proof (importData_keeps_the_newest (fun _ => true)
                (Storage.Snaps [Storage.mkSnap "1" "dup" 9 None None;
                                Storage.mkSnap "2" "b" 5 None None])
                (Storage.Stored [Storage.mkSnap "1" "a" 1 None None])
                (Storage.Stored [Storage.mkSnap "2" "b" 5 None None;
                                 Storage.mkSnap "1" "a" 1 None None])
                (Storage.mkImport true "Successfully imported 1 snaps" 1)
                ltac:(vm_compute; reflexivity)) as H.
  cbn [Storage.success] in H.
  destruct H as [incoming [dropped [_ [_ [_ [Hsorted _]]]]]]. exact Hsorted.
Defined.


(** ** The earlier renderer *)

Section LegacyWrap.

Variable measureText : Z -> string -> string -> Q.
Variable maxWidth : Q.
Variable fontSize : Z.
Variable fontFamily : string.

Let fitsLine (s : string) : Prop :=
  (measure measureText fontSize fontFamily s <= maxWidth)%Q.

(** What [currentLine] and the entries of [lines] may be while the words
    [ws] of a paragraph are wrapped: a line that fits, or one of the words. *)
Let lineOk (ws : list string) (l : string) : Prop := fitsLine l \/ In l ws.

Lemma legacy_wordStep_inv (ws : list string) (lines : list string) (cur w : string) :
  In w ws ->
  Forall (fun l => l <> "" /\ lineOk ws l) lines ->
  (cur = "" \/ lineOk ws cur) ->
  Forall (fun l => l <> "" /\ lineOk ws l)
         (fst (Legacy.wordStep measureText maxWidth fontSize fontFamily (lines, cur) w))
  /\ (snd (Legacy.wordStep measureText maxWidth fontSize fontFamily (lines, cur) w) = ""
      \/ lineOk ws
           (snd (Legacy.wordStep measureText maxWidth fontSize fontFamily (lines, cur) w)))
  /\ nonSpaces
       (concatLines
          (fst (Legacy.wordStep measureText maxWidth fontSize fontFamily (lines, cur) w))
        ++ snd (Legacy.wordStep measureText maxWidth fontSize fontFamily (lines, cur) w))
     = nonSpaces (concatLines lines ++ cur) ++ nonSpaces w.
Proof.
  intros Hw Hlines Hcur. unfold Legacy.wordStep.
  destruct (Js.truthy cur) eqn:Ht.
  - apply truthy_true in Ht.
    destruct (Js.gtb _ maxWidth) eqn:Hwide; cbn [andb fst snd].
    + split; [|split].
      * apply Forall_push; [exact Hlines|]. split; [exact Ht|].
        destruct Hcur as [Hcur | Hcur]; [contradiction | exact Hcur].
      * right. right. exact Hw.
      * rewrite concatLines_push. now rewrite !nonSpaces_app.
    + apply gtb_false in Hwide. split; [exact Hlines|].
      split; [right; left; exact Hwide|].
      rewrite !nonSpaces_app. cbn [nonSpaces append].
      change (Ascii.eqb " " Js.space) with true. cbv iota.
      now rewrite <- StringFacts.append_assoc.
  - apply truthy_false in Ht. subst cur. rewrite andb_false_r. cbn [fst snd append].
    split; [exact Hlines|]. split; [right; right; exact Hw|].
    now rewrite StringFacts.append_nil_r, nonSpaces_app.
Qed.

Lemma legacy_words_inv (ws : list string) (todo : list string) :
  (forall w, In w todo -> In w ws) ->
  forall lines cur,
    Forall (fun l => l <> "" /\ lineOk ws l) lines ->
    (cur = "" \/ lineOk ws cur) ->
    let st := fold_left (Legacy.wordStep measureText maxWidth fontSize fontFamily)
                todo (lines, cur) in
    Forall (fun l => l <> "" /\ lineOk ws l) (fst st)
    /\ (snd st = "" \/ lineOk ws (snd st))
    /\ nonSpaces (concatLines (fst st) ++ snd st)
       = nonSpaces (concatLines lines ++ cur) ++ nonSpaces (String.concat "" todo).
Proof.
  induction todo as [|w todo IH]; intros Hsub lines cur Hlines Hcur; cbn [fold_left].
  - cbv zeta. cbn [fst snd String.concat]. split; [exact Hlines|]. split; [exact Hcur|].
    cbn [nonSpaces]. now rewrite StringFacts.append_nil_r.
  - destruct (legacy_wordStep_inv ws lines cur w (Hsub w (or_introl eq_refl)) Hlines Hcur)
      as [H1 [H2 H3]].
    destruct (Legacy.wordStep measureText maxWidth fontSize fontFamily (lines, cur) w)
      as [lines' cur'] eqn:Hstep.
    cbn [fst snd] in H1, H2, H3.
    destruct (IH (fun v Hv => Hsub v (or_intror Hv)) lines' cur' H1 H2) as [G1 [G2 G3]].
    cbv zeta. split; [exact G1|]. split; [exact G2|].
    rewrite G3, H3, StringFacts.append_assoc. f_equal.
    rewrite <- nonSpaces_app. f_equal.
    destruct todo as [|v todo']; [cbn; now rewrite StringFacts.append_nil_r|].
    reflexivity.
Qed.

(** X20 — in the earlier renderer, the lines painted for a paragraph are
    never empty, each of them fits the width or is a single word of the
    paragraph (a word wider than the line is painted as it is), and together
    they hold the characters of the paragraph other than spaces, in order. *)
Theorem legacy_lines_fit_or_are_single_words :
  forall paragraph : string,
    let painted := Legacy.paragraphLines measureText maxWidth fontSize fontFamily paragraph in
    Forall (fun l =>
              l <> ""
              /\ ((measure measureText fontSize fontFamily l <= maxWidth)%Q
                  \/ In l (Js.split Js.space paragraph)))
           painted
    /\ nonSpaces (concatLines painted) = nonSpaces paragraph.
Proof.
  intros paragraph. unfold Legacy.paragraphLines.
  destruct (legacy_words_inv (Js.split Js.space paragraph) (Js.split Js.space paragraph)
              (fun w Hw => Hw) [] "" (Forall_nil _) (or_introl eq_refl)) as [H1 [H2 H3]].
  cbv zeta in H1, H2, H3.
  destruct (fold_left _ (Js.split Js.space paragraph) ([], "")) as [lines cur].
  cbn [fst snd] in H1, H2, H3. cbv zeta.
  change (concatLines [] ++ "") with "" in H3. cbn [nonSpaces append] in H3.
  rewrite split_space_content in H3.
  destruct (Js.truthy cur) eqn:Ht.
  - apply truthy_true in Ht. split.
    + apply Forall_push; [exact H1|]. split; [exact Ht|].
      destruct H2 as [H2 | H2]; [contradiction | exact H2].
    + now rewrite concatLines_push.
  - apply truthy_false in Ht. subst cur. split; [exact H1|].
    now rewrite StringFacts.append_nil_r in H3.
Qed.

End LegacyWrap.

Section LegacyAgrees.

Variable measureText : Z -> string -> string -> Q.
Variable maxWidth : Q.
Variable fontSize : Z.
Variable fontFamily : string.

Let fitsLine (s : string) : Prop :=
  (measure measureText fontSize fontFamily s <= maxWidth)%Q.

Lemma legacy_step_agrees (lines : list string) (cur w : string) :
  fitsLine w ->
  wordStep measureText maxWidth fontSize fontFamily (mkState lines cur) w
  = mkState
      (fst (Legacy.wordStep measureText maxWidth fontSize fontFamily (lines, cur) w))
      (snd (Legacy.wordStep measureText maxWidth fontSize fontFamily (lines, cur) w)).
Proof.
  intros Hw. unfold wordStep, Legacy.wordStep, Js.gtb. cbn [currentLine allLines].
  destruct (Qle_bool (measure measureText fontSize fontFamily
                        (cur ++ (if Js.truthy cur then " " else "") ++ w)) maxWidth)
    eqn:Hfit; cbn [negb andb fst snd]; [reflexivity|].
  assert (Hword : Qle_bool (measure measureText fontSize fontFamily w) maxWidth = true)
    by (apply Qle_bool_iff; exact Hw).
  destruct (Js.truthy cur) eqn:Ht; cbn [fst snd].
  - rewrite pushLine_truthy by exact Ht. cbn [allLines currentLine].
    now rewrite Hword.
  - apply truthy_false in Ht. subst cur. cbn [append] in Hfit. congruence.
Qed.

Lemma legacy_words_agree (words : list string) :
  Forall fitsLine words ->
  forall lines cur,
    fold_left (wordStep measureText maxWidth fontSize fontFamily) words (mkState lines cur)
    = mkState
        (fst (fold_left (Legacy.wordStep measureText maxWidth fontSize fontFamily)
                words (lines, cur)))
        (snd (fold_left (Legacy.wordStep measureText maxWidth fontSize fontFamily)
                words (lines, cur))).
Proof.
  induction 1 as [|w words Hw _ IH]; intros lines cur; cbn [fold_left]; [reflexivity|].
  rewrite (legacy_step_agrees lines cur w Hw).
  destruct (Legacy.wordStep measureText maxWidth fontSize fontFamily (lines, cur) w)
    as [lines' cur'].
  apply IH.
Qed.

Lemma legacy_block_agrees (p : string) :
  Js.trim p <> "" ->
  Forall fitsLine (Js.split Js.space p) ->
  paragraphBlock measureText maxWidth fontSize fontFamily p
  = Legacy.paragraphLines measureText maxWidth fontSize fontFamily p.
Proof.
  intros Hblank Hfit. unfold paragraphBlock, wrapParagraph, Legacy.paragraphLines.
  cbn [Nat.ltb Nat.leb]. apply String.eqb_neq in Hblank. rewrite Hblank.
  rewrite (legacy_words_agree _ Hfit [] "").
  destruct (fold_left (Legacy.wordStep measureText maxWidth fontSize fontFamily)
              (Js.split Js.space p) ([], "")) as [lines cur].
  cbn [fst snd currentLine allLines].
  destruct (Js.truthy cur) eqn:Ht; [|reflexivity].
  now rewrite pushLine_truthy by exact Ht.
Qed.

Lemma legacy_lines_filled (p : string) :
  Forall (fun l => l <> "")
         (Legacy.paragraphLines measureText maxWidth fontSize fontFamily p).
Proof.
  unfold Legacy.paragraphLines.
  destruct (legacy_words_inv measureText maxWidth fontSize fontFamily
              (Js.split Js.space p) (Js.split Js.space p)
              (fun w Hw => Hw) [] "" (Forall_nil _) (or_introl eq_refl)) as [H1 _].
  cbv zeta in H1.
  destruct (fold_left _ (Js.split Js.space p) ([], "")) as [lines cur].
  cbn [fst] in H1.
  assert (Hlines : Forall (fun l => l <> "") lines).
  { eapply Forall_impl; [|exact H1]. cbv beta. now intros l [Hl _]. }
  destruct (Js.truthy cur) eqn:Ht; [|exact Hlines].
  apply Forall_push; [exact Hlines | now apply truthy_true].
Qed.

(** What the two renderers have done so far agrees: the earlier one has made
    the calls of the later one that paint something, and the cursors are the
    same. *)
Let agree (later earlier : Drawn) : Prop :=
  calls earlier = filter paintsText (calls later) /\ currentY earlier = currentY later.

Variable x : Q.

Let lh := lineHeightOf fontSize.

Lemma agree_lines (ls : list string) :
  Forall (fun l => l <> "") ls ->
  ~ In PARA_BREAK ls ->
  forall later earlier,
    agree later earlier ->
    agree (fold_left (drawLine x maxWidth lh AlignLeft) ls later)
          (fold_left (Legacy.paintLine x lh) ls earlier).
Proof.
  induction 1 as [|l ls Hl _ IH]; intros Hno later earlier Hag; cbn [fold_left];
    [exact Hag|].
  apply IH; [intros Hin; apply Hno; now right|].
  destruct Hag as [Hc Hy]. unfold drawLine, Legacy.paintLine.
  destruct (String.eqb l PARA_BREAK) eqn:Hbreak.
  - apply String.eqb_eq in Hbreak. exfalso. apply Hno. now left.
  - split; cbn [calls currentY]; [|now rewrite Hy].
    unfold Js.push. rewrite filter_app, Hc, Hy. cbn [filter].
    replace (paintsText (mkFill l x (currentY later))) with true; [reflexivity|].
    symmetry. unfold paintsText. cbn [fillLine]. now apply truthy_true.
Qed.

Lemma agree_paragraph (p : string) (idx : nat) :
  Forall fitsLine (Js.split Js.space p) ->
  ~ In PARA_BREAK (paragraphBlock measureText maxWidth fontSize fontFamily p) ->
  forall later earlier,
    agree later earlier ->
    agree (fold_left (drawLine x maxWidth lh AlignLeft)
             ((if Nat.ltb 0 idx then [PARA_BREAK] else [])
              ++ paragraphBlock measureText maxWidth fontSize fontFamily p)%list later)
          (Legacy.drawParagraph measureText maxWidth fontSize fontFamily x lh earlier idx p).
Proof.
  intros Hfit Hno later earlier Hag. rewrite fold_left_app.
  unfold Legacy.drawParagraph. cbv zeta.
  set (later1 := fold_left (drawLine x maxWidth lh AlignLeft)
                   (if Nat.ltb 0 idx then [PARA_BREAK] else []) later).
  set (earlier1 := if Nat.ltb 0 idx
                   then mkDrawn (calls earlier) (currentY earlier + lh * (5 # 10))%Q
                   else earlier).
  assert (Hag1 : agree later1 earlier1).
  { unfold later1, earlier1. destruct (Nat.ltb 0 idx); [|exact Hag].
    destruct Hag as [Hc Hy]. cbn [fold_left]. unfold drawLine.
    change (String.eqb PARA_BREAK PARA_BREAK) with true. cbv iota.
    split; cbn [calls currentY]; [exact Hc | now rewrite Hy]. }
  destruct (String.eqb (Js.trim p) "") eqn:Hblank.
  - unfold paragraphBlock, wrapParagraph. cbn [Nat.ltb Nat.leb]. rewrite Hblank.
    cbn [Js.push app fold_left]. unfold drawLine.
    change (String.eqb "" PARA_BREAK) with false. cbv iota.
    destruct Hag1 as [Hc Hy]. split; cbn [calls currentY]; [|now rewrite Hy].
    unfold Js.push. rewrite filter_app. cbn [filter].
    replace (paintsText (mkFill "" x (currentY later1))) with false by reflexivity.
    now rewrite app_nil_r.
  - apply String.eqb_neq in Hblank.
    rewrite (legacy_block_agrees p Hblank Hfit) in *.
    apply agree_lines; [apply legacy_lines_filled | exact Hno | exact Hag1].
Qed.

Lemma agree_paragraphs (ps : list string) :
  (forall p, In p ps -> Forall fitsLine (Js.split Js.space p)) ->
  (forall p, In p ps ->
             ~ In PARA_BREAK (paragraphBlock measureText maxWidth fontSize fontFamily p)) ->
  forall idx later earlier,
    agree later earlier ->
    agree (fold_left (drawLine x maxWidth lh AlignLeft)
             (flat_map (fun b' => PARA_BREAK :: b')
                (map (paragraphBlock measureText maxWidth fontSize fontFamily) ps)) later)
          (Legacy.forEachParagraph measureText maxWidth fontSize fontFamily x lh ps
             (S idx) earlier).
Proof.
  induction ps as [|p ps IH]; intros Hfit Hno idx later earlier Hag;
    cbn [map flat_map fold_left Legacy.forEachParagraph]; [exact Hag|].
  change (PARA_BREAK :: paragraphBlock measureText maxWidth fontSize fontFamily p)
    with (([PARA_BREAK] ++ paragraphBlock measureText maxWidth fontSize fontFamily p)%list).
  rewrite fold_left_app.
  apply IH; [intros q Hq; apply Hfit; now right | intros q Hq; apply Hno; now right|].
  apply (agree_paragraph p (S idx)); [apply Hfit; now left | apply Hno; now left | exact Hag].
Qed.

(** X21 — on a text whose words all fit the line, and none of whose wrapped
    lines is the marker [__PARA_BREAK__], the later renderer, left aligned,
    paints what the earlier one painted, at the same positions, besides an
    empty string for each blank paragraph, and both end at the same
    height. *)
Theorem renderers_agree_when_words_fit :
  forall (text : string) (y : Q),
    (forall p w, In p (Js.split Js.newline text) -> In w (Js.split Js.space p) ->
                 (measure measureText fontSize fontFamily w <= maxWidth)%Q) ->
    (forall p, In p (Js.split Js.newline text) ->
               ~ In PARA_BREAK (paragraphBlock measureText maxWidth fontSize fontFamily p)) ->
    calls (Legacy.drawText measureText maxWidth fontSize fontFamily text x y)
    = filter paintsText
        (calls (drawText measureText text x y maxWidth fontSize fontFamily None))
    /\ currentY (Legacy.drawText measureText maxWidth fontSize fontFamily text x y)
       = currentY (drawText measureText text x y maxWidth fontSize fontFamily None).
Proof.
  intros text y Hfit Hno.
  assert (Hfit' : forall p, In p (Js.split Js.newline text) ->
                            Forall fitsLine (Js.split Js.space p)).
  { intros p Hp. apply Forall_forall. intros w Hw. now apply (Hfit p w). }
  unfold drawText, Legacy.drawText. cbv zeta. fold lh.
  rewrite wrapText_blocks.
  destruct (Js.split Js.newline text) as [|p ps]; [split; reflexivity|].
  cbn [map joinParagraphs Legacy.forEachParagraph]. rewrite fold_left_app.
  apply (agree_paragraphs ps (fun q Hq => Hfit' q (or_intror Hq))
           (fun q Hq => Hno q (or_intror Hq)) 0).
  apply (agree_paragraph p 0 (Hfit' p (or_introl eq_refl)) (Hno p (or_introl eq_refl))
           (mkDrawn [] y) (mkDrawn [] y)).
  split; reflexivity.
Qed.

End LegacyAgrees.

Lemma renderers_agree_when_words_fit_witness :
  calls (Legacy.drawText monoMeasure 60 10 "monospace"
           (String.concat (String Js.newline "") ["ab cd efgh ij"; ""; "kl"]) 0 100)
  = filter paintsText
      (calls (drawText monoMeasure
                (String.concat (String Js.newline "") ["ab cd efgh ij"; ""; "kl"])
                0 100 60 10 "monospace" None)).
Proof.
  apply (renderers_agree_when_words_fit monoMeasure 60 10 "monospace" 0
           (String.concat (String Js.newline "") ["ab cd efgh ij"; ""; "kl"]) 100).
  - intros p w Hp Hw. vm_compute in Hp.
    destruct Hp as [Hp | [Hp | [Hp | []]]]; subst p; vm_compute in Hw;
      repeat (destruct Hw as [Hw | Hw]; [subst w; vm_compute; discriminate|]);
      contradiction.
  - intros p Hp. vm_compute in Hp.
    destruct Hp as [Hp | [Hp | [Hp | []]]]; subst p; vm_compute;
      intros H; repeat (destruct H as [H | H]; [discriminate|]); contradiction.
Defined.

(** ** The font-size search of the editor page *)

Section PageSearch.

Variable fits : Z -> bool.

Lemma mid_between (lo hi : Z) :
  lo < hi -> lo < Page.ceilDiv (lo + hi + 1) 2 <= hi.
Proof.
  intros H. unfold Page.ceilDiv.
  pose proof (Z.div_mod (- (lo + hi + 1)) 2 ltac:(lia)) as Hdm.
  pose proof (Z.mod_pos_bound (- (lo + hi + 1)) 2 ltac:(lia)) as Hm.
  lia.
Qed.

Lemma searchLoop_spec (fuel : nat) :
  forall lo hi,
    (Z.to_nat (hi - lo) < fuel)%nat ->
    exists r,
      Page.searchLoop fits fuel lo hi = Some r
      /\ lo <= r <= Z.max lo hi
      /\ (r = lo \/ fits r = true)
      /\ ((forall a b, a <= b -> fits b = true -> fits a = true) ->
          forall s, r < s <= hi -> fits s = false).
Proof.
  induction fuel as [|k IH]; intros lo hi Hfuel; [lia|]. cbn [Page.searchLoop].
  destruct (lo <? hi) eqn:Hlt; [apply Z.ltb_lt in Hlt | apply Z.ltb_ge in Hlt].
  - pose proof (mid_between lo hi Hlt) as Hmid. cbv zeta.
    set (mid := Page.ceilDiv (lo + hi + 1) 2) in *.
    destruct (fits mid) eqn:Hfit.
    + destruct (IH mid hi) as [r [Hr [Hb [Hok Hmax]]]]; [lia|].
      exists r. split; [exact Hr|]. split; [lia|]. split; [|exact Hmax].
      right. destruct Hok as [Hok | Hok]; [now subst r | exact Hok].
    + destruct (IH lo (mid - 1)) as [r [Hr [Hb [Hok Hmax]]]]; [lia|].
      exists r. split; [exact Hr|]. split; [lia|]. split; [exact Hok|].
      intros Hmono s Hs.
      destruct (Z_le_gt_dec s (mid - 1)) as [Hle | Hgt]; [apply Hmax; [exact Hmono | lia]|].
      destruct (fits s) eqn:Hfs; [|reflexivity].
      rewrite (Hmono mid s ltac:(lia) Hfs) in Hfit. discriminate.
  - exists lo. split; [reflexivity|]. split; [lia|]. split; [now left|].
    intros _ s Hs. lia.
Qed.

Lemma userMaxOf_range (selectedSizeId : string) :
  12 <= Page.userMaxOf selectedSizeId <= 32.
Proof.
  unfold Page.userMaxOf, Page.SIZE_OPTIONS. cbn [find fst].
  repeat (match goal with
          | |- context [String.eqb ?a selectedSizeId] =>
              destruct (String.eqb a selectedSizeId)
          end; [cbn; lia|]).
  cbn. unfold Page.DEFAULT_FONT_SIZE. lia.
Qed.

(** X22 — the search of the editor page ends, whatever the card height and
    the selected size: the size it leaves the text area at lies between 10
    and the ceiling of the search, which is at most 96, and it fits unless it
    is 10; when fitting is monotone (a size fits whenever a larger one does)
    no larger size up to the ceiling fits. *)
Theorem chosenFontSize_is_largest_fit :
  forall (selectedSizeId : string) (clientHeight : Z),
    exists chosen,
      Page.chosenFontSize fits selectedSizeId clientHeight = Some chosen
      /\ 10 <= chosen <= Page.searchCeiling selectedSizeId clientHeight
      /\ Page.searchCeiling selectedSizeId clientHeight <= 96
      /\ (chosen = 10 \/ fits chosen = true)
      /\ ((forall a b, a <= b -> fits b = true -> fits a = true) ->
          forall s, chosen < s <= Page.searchCeiling selectedSizeId clientHeight ->
                    fits s = false).
Proof.
  intros selectedSizeId clientHeight. unfold Page.chosenFontSize. cbv zeta.
  assert (Hhi : 12 <= Page.searchCeiling selectedSizeId clientHeight <= 96).
  { unfold Page.searchCeiling. cbv zeta.
    pose proof (userMaxOf_range selectedSizeId). lia. }
  set (hi := Page.searchCeiling selectedSizeId clientHeight) in *.
  destruct (searchLoop_spec (S (Z.to_nat (hi - 10))) 10 hi) as [r [Hr [Hb [Hok Hmax]]]];
    [lia|].
  rewrite Hr. exists (Z.min r 96).
  replace (Z.min r 96) with r by lia.
  split; [reflexivity|]. split; [lia|]. split; [lia|]. split; [exact Hok | exact Hmax].
Qed.

End PageSearch.

Lemma chosenFontSize_is_largest_fit_witness :
  exists chosen,
    Page.chosenFontSize (fun px => px <=? 20) "16" 600 = Some chosen
    /\ forall s, chosen < s <= Page.searchCeiling "16" 600 -> (s <=? 20) = false.
Proof.
  destruct (chosenFontSize_is_largest_fit (fun px => px <=? 20) "16" 600)
    as [chosen [Hc [_ [_ [_ Hmax]]]]].
  exists chosen. split; [exact Hc|].
  apply Hmax. intros a b Hab Hb. apply Z.leb_le in Hb. apply Z.leb_le. lia.
Defined.
